(** * vibeco-mcp: a shallow embedding of the session-managed HTTP transport,
      the API client and the shared utilities

    The development follows the TypeScript sources:
    - [utils/lru-cache.ts]     the bounded session cache ([LRUCache]);
    - [utils/html.ts]          [escapeHtml];
    - [server/cors.ts]         the path-boundary matcher;
    - [server/http-server.ts]  the CORS middleware, the three protocol
      handlers, the idle sweep, the global error handler and the shutdown
      handler;
    - [vibe/types.ts], [vibe/auth.ts], [vibe/client.ts] and
      [vibe/client-factory.ts]  the configuration read from the
      environment, the client with its error mapping, and the cache of the
      client;
    - [tools/utils.ts] and [tools/ping.ts]  the error texts of the tools.

    Data.  JavaScript strings are modelled by [string], integer-valued
    numbers (capacities, millisecond timestamps, status codes) by [Z].
    The built-in [Map] is modelled after its ECMAScript description: a
    list of entry records in insertion order in which a deleted record is
    emptied, not unlinked, so that a live iterator keeps its position.
    Objects that are shared and compared by identity (transports, clients)
    carry an identity or live at an address.

    Effects.  The cache threads a world for its eviction hook; the server
    code runs in a state monad with exceptions.  Node runs each callback to
    its end before the next one starts, so a handler, a sweep tick and a
    closure signal are one event each.  The protocol engine (the SDK's
    transport), the framework, [fetch] and the parsers of the host are not
    part of the repository: what the engine does with a request, what
    [close] does, what a request to the API comes back with, what
    [parseInt] returns and what a property read on a parsed body yields are
    inputs of the model that range over all behaviours, and an engine that
    closes on its own is an event of its own.  Of the framework the model
    has the order of registration only: a route is its handler followed,
    when the handler rejects, by the error-handling middleware registered
    after it ([Server.route]).  Logging to the console is
    left out, as are the parts that no statement below is about (helmet,
    the rate limiter, the cache-control middleware, the listening socket
    and the exit timer of the shutdown handler). *)

From Stdlib Require Import List String Ascii ZArith Bool Lia Arith DecimalString.
Import ListNotations.

Local Open Scope string_scope.
Local Open Scope list_scope.

Set Implicit Arguments.

(** ** The built-in Map *)

Module JsMap.

Section Ops.
Context {V : Type}.

(** [[MapData]]: [None] is an emptied record. *)
Definition t := list (option (string * V)).

Definition empty : t := [].

(** The records that still hold an entry, oldest insertion first. *)
Fixpoint live (d : t) : list (string * V) :=
  match d with
  | [] => []
  | None :: d' => live d'
  | Some e :: d' => e :: live d'
  end.

(** [Map.prototype.get]: [None] stands for the [undefined] returned on a
    missing key. *)
Fixpoint get (k : string) (d : t) : option V :=
  match d with
  | [] => None
  | None :: d' => get k d'
  | Some (k', v) :: d' => if String.eqb k' k then Some v else get k d'
  end.

(** [Map.prototype.has]. *)
Fixpoint has (k : string) (d : t) : bool :=
  match d with
  | [] => false
  | None :: d' => has k d'
  | Some (k', _) :: d' => if String.eqb k' k then true else has k d'
  end.

(** [Map.prototype.delete]: the first record with the key is emptied.
    Its boolean result is [has k d]. *)
Fixpoint delete (k : string) (d : t) : t :=
  match d with
  | [] => []
  | None :: d' => None :: delete k d'
  | Some (k', v) :: d' =>
      if String.eqb k' k then None :: d' else Some (k', v) :: delete k d'
  end.

(** [Map.prototype.set]: the value of an existing record is replaced in
    place, a new key is appended. *)
Fixpoint set (k : string) (v : V) (d : t) : t :=
  match d with
  | [] => [Some (k, v)]
  | None :: d' => None :: set k v d'
  | Some (k', v') :: d' =>
      if String.eqb k' k then Some (k', v) :: d' else Some (k', v') :: set k v d'
  end.

(** [Map.prototype.size]. *)
Definition size (d : t) : nat := List.length (live d).

(** [map.keys().next()]: [None] when the iterator is done at once. *)
Definition keys_next (d : t) : option string :=
  match live d with
  | [] => None
  | (k, _) :: _ => Some k
  end.

(** [Map.prototype.clear] empties every record. *)
Definition clear (d : t) : t := List.map (fun _ => None) d.

(** No two live records share a key. *)
Definition wf (d : t) : Prop := NoDup (List.map fst (live d)).

End Ops.

Arguments t : clear implicits.

End JsMap.

(** ** The entries of a Map as a list

    What [JsMap.live] shows of a map, with the three operations as they
    show there. *)

Module Entries.

Section Ops.
Context {V : Type}.

(** The value of the first entry with the key. *)
Fixpoint lookup (k : string) (l : list (string * V)) : option V :=
  match l with
  | [] => None
  | (k', v) :: l' => if String.eqb k' k then Some v else lookup k l'
  end.

(** The list without the first entry with the key. *)
Fixpoint remove (k : string) (l : list (string * V)) : list (string * V) :=
  match l with
  | [] => []
  | (k', v) :: l' => if String.eqb k' k then l' else (k', v) :: remove k l'
  end.

(** The list with the value of the first entry with the key replaced, or
    with the entry added at its end. *)
Fixpoint update (k : string) (v : V) (l : list (string * V)) : list (string * V) :=
  match l with
  | [] => [(k, v)]
  | (k', v') :: l' =>
      if String.eqb k' k then (k', v) :: l' else (k', v') :: update k v l'
  end.

End Ops.

End Entries.

(** ** utils/lru-cache.ts *)

Module LRU.

(** A cache can be instantiated at any value type, also at one that has
    [undefined] among its values; [get] and [set] test for it. *)
Class JsValue (V : Type) := is_undefined : V -> bool.

(** [interface LRUCacheOptions<V>].  [maxSize] counts entries and ranges
    over the integers; the optional hook acts on the world [W] outside the
    cache. *)
Record LRUCacheOptions (V W : Type) := {
  maxSize : Z;
  onEvict : option (string -> V -> W -> W)
}.

(** How a method call completes. *)
Inductive completion (A : Type) : Type :=
| Normal (a : A)
| Throw (message : string).

Arguments Normal {A} a.
Arguments Throw {A} message.

(** The calls a client can make. *)
Inductive Op (V : Type) : Type :=
| OpGet (key : string)
| OpHas (key : string)
| OpSet (key : string) (value : V)
| OpDelete (key : string)
| OpClear.

Arguments OpGet {V} key.
Arguments OpHas {V} key.
Arguments OpSet {V} key value.
Arguments OpDelete {V} key.
Arguments OpClear {V}.

Section Cache.
Context {V W : Type} {JV : JsValue V}.
Variable options : LRUCacheOptions V W.

(** The private field [cache = new Map<string, V>()]; the two other
    fields are the read-only [options]. *)
Definition cache := JsMap.t V.

Definition create : cache := JsMap.empty.

(** [get(key)]: a value other than [undefined] is re-inserted at the
    young end. *)
Definition get (key : string) (c : cache) : option V * cache :=
  let value := JsMap.get key c in
  match value with
  | Some v =>
      if is_undefined v then (value, c)
      else (value, JsMap.set key v (JsMap.delete key c))
  | None => (value, c)
  end.

(** [has(key)]. *)
Definition has (key : string) (c : cache) : bool * cache :=
  (JsMap.has key c, c).

(** [set(key, value)]. *)
Definition set (key : string) (value : V) (c : cache) (w : W)
  : completion (cache * W) :=
  if JsMap.has key c then
    Normal (JsMap.set key value (JsMap.delete key c), w)
  else if (Z.of_nat (JsMap.size c) >=? maxSize options)%Z then
    match JsMap.keys_next c with
    | None => Throw "Cache iteration failed unexpectedly"
    | Some oldestKey =>
        let oldestValue := JsMap.get oldestKey c in
        let c1 := JsMap.delete oldestKey c in
        let w1 :=
          match onEvict options, oldestValue with
          | Some hook, Some ov => if is_undefined ov then w else hook oldestKey ov w
          | _, _ => w
          end in
        Normal (JsMap.set key value c1, w1)
    end
  else Normal (JsMap.set key value c, w).

(** [delete(key)]. *)
Definition delete (key : string) (c : cache) : bool * cache :=
  (JsMap.has key c, JsMap.delete key c).

(** [get size()]. *)
Definition size (c : cache) : nat := JsMap.size c.

(** [entries()]: the pairs a complete iteration yields. *)
Definition entries (c : cache) : list (string * V) := JsMap.live c.

(** [clear()]. *)
Definition clear (c : cache) : cache := JsMap.clear c.

(** One call on the cache in its world; the value a call returns is
    dropped, its effect stays. *)
Definition step (op : Op V) (s : cache * W) : completion (cache * W) :=
  let (c, w) := s in
  match op with
  | OpGet k => Normal (snd (get k c), w)
  | OpHas k => Normal (snd (has k c), w)
  | OpSet k v => set k v c w
  | OpDelete k => Normal (snd (delete k c), w)
  | OpClear => Normal (clear c, w)
  end.

(** A sequence of calls; a throw ends it. *)
Fixpoint run (ops : list (Op V)) (s : cache * W) : completion (cache * W) :=
  match ops with
  | [] => Normal s
  | op :: ops' =>
      match step op s with
      | Normal s' => run ops' s'
      | Throw m => Throw m
      end
  end.

End Cache.

(** The sequence of [set] calls with the given arguments. *)
Definition sets {V : Type} (kvs : list (string * V)) : list (Op V) :=
  List.map (fun kv => OpSet (fst kv) (snd kv)) kvs.

(** Position, counted from [t], of the last [set] of [k] in a history of
    [set] calls. *)
Fixpoint last_access_at {V : Type} (t : nat) (k : string)
  (hist : list (string * V)) : option nat :=
  match hist with
  | [] => None
  | (k', _) :: hist' =>
      match last_access_at (S t) k hist' with
      | Some t' => Some t'
      | None => if String.eqb k' k then Some t else None
      end
  end.

Definition last_access {V : Type} (k : string) (hist : list (string * V))
  : option nat := last_access_at 0 k hist.

(** [k] was last accessed before [k'] was. *)
Definition older {V : Type} (hist : list (string * V)) (k k' : string) : Prop :=
  match last_access k hist, last_access k' hist with
  | Some t, Some t' => t < t'
  | _, _ => False
  end.

(** [e] is in the cache and every other key in it was accessed later. *)
Definition least_recently_accessed {V : Type} (hist : list (string * V))
  (c : JsMap.t V) (e : string) : Prop :=
  JsMap.has e c = true /\
  forall k, JsMap.has k c = true -> k <> e -> older hist e k.

(** The keys of a list, each accessed at some time and before all the keys
    after it. *)
Fixpoint recency_ordered {V : Type} (hist : list (string * V))
  (ks : list string) : Prop :=
  match ks with
  | [] => True
  | k :: ks' =>
      last_access k hist <> None /\
      Forall (older hist k) ks' /\ recency_ordered hist ks'
  end.

(** What every run of [set] calls maintains. *)
Definition cache_inv {V : Type} (N : Z) (hist : list (string * V))
  (c : JsMap.t V) : Prop :=
  JsMap.wf c /\
  recency_ordered hist (List.map fst (JsMap.live c)) /\
  (Z.of_nat (JsMap.size c) <= N)%Z.

(** The keys that a history of [set] calls has set, each once and with
    the value of its last [set], in the order of their last [set]. *)
Definition touched {V : Type} (hist : list (string * V)) : list (string * V) :=
  List.fold_left (fun acc kv => Entries.remove (fst kv) acc ++ [kv]) hist [].

(** The last [n] elements of a list, or all of them. *)
Definition most_recent {A : Type} (n : nat) (l : list A) : list A :=
  List.skipn (List.length l - n) l.

(** A hook that records its calls, as a test spy does. *)
Definition spy {V : Type} (key : string) (value : V)
  (calls : list (string * V)) : list (string * V) :=
  calls ++ [(key, value)].

(** Value types of the test suite: strings, and strings or [undefined]. *)
#[global] Instance string_value : JsValue string := fun _ => false.

#[global] Instance optional_value {A : Type} : JsValue (option A) :=
  fun v => match v with None => true | Some _ => false end.

End LRU.

(** ** server/cors.ts *)

Module Cors.

(** [String.prototype.startsWith]. *)
Definition startsWith (s searchString : string) : bool :=
  String.prefix searchString s.

(** [String.prototype.endsWith]: the last [length searchString]
    characters of [s] are compared with [searchString]. *)
Definition endsWith (s searchString : string) : bool :=
  let len := String.length s in
  let searchLength := String.length searchString in
  if (len <? searchLength)%nat then false
  else String.eqb (String.substring (len - searchLength)%nat searchLength s) searchString.

Definition CORS_ALLOWED_PATHS : list string := ["/mcp"].

Definition matchesAllowedPathBoundary (requestPath allowedPath : string) : bool :=
  if String.eqb requestPath allowedPath then true
  else if endsWith allowedPath "/" then startsWith requestPath allowedPath
  else startsWith requestPath (allowedPath ++ "/").

Definition isCorsAllowedPath (requestPath : string) : bool :=
  List.existsb (fun allowedPath => matchesAllowedPathBoundary requestPath allowedPath)
    CORS_ALLOWED_PATHS.

End Cors.

(** ** server/http-server.ts *)

Module Server.

Local Open Scope Z_scope.

Definition SESSION_IDLE_TIMEOUT_MS : Z := 30 * 60 * 1000.
Definition CLEANUP_INTERVAL_MS : Z := 5 * 60 * 1000.
Definition MAX_SESSIONS : Z := 1000.
Definition JSONRPC_ERROR_INVALID_REQUEST : Z := -32600.
Definition JSONRPC_ERROR_INTERNAL : Z := -32603.

(** A [StreamableHTTPServerTransport] object: its identity and the
    [sessionId] property the engine fills in when it initializes. *)
Record Transport := {
  transportId : nat;
  sessionId : option string
}.

(** [interface SessionInfo]. *)
Record SessionInfo := {
  transport : Transport;
  lastActivity : Z
}.

(** A session is an object, never [undefined]. *)
#[global] Instance session_value : LRU.JsValue SessionInfo := fun _ => false.

(** What [transport.close()] does when this code calls it: it returns a
    promise that resolves or rejects, or it throws at once. *)
Inductive CloseOutcome := CloseResolves | CloseRejects | CloseThrows.

(** What the engine does with one request handed to it:
    - [connectFails]: [server.connect(transport)] rejects (new transports);
    - [initialized]: the session id it announces through
      [onsessioninitialized] (new transports; an established engine
      announces none);
    - [closes]: it fires [onclose];
    - [commits]: it starts the response, so that [res.headersSent] holds;
    - [throws]: [handleRequest] rejects. *)
Record Engine := {
  connectFails : bool;
  initialized : option string;
  closes : bool;
  commits : bool;
  throws : bool
}.

(** Bodies this code writes. *)
Inductive Body :=
| JsonRpcError (code : Z) (message : string)
| ErrorMessage (error : string)
| NoBody.

(** The response object: [written] lists the responses sent by this code
    ([res.status(c).json(b)], [res.status(c).end()]), [headers] the
    [setHeader] calls. *)
Record Response := {
  headersSent : bool;
  headers : list (string * string);
  written : list (Z * Body)
}.

Definition freshResponse : Response :=
  {| headersSent := false; headers := []; written := [] |}.

(** The request fields the handlers read. *)
Record Request (Payload : Type) := {
  method : string;
  path : string;
  origin : option string;
  mcpSessionId : option string;
  body : Payload
}.

(** The state of [startHttpServer]'s closure together with the response of
    the request in flight.  [closeCalls] lists the [transport.close()]
    calls made so far, [activityWrites] the assignments to
    [session.lastActivity] made by [touchSession], [created] counts the
    transports constructed. *)
Record State := {
  sessions : LRU.cache (V := SessionInfo);
  closeCalls : list Transport;
  activityWrites : list (string * Z);
  created : nat;
  res : Response
}.

Definition initialState : State :=
  {| sessions := LRU.create; closeCalls := []; activityWrites := [];
     created := 0; res := freshResponse |}.

Definition with_sessions (c : LRU.cache) (st : State) : State :=
  {| sessions := c; closeCalls := closeCalls st;
     activityWrites := activityWrites st; created := created st; res := res st |}.

Definition with_closeCalls (calls : list Transport) (st : State) : State :=
  {| sessions := sessions st; closeCalls := calls;
     activityWrites := activityWrites st; created := created st; res := res st |}.

Definition with_activityWrites (ws : list (string * Z)) (st : State) : State :=
  {| sessions := sessions st; closeCalls := closeCalls st;
     activityWrites := ws; created := created st; res := res st |}.

Definition with_created (n : nat) (st : State) : State :=
  {| sessions := sessions st; closeCalls := closeCalls st;
     activityWrites := activityWrites st; created := n; res := res st |}.

Definition with_res (r : Response) (st : State) : State :=
  {| sessions := sessions st; closeCalls := closeCalls st;
     activityWrites := activityWrites st; created := created st; res := r |}.

(** Statements run in the state and return or throw. *)
Inductive Result (A : Type) : Type :=
| Ok (a : A)
| Err (error : string).

Arguments Ok {A} a.
Arguments Err {A} error.

Definition M (A : Type) : Type := State -> Result A * State.

Definition ret {A : Type} (a : A) : M A := fun st => (Ok a, st).

Definition throw {A : Type} (error : string) : M A := fun st => (Err error, st).

Definition bind {A B : Type} (m : M A) (f : A -> M B) : M B :=
  fun st =>
    match m st with
    | (Ok a, st') => f a st'
    | (Err e, st') => (Err e, st')
    end.

(** [try { m } catch (error) { handler }]. *)
Definition tryCatch {A : Type} (m : M A) (handler : string -> M A) : M A :=
  fun st =>
    match m st with
    | (Ok a, st') => (Ok a, st')
    | (Err e, st') => handler e st'
    end.

Definition gets {A : Type} (f : State -> A) : M A := fun st => (Ok (f st), st).

Definition modify (f : State -> State) : M unit := fun st => (Ok tt, f st).

Notation "x <- m ;; k" := (bind m (fun x => k))
  (at level 61, m at next level, right associativity).
Notation "m ;; k" := (bind m (fun _ => k))
  (at level 61, right associativity).

(** The value of [h] when [h] is truthy: a string other than the empty
    one. *)
Definition truthy (h : option string) : option string :=
  match h with
  | Some s => if String.eqb s "" then None else Some s
  | None => None
  end.

Definition isSome {A : Type} (o : option A) : bool :=
  match o with Some _ => true | None => false end.

(** [res.status(code).json(body)] and [res.status(code).end()]. *)
Definition res_send (code : Z) (b : Body) : M unit :=
  modify (fun st =>
    with_res {| headersSent := true; headers := headers (res st);
                written := written (res st) ++ [(code, b)] |} st).

Definition res_setHeader (name value : string) (r : Response) : Response :=
  {| headersSent := headersSent r; headers := headers r ++ [(name, value)];
     written := written r |}.

Section Handlers.
Context {Payload : Type}.
Variable isInitializeRequest : Payload -> bool.
Variable closeBehaviour : Transport -> CloseOutcome.

(** [t.close()] as called by this code; a rejected promise is taken by
    the [.catch] attached to it. *)
Definition transport_close (t : Transport) (calls : list Transport)
  : Result unit * list Transport :=
  (match closeBehaviour t with
   | CloseThrows => Err "close failed"
   | CloseResolves | CloseRejects => Ok tt
   end, calls ++ [t]).

(** The [onEvict] hook: [try { session.transport.close()... } catch {}]. *)
Definition onEvictSession (sid : string) (session : SessionInfo)
  (calls : list Transport) : list Transport :=
  snd (transport_close (transport session) calls).

Definition sessionOptions : LRU.LRUCacheOptions SessionInfo (list Transport) :=
  {| LRU.maxSize := MAX_SESSIONS; LRU.onEvict := Some onEvictSession |}.

Definition sessions_get (sid : string) : M (option SessionInfo) :=
  fun st =>
    let (v, c) := LRU.get sid (sessions st) in (Ok v, with_sessions c st).

Definition sessions_has (sid : string) : M bool :=
  fun st =>
    let (b, c) := LRU.has sid (sessions st) in (Ok b, with_sessions c st).

Definition sessions_delete (sid : string) : M bool :=
  fun st =>
    let (b, c) := LRU.delete sid (sessions st) in (Ok b, with_sessions c st).

Definition sessions_set (sid : string) (session : SessionInfo) : M unit :=
  fun st =>
    match LRU.set sessionOptions sid session (sessions st) (closeCalls st) with
    | LRU.Normal (c, calls) => (Ok tt, with_closeCalls calls (with_sessions c st))
    | LRU.Throw m => (Err m, st)
    end.

(** [touchSession].  The assignment to [session.lastActivity] goes
    through the object the map holds, then the object is set again. *)
Definition touchSession (sid : string) (now : Z) : M unit :=
  session <- sessions_get sid ;;
  match session with
  | None => ret tt
  | Some session =>
      let session' := {| transport := transport session; lastActivity := now |} in
      modify (fun st =>
        with_activityWrites (activityWrites st ++ [(sid, now)])
          (with_sessions (JsMap.set sid session' (sessions st)) st)) ;;
      sessions_set sid session'
  end.

(** [cleanupSession]. *)
Definition cleanupSession (sid : string) : M unit :=
  session <- sessions_get sid ;;
  match session with
  | None => ret tt
  | Some session =>
      tryCatch
        (fun st =>
           let (r, calls) := transport_close (transport session) (closeCalls st) in
           (r, with_closeCalls calls st))
        (fun _ => ret tt) ;;
      _ <- sessions_delete sid ;;
      ret tt
  end.

(** The [transport.onclose] handler installed on a new transport. *)
Definition transport_onclose (t : Transport) : M unit :=
  match truthy (sessionId t) with
  | Some sid =>
      present <- sessions_has sid ;;
      if present then _ <- sessions_delete sid ;; ret tt else ret tt
  | None => ret tt
  end.

(** The end of every [handleRequest]: the engine may close, start the
    response, and throw. *)
Definition engine_finish (t : Transport) (eng : Engine) : M unit :=
  (if closes eng then transport_onclose t else ret tt) ;;
  (if commits eng
   then modify (fun st =>
          with_res {| headersSent := true; headers := headers (res st);
                      written := written (res st) |} st)
   else ret tt) ;;
  (if throws eng then throw "handleRequest failed" else ret tt).

(** [transport.handleRequest] on the transport of an established
    session. *)
Definition handleRequest (t : Transport) (eng : Engine) : M unit :=
  engine_finish t eng.

(** [transport.handleRequest] on a new transport: when the engine
    establishes the session it sets [transport.sessionId] and calls
    [onsessioninitialized], which registers the session. *)
Definition handleInitialize (t : Transport) (now : Z) (eng : Engine) : M unit :=
  match initialized eng with
  | Some sid =>
      let t' := {| transportId := transportId t; sessionId := Some sid |} in
      sessions_set sid {| transport := t'; lastActivity := now |} ;;
      engine_finish t' eng
  | None => engine_finish t eng
  end.

(** [new StreamableHTTPServerTransport(...)]. *)
Definition newTransport : M Transport :=
  fun st =>
    (Ok {| transportId := created st; sessionId := None |},
     with_created (S (created st)) st).

(** [getServer()] and [server.connect(transport)]. *)
Definition connect (eng : Engine) : M unit :=
  if connectFails eng then throw "connect failed" else ret tt.

Definition internalError (message : string) : M unit :=
  sent <- gets (fun st => headersSent (res st)) ;;
  if negb sent then res_send 500 (JsonRpcError JSONRPC_ERROR_INTERNAL message)
  else ret tt.

(** [mcpPostHandler]. *)
Definition mcpPostHandler (req : Request Payload) (now : Z) (eng : Engine) : M unit :=
  let sessionId := truthy (mcpSessionId req) in
  tryCatch
    (existingSession <-
       match sessionId with
       | Some sid => sessions_get sid
       | None => ret None
       end ;;
     match sessionId, existingSession with
     | Some sid, Some existing =>
         let transport := transport existing in
         touchSession sid now ;;
         handleRequest transport eng
     | _, _ =>
         if negb (isSome sessionId) && isInitializeRequest (body req) then
           transport <- newTransport ;;
           connect eng ;;
           handleInitialize transport now eng
         else if isSome sessionId && negb (isSome existingSession) then
           res_send 404 (JsonRpcError JSONRPC_ERROR_INVALID_REQUEST "Session not found")
         else
           res_send 400
             (JsonRpcError JSONRPC_ERROR_INVALID_REQUEST
                "Bad Request: No valid session ID provided")
     end)
    (fun _ => internalError "Internal server error").

Definition rejectSession (sessionId : option string) : M unit :=
  res_send (if isSome sessionId then 404 else 400)
    (JsonRpcError JSONRPC_ERROR_INVALID_REQUEST
       (if isSome sessionId then "Session not found" else "Missing session ID")).

(** [mcpGetHandler]. *)
Definition mcpGetHandler (req : Request Payload) (now : Z) (eng : Engine) : M unit :=
  let sessionId := truthy (mcpSessionId req) in
  session <-
    match sessionId with
    | Some sid => sessions_get sid
    | None => ret None
    end ;;
  match sessionId, session with
  | Some sid, Some session =>
      touchSession sid now ;;
      handleRequest (transport session) eng
  | _, _ => rejectSession sessionId
  end.

(** [mcpDeleteHandler]. *)
Definition mcpDeleteHandler (req : Request Payload) (eng : Engine) : M unit :=
  let sessionId := truthy (mcpSessionId req) in
  session <-
    match sessionId with
    | Some sid => sessions_get sid
    | None => ret None
    end ;;
  match sessionId, session with
  | Some sid, Some session =>
      tryCatch (handleRequest (transport session) eng)
        (fun _ => internalError "Error processing session termination")
  | _, _ => rejectSession sessionId
  end.

(** The global error handler, [app.use((err, req, res, next) => ...)]. *)
Definition globalErrorHandler : M unit :=
  internalError "Internal server error".

(** A route of the application, [app.post("/mcp", mcpPostHandler)] and its
    like, with the error-handling middleware that [app.use] registers
    after the routes.  The handlers are [async] functions: one that returns
    ends the request, and the rejection of one that throws is passed by the
    router to the error-handling middleware, as a call of [next(err)] is
    (the router of Express 5 does so with the promise a handler
    returns). *)
Definition route (handler : M unit) : M unit :=
  tryCatch handler (fun _ => globalErrorHandler).

(** The sweep's test, [now - session.lastActivity > SESSION_IDLE_TIMEOUT_MS]. *)
Definition idle (now : Z) (session : SessionInfo) : bool :=
  now - lastActivity session >? SESSION_IDLE_TIMEOUT_MS.

(** The interval callback.  The loop is the [Map] iterator behind
    [sessions.entries()]: it reads the record at [index] of the map as the
    map is at that moment and stops past the last record.  [None] means
    that [fuel] iterations did not reach the end. *)
Fixpoint sweepFrom (fuel : nat) (now : Z) (index : nat) (st : State)
  : option (Result unit * State) :=
  match fuel with
  | O => None
  | S fuel' =>
      match nth_error (sessions st) index with
      | None => Some (Ok tt, st)
      | Some None => sweepFrom fuel' now (S index) st
      | Some (Some (sid, session)) =>
          if idle now session then
            match cleanupSession sid st with
            | (Ok _, st') => sweepFrom fuel' now (S index) st'
            | (Err e, st') => Some (Err e, st')
            end
          else sweepFrom fuel' now (S index) st
      end
  end.

(** Each record is visited once and each visit adds at most one record,
    an emptied one, so twice the number of records is fuel enough. *)
Definition sweep (now : Z) (st : State) : option (Result unit * State) :=
  sweepFrom (2 * List.length (sessions st) + 1) now 0 st.

(** What the CORS middleware did with a request. *)
Inductive Passed := Next | Ended.

(** The CORS middleware, [app.use((req, res, next) => ...)]. *)
Definition corsMiddleware (req : Request Payload) (r : Response) : Passed * Response :=
  match truthy (origin req) with
  | None => (Next, r)
  | Some origin =>
      let isAllowed := Cors.isCorsAllowedPath (path req) in
      if isAllowed then
        let r1 := res_setHeader "Access-Control-Allow-Origin" origin r in
        let r2 := res_setHeader "Access-Control-Allow-Methods" "GET, POST, DELETE, OPTIONS" r1 in
        let r3 := res_setHeader "Access-Control-Allow-Headers" "Content-Type, mcp-session-id" r2 in
        let r4 := res_setHeader "Access-Control-Max-Age" "86400" r3 in
        if String.eqb (method req) "OPTIONS" then
          (Ended, {| headersSent := true; headers := headers r4;
                     written := written r4 ++ [(204, NoBody)] |})
        else (Next, r4)
      else
        (Ended, {| headersSent := true; headers := headers r;
                   written := written r ++ [(403, ErrorMessage "Cross-origin requests not allowed")] |})
  end.

(** What can happen to the server between two requests. *)
Inductive Event :=
| Post (req : Request Payload) (now : Z) (eng : Engine)
| Get (req : Request Payload) (now : Z) (eng : Engine)
| Delete (req : Request Payload) (eng : Engine)
| Tick (now : Z)
| Closed (t : Transport).

(** The session id an event can register. *)
Definition announces (ev : Event) : option string :=
  match ev with
  | Post _ _ eng => initialized eng
  | _ => None
  end.

(** The server after an event; every request comes with a response of its
    own. *)
Definition after (ev : Event) (st : State) : State :=
  match ev with
  | Post req now eng => snd (mcpPostHandler req now eng (with_res freshResponse st))
  | Get req now eng => snd (mcpGetHandler req now eng (with_res freshResponse st))
  | Delete req eng => snd (mcpDeleteHandler req eng (with_res freshResponse st))
  | Tick now => match sweep now st with Some (_, st') => st' | None => st end
  | Closed t => snd (transport_onclose t st)
  end.

Definition afterAll (evs : list Event) (st : State) : State :=
  List.fold_left (fun s ev => after ev s) evs st.

End Handlers.

(** A property of the session cache kept by each step the handlers take
    on it: re-inserting or overwriting a key that is there, deleting a
    key, inserting a new key below capacity or in place of the oldest
    one, and dropping entries. *)
Record maintained (P : JsMap.t SessionInfo -> Prop) : Prop := {
  kept_wf : forall c, P c -> JsMap.wf c;
  kept_promote : forall c k v,
    P c -> JsMap.has k c = true -> P (JsMap.set k v (JsMap.delete k c));
  kept_update : forall c k v,
    P c -> JsMap.has k c = true -> P (JsMap.set k v c);
  kept_delete : forall c k, P c -> P (JsMap.delete k c);
  kept_insert : forall c k v,
    P c -> JsMap.has k c = false -> Z.of_nat (JsMap.size c) < MAX_SESSIONS ->
    P (JsMap.set k v c);
  kept_evict : forall c k v e,
    P c -> JsMap.has k c = false -> JsMap.keys_next c = Some e ->
    P (JsMap.set k v (JsMap.delete e c));
  kept_filter : forall c c' (f : string * SessionInfo -> bool),
    P c -> JsMap.live c' = List.filter f (JsMap.live c) -> P c'
}.

(** The [shutdown] handler installed for SIGINT and SIGTERM, as far as
    the sessions go.  Unlike the sweep and the eviction hook, which take a
    session out of the map themselves, this loop only closes, so the
    [onclose] handler that [close()] may run before it returns is part of
    the call here: [closeSignals] tells for which engines it runs. *)

Section Shutdown.
Variable closeBehaviour : Transport -> CloseOutcome.
Variable closeSignals : Transport -> bool.

(** [try { session.transport.close().catch(...) } catch {}] *)
Definition closeQuietly (t : Transport) (st : State) : State :=
  let st1 := with_closeCalls (snd (transport_close closeBehaviour t (closeCalls st))) st in
  if closeSignals t then snd (transport_onclose t st1) else st1.

(** [for (const [sessionId, session] of sessions.entries()) ...]: the
    [Map] iterator as in the sweep.  [None] means that [fuel] iterations
    did not reach the end. *)
Fixpoint shutdownFrom (fuel : nat) (index : nat) (st : State) : option State :=
  match fuel with
  | O => None
  | S fuel' =>
      match nth_error (sessions st) index with
      | None => Some st
      | Some None => shutdownFrom fuel' (S index) st
      | Some (Some (sid, session)) =>
          shutdownFrom fuel' (S index) (closeQuietly (transport session) st)
      end
  end.

(** The loop adds no record, so one more than the number of records is
    fuel enough; [sessions.clear()] follows the loop. *)
Definition shutdown (st : State) : option State :=
  match shutdownFrom (S (List.length (sessions st))) 0 st with
  | Some st' => Some (with_sessions (LRU.clear (sessions st')) st')
  | None => None
  end.

End Shutdown.

(** Every session is held under the id its own transport reports, as
    [onsessioninitialized] registers it. *)
Definition keyed (c : JsMap.t SessionInfo) : Prop :=
  forall k s, JsMap.get k c = Some s -> sessionId (transport s) = Some k.

(** The engines in their places.  A transport is a JavaScript object, told
    from the others by [transportId], its number in the order of
    construction.  The ledger of a state: the sessions of the cache hold
    transports that were constructed, no two of them the same one, and the
    transports this code has called [close] on are constructed ones, are
    out of the cache, and were each closed once. *)
Definition ledger (st : State) : Prop :=
  (forall k s, JsMap.get k (sessions st) = Some s ->
               (transportId (transport s) < created st)%nat) /\
  (forall k1 k2 s1 s2,
      JsMap.get k1 (sessions st) = Some s1 ->
      JsMap.get k2 (sessions st) = Some s2 ->
      transportId (transport s1) = transportId (transport s2) -> k1 = k2) /\
  (forall t, In t (closeCalls st) ->
             (transportId t < created st)%nat /\
             forall k s, JsMap.get k (sessions st) = Some s ->
                         transportId (transport s) <> transportId t) /\
  NoDup (List.map transportId (closeCalls st)).

End Server.

(** ** Sample requests, engines and states

    The doubles of the test suite: a payload is its method name, and
    [isInitializeRequest] tests it for ["initialize"]. *)

Module Samples.
Import Server.

Definition isInitialize (payload : string) : bool :=
  String.eqb payload "initialize".

Definition closesFine (t : Transport) : CloseOutcome := CloseResolves.

Definition closeThrows (t : Transport) : CloseOutcome := CloseThrows.

Definition request (verb : string) (sid : option string) (payload : string)
  : Request string :=
  {| method := verb; path := "/mcp"; origin := None;
     mcpSessionId := sid; body := payload |}.

(** An engine that answers the request. *)
Definition answers : Engine :=
  {| connectFails := false; initialized := None; closes := false;
     commits := true; throws := false |}.

(** An engine that establishes the session [sid] and answers. *)
Definition establishes (sid : string) : Engine :=
  {| connectFails := false; initialized := Some sid; closes := false;
     commits := true; throws := false |}.

(** An engine that throws before it has written anything. *)
Definition failsEarly : Engine :=
  {| connectFails := false; initialized := None; closes := false;
     commits := false; throws := true |}.

(** The server after one initiating request at time 0. *)
Definition oneSession : State :=
  after isInitialize closesFine
    (Post (request "POST" None "initialize") 0%Z (establishes "s1"))
    initialState.

(** The session of [oneSession]. *)
Definition session1 : SessionInfo :=
  {| transport := {| transportId := 0; sessionId := Some "s1" |};
     lastActivity := 0 |}.

(** A cache at capacity: [MAX_SESSIONS] sessions under the keys ["0"],
    ["1"], ..., the oldest first, untouched since time 0. *)
Definition sessionKey (n : nat) : string :=
  NilEmpty.string_of_uint (Nat.to_uint n).

Definition sessionOf (n : nat) : SessionInfo :=
  {| transport := {| transportId := n; sessionId := Some (sessionKey n) |};
     lastActivity := 0 |}.

Definition fullServer : State :=
  {| sessions :=
       List.map (fun n => Some (sessionKey n, sessionOf n))
         (List.seq 0 (Z.to_nat MAX_SESSIONS));
     closeCalls := []; activityWrites := [];
     created := Z.to_nat MAX_SESSIONS; res := freshResponse |}.

End Samples.

(** ** utils/html.ts *)

Module Html.

(** The double quote character. *)
Definition QUOTE : ascii := Eval cbv in ascii_of_nat 34.

(** [str.replace(/c/g, replacement)] for a pattern that is one literal
    character and a replacement without [$]: every occurrence of the
    character is replaced, from left to right. *)
Fixpoint replaceAll (c : ascii) (replacement : string) (str : string) : string :=
  match str with
  | EmptyString => EmptyString
  | String a rest =>
      if Ascii.eqb a c then replacement ++ replaceAll c replacement rest
      else String a (replaceAll c replacement rest)
  end.

(** [escapeHtml]: four passes over the string, the ampersand first. *)
Definition escapeHtml (str : string) : string :=
  replaceAll QUOTE "&quot;"
    (replaceAll ">"%char "&gt;"
       (replaceAll "<"%char "&lt;"
          (replaceAll "&"%char "&amp;" str))).

(** What the four passes together make of one character. *)
Definition entity (a : ascii) : string :=
  if Ascii.eqb a "&"%char then "&amp;"
  else if Ascii.eqb a "<"%char then "&lt;"
  else if Ascii.eqb a ">"%char then "&gt;"
  else if Ascii.eqb a QUOTE then "&quot;"
  else String a EmptyString.

(** The characters [escapeHtml] rewrites. *)
Definition special (a : ascii) : bool :=
  Ascii.eqb a "&"%char || Ascii.eqb a "<"%char || Ascii.eqb a ">"%char ||
  Ascii.eqb a QUOTE.

Fixpoint occurs (a : ascii) (str : string) : bool :=
  match str with
  | EmptyString => false
  | String b rest => Ascii.eqb b a || occurs a rest
  end.

Fixpoint plain (str : string) : bool :=
  match str with
  | EmptyString => true
  | String a rest => negb (special a) && plain rest
  end.

End Html.

(** ** vibe/types.ts and constants.ts *)

Module Types.

Definition VIBE_API_BASE_URL : string :=
  "https://clear-platform.vibe.co/rest/reporting/v1".

Definition FETCH_TIMEOUT_MS : Z := 30000.

Inductive VibeErrorCode :=
| UNAUTHORIZED
| FORBIDDEN
| NOT_FOUND
| RATE_LIMITED
| VALIDATION_ERROR
| SERVER_ERROR
| NETWORK_ERROR
| TIMEOUT
| UNKNOWN.

(** The string a code is. *)
Definition codeString (code : VibeErrorCode) : string :=
  match code with
  | UNAUTHORIZED => "UNAUTHORIZED"
  | FORBIDDEN => "FORBIDDEN"
  | NOT_FOUND => "NOT_FOUND"
  | RATE_LIMITED => "RATE_LIMITED"
  | VALIDATION_ERROR => "VALIDATION_ERROR"
  | SERVER_ERROR => "SERVER_ERROR"
  | NETWORK_ERROR => "NETWORK_ERROR"
  | TIMEOUT => "TIMEOUT"
  | UNKNOWN => "UNKNOWN"
  end.

(** [class VibeClientError]; [None] is [undefined]. *)
Record VibeClientError := {
  message : string;
  code : VibeErrorCode;
  statusCode : option Z;
  retryable : bool;
  apiMessage : option string
}.

(** [type VibeResult<T>]. *)
Inductive VibeResult (T : Type) : Type :=
| Success (data : T)
| Failure (error : VibeClientError).

Arguments Success {T} data.
Arguments Failure {T} error.

(** [interface VibeConfig]. *)
Record VibeConfig := {
  apiKey : string;
  baseUrl : string
}.

(** [interface VibeRateLimitInfo] over the numbers [parseInt] returns. *)
Record VibeRateLimitInfo (Number : Type) := {
  limit : Number;
  remaining : Number;
  resetAt : string;
  retryAfter : option Number
}.

End Types.

(** ** vibe/auth.ts *)

Module Auth.

(** The two variables of [process.env] this code reads; a variable of the
    environment is a string or is not set. *)
Record Env := {
  VIBE_API_KEY : option string;
  VIBE_API_BASE_URL : option string
}.

(** [class VibeAuthError]. *)
Record VibeAuthError := {
  message : string;
  code : string
}.

(** [loadVibeConfig]: the configuration, or the error thrown. *)
Definition loadVibeConfig (env : Env) : Types.VibeConfig + VibeAuthError :=
  match Server.truthy (VIBE_API_KEY env) with
  | None =>
      inr {| message :=
               "VIBE_API_KEY environment variable is required. " ++
               "Get your API key from: Vibe account > Developer Tool > API Keys.";
             code := "NO_API_KEY" |}
  | Some apiKey =>
      let baseUrl :=
        match VIBE_API_BASE_URL env with
        | Some url => url
        | None => Types.VIBE_API_BASE_URL
        end in
      inl {| Types.apiKey := apiKey; Types.baseUrl := baseUrl |}
  end.

(** [isVibeConfigured]: [!!process.env["VIBE_API_KEY"]]. *)
Definition isVibeConfigured (env : Env) : bool :=
  Server.isSome (Server.truthy (VIBE_API_KEY env)).

End Auth.

(** ** vibe/client.ts *)

Module Client.

Local Open Scope Z_scope.

(** [baseUrl.replace(/\/+$/, "")]: the run of slashes that ends the
    string is removed. *)
Fixpoint stripTrailingSlashes (url : string) : string :=
  match url with
  | EmptyString => EmptyString
  | String a rest =>
      match stripTrailingSlashes rest with
      | EmptyString => if Ascii.eqb a "/"%char then EmptyString else String a EmptyString
      | stripped => String a stripped
      end
  end.

(** A run of [n] slashes. *)
Fixpoint slashes (n : nat) : string :=
  match n with
  | O => EmptyString
  | S n' => String "/"%char (slashes n')
  end.

(** [`${status}`] for an integer status. *)
Definition decimal (n : Z) : string := NilZero.string_of_int (Z.to_int n).

(** What reading a property of a parsed body gives: the read throws (the
    body is [null]), or yields [undefined], [null], a string or a value of
    another type. *)
Inductive Property :=
| ReadThrows
| Undefined
| Null
| Str (s : string)
| Other.

(** What the [try] block of [request] throws when it gets no response:
    an [Error] object with its name and message, or some other value. *)
Inductive Thrown :=
| ErrorObject (name message : string)
| NotAnError.

Section Request.
(** The numbers of the host, with [parseInt(_, 10)], and the parsed
    bodies, with the property read [body[key]]. *)
Variables Number Data : Type.
Variable parseInt : string -> Number.
Variable read : Data -> string -> Property.

(** The fields of a [Response] that are read: [json] is [None] when
    [response.json()] rejects. *)
Record Response := {
  ok : bool;
  status : Z;
  header : string -> option string;
  json : option Data
}.

(** How the [try] block gets to its end: with a response, or with a
    throw from [fetch] or from [JSON.stringify]. *)
Inductive Fetched :=
| Responds (response : Response)
| Throws (err : Thrown).

(** [class VibeClient]. *)
Record VibeClient := {
  apiKey : string;
  baseUrl : string;
  rateLimitInfo : option (Types.VibeRateLimitInfo Number)
}.

(** The constructor. *)
Definition new (config : Types.VibeConfig) : VibeClient :=
  {| apiKey := Types.apiKey config;
     baseUrl := stripTrailingSlashes (Types.baseUrl config);
     rateLimitInfo := None |}.

Definition getRateLimitInfo (client : VibeClient)
  : option (Types.VibeRateLimitInfo Number) :=
  rateLimitInfo client.

(** [parseRateLimitHeaders]. *)
Definition parseRateLimitHeaders (response : Response) (client : VibeClient)
  : VibeClient :=
  let limit := header response "x-rate-limit" in
  let remaining := header response "x-rate-limit-left" in
  let resetAt := header response "x-rate-limit-reset-at" in
  let retryAfter := header response "x-rate-limit-retry-after" in
  match limit, remaining, resetAt with
  | Some limit, Some remaining, Some resetAt =>
      {| apiKey := apiKey client;
         baseUrl := baseUrl client;
         rateLimitInfo :=
           Some {| Types.limit := parseInt limit;
                   Types.remaining := parseInt remaining;
                   Types.resetAt := resetAt;
                   Types.retryAfter :=
                     match retryAfter with
                     | Some retryAfter => Some (parseInt retryAfter)
                     | None => None
                     end |} |}
  | _, _, _ => client
  end.

(** The message of the API in an error body:
    [body["message"] ?? body["error"]] when that is a string. *)
Definition apiMessageOf (response : Response) : option string :=
  match json response with
  | None => None
  | Some body =>
      match read body "message" with
      | ReadThrows => None
      | Str msg => Some msg
      | Other => None
      | Undefined | Null =>
          match read body "error" with
          | Str msg => Some msg
          | _ => None
          end
      end
  end.

(** [mapHttpError]. *)
Definition mapHttpError (response : Response) : Types.VibeClientError :=
  let status := status response in
  let apiMessage := apiMessageOf response in
  let suffix : string :=
    match Server.truthy apiMessage with
    | Some msg => (": " ++ msg)%string
    | None => ""
    end in
  if status =? 400 then
    {| Types.message := "Bad request" ++ suffix;
       Types.code := Types.VALIDATION_ERROR; Types.statusCode := Some status;
       Types.retryable := false; Types.apiMessage := apiMessage |}
  else if status =? 403 then
    {| Types.message := "Invalid or missing API key" ++ suffix;
       Types.code := Types.FORBIDDEN; Types.statusCode := Some status;
       Types.retryable := false; Types.apiMessage := apiMessage |}
  else if status =? 404 then
    {| Types.message := "Resource not found" ++ suffix;
       Types.code := Types.NOT_FOUND; Types.statusCode := Some status;
       Types.retryable := false; Types.apiMessage := apiMessage |}
  else if status =? 422 then
    {| Types.message := "Validation error" ++ suffix;
       Types.code := Types.VALIDATION_ERROR; Types.statusCode := Some status;
       Types.retryable := false; Types.apiMessage := apiMessage |}
  else if status =? 429 then
    {| Types.message := "Rate limit exceeded. Please wait before retrying." ++ suffix;
       Types.code := Types.RATE_LIMITED; Types.statusCode := Some status;
       Types.retryable := true; Types.apiMessage := apiMessage |}
  else if (status >=? 400) && (status <? 500) then
    {| Types.message := "Client error (" ++ decimal status ++ ")" ++ suffix;
       Types.code := Types.VALIDATION_ERROR; Types.statusCode := Some status;
       Types.retryable := false; Types.apiMessage := apiMessage |}
  else
    {| Types.message := "Server error (" ++ decimal status ++ ")" ++ suffix;
       Types.code := Types.SERVER_ERROR; Types.statusCode := Some status;
       Types.retryable := true; Types.apiMessage := apiMessage |}.

(** [mapNetworkError]. *)
Definition mapNetworkError (err : Thrown) : Types.VibeClientError :=
  match err with
  | ErrorObject name message =>
      if String.eqb name "AbortError" then
        {| Types.message := "Request timed out";
           Types.code := Types.TIMEOUT; Types.statusCode := None;
           Types.retryable := true; Types.apiMessage := None |}
      else
        {| Types.message := "Network error: " ++ message;
           Types.code := Types.NETWORK_ERROR; Types.statusCode := None;
           Types.retryable := false; Types.apiMessage := None |}
  | NotAnError =>
      {| Types.message := "Unknown error occurred";
         Types.code := Types.UNKNOWN; Types.statusCode := None;
         Types.retryable := false; Types.apiMessage := None |}
  end.

(** [request], from the [try] on: the result the promise resolves to and
    the client after the call.  The URL is built before the [try]; a
    string that is no URL makes the promise reject there and is not part
    of this function. *)
Definition request (fetched : Fetched) (client : VibeClient)
  : Types.VibeResult Data * VibeClient :=
  match fetched with
  | Responds response =>
      let client := parseRateLimitHeaders response client in
      if negb (ok response) then (Types.Failure (mapHttpError response), client)
      else
        match json response with
        | Some data => (Types.Success data, client)
        | None =>
            (Types.Failure
               {| Types.message := "Received non-JSON response from the Vibe API";
                  Types.code := Types.UNKNOWN;
                  Types.statusCode := Some (status response);
                  Types.retryable := false; Types.apiMessage := None |},
             client)
        end
  | Throws err => (Types.Failure (mapNetworkError err), client)
  end.

End Request.

Arguments Throws {Data} err.

End Client.

(** ** vibe/client-factory.ts *)

Module ClientFactory.

Local Open Scope string_scope.

(** [type VibeClientResult]; a client is the address of its object. *)
Inductive VibeClientResult :=
| ClientOk (client : nat)
| ClientError (error : string).

Definition orEmpty (value : option string) : string :=
  match value with
  | Some s => s
  | None => ""
  end.

(** An environment whose key holds no colon and whose base URL, when set,
    is not the empty string. *)
Definition unambiguous (env : Auth.Env) : Prop :=
  Html.occurs ":"%char (orEmpty (Auth.VIBE_API_KEY env)) = false /\
  Auth.VIBE_API_BASE_URL env <> Some "".

Section Factory.
Variable Number : Type.

(** The module's two variables and the client objects constructed so
    far, each at its address. *)
Record ModuleState := {
  cachedClient : option nat;
  cachedConfigHash : option string;
  clients : list (Client.VibeClient Number)
}.

Definition loaded : ModuleState :=
  {| cachedClient := None; cachedConfigHash := None; clients := [] |}.

(** [getConfigHash]. *)
Definition getConfigHash (env : Auth.Env) : string :=
  orEmpty (Auth.VIBE_API_KEY env) ++ ":" ++ orEmpty (Auth.VIBE_API_BASE_URL env).

(** [cachedClient && cachedConfigHash === hash]. *)
Definition cacheHit (m : ModuleState) (hash : string) : option nat :=
  match cachedClient m, cachedConfigHash m with
  | Some client, Some cached => if String.eqb cached hash then Some client else None
  | _, _ => None
  end.

(** [getVibeClient]. *)
Definition getVibeClient (env : Auth.Env) (m : ModuleState)
  : VibeClientResult * ModuleState :=
  let hash := getConfigHash env in
  match cacheHit m hash with
  | Some client => (ClientOk client, m)
  | None =>
      match Auth.loadVibeConfig env with
      | inl config =>
          let client := List.length (clients m) in
          (ClientOk client,
           {| cachedClient := Some client;
              cachedConfigHash := Some hash;
              clients := (clients m ++ [Client.new Number config])%list |})
      | inr err =>
          (ClientError (Auth.message err),
           {| cachedClient := None; cachedConfigHash := None;
              clients := clients m |})
      end
  end.

(** [getVibeClientOrThrow]: the client, or the message of the [Error]
    thrown. *)
Definition getVibeClientOrThrow (env : Auth.Env) (m : ModuleState)
  : (nat + string) * ModuleState :=
  match getVibeClient env m with
  | (ClientOk client, m') => (inl client, m')
  | (ClientError error, m') => (inr error, m')
  end.

(** The calls made one after the other, each in the environment of its
    time. *)
Definition calls (envs : list Auth.Env) (m : ModuleState) : ModuleState :=
  List.fold_left (fun m env => snd (getVibeClient env m)) envs m.

(** The cached client, when there is one, was constructed from the
    configuration of an unambiguous environment with the cached hash. *)
Definition consistent (m : ModuleState) : Prop :=
  forall client hash,
    cachedClient m = Some client -> cachedConfigHash m = Some hash ->
    exists env config,
      unambiguous env /\ hash = getConfigHash env /\
      Auth.loadVibeConfig env = inl config /\
      nth_error (clients m) client = Some (Client.new Number config).

End Factory.

End ClientFactory.

(** ** tools/utils.ts and tools/ping.ts *)

Module ToolUtils.

Local Open Scope string_scope.

(** [ToolErrorResponse] and [ToolSuccessResponse] without structured
    content: [isError] is [true] or is not there, [content] holds the
    texts. *)
Record ToolResponse := {
  isError : bool;
  content : list string
}.

(** [ERROR_MESSAGES[code]] for the codes of the client; the object has
    two entries. *)
Definition ERROR_MESSAGES (code : Types.VibeErrorCode) : option string :=
  match code with
  | Types.FORBIDDEN =>
      Some ("Your API key is invalid or missing. Set VIBE_API_KEY with a valid key " ++
            "from Vibe account > Developer Tool > API Keys.")
  | Types.RATE_LIMITED =>
      Some ("You have exceeded Vibe's rate limit (15 requests/hour for report " ++
            "creation). Please wait before trying again.")
  | _ => None
  end.

(** [formatError], applied as the tools apply it, to the error of a
    client result. *)
Definition formatError (error : Types.VibeClientError) (resourceType : option string)
  : ToolResponse :=
  let errorMessage :=
    match Types.code error, Server.truthy resourceType with
    | Types.NOT_FOUND, Some resourceType =>
        "The requested " ++ resourceType ++ " was not found."
    | code, _ =>
        match Server.truthy (ERROR_MESSAGES code) with
        | Some mappedMessage => mappedMessage
        | None => Types.message error
        end
    end in
  {| isError := true;
     content :=
       ["Vibe API Error (" ++ Types.codeString (Types.code error) ++ "): " ++ errorMessage] |}.

(** [formatAuthError]. *)
Definition formatAuthError (message : string) : ToolResponse :=
  {| isError := true; content := ["Authentication Error: " ++ message] |}.

(** [formatValidationError]. *)
Definition formatValidationError (message : string) : ToolResponse :=
  {| isError := true; content := ["Error: " ++ message] |}.

(** [formatMessage]. *)
Definition formatMessage (message : string) : ToolResponse :=
  {| isError := false; content := [message] |}.

(** The line feed. *)
Definition LF : string := Eval cbv in String (ascii_of_nat 10) EmptyString.

(** The handler of the [vibe.ping] tool. *)
Definition ping (env : Auth.Env) : ToolResponse :=
  let configured := Auth.isVibeConfigured env in
  if negb configured then
    {| isError := true;
       content :=
         ["Vibe MCP server is running, but API credentials are not configured." ++
          LF ++ LF ++
          "Please set the following environment variable:" ++ LF ++
          "  - VIBE_API_KEY: Your Vibe API key (from Vibe account > Developer Tool > API Keys)"] |}
  else formatMessage "Vibe MCP server is running and API credentials are configured.".

End ToolUtils.

(** ** Sample environments, responses and bodies *)

Module VibeSamples.

Definition keyOnly : Auth.Env :=
  {| Auth.VIBE_API_KEY := Some "test-key"; Auth.VIBE_API_BASE_URL := None |}.

Definition custom : Auth.Env :=
  {| Auth.VIBE_API_KEY := Some "test-key";
     Auth.VIBE_API_BASE_URL := Some "https://custom.api.com/v3/" |}.

Definition unset : Auth.Env :=
  {| Auth.VIBE_API_KEY := None; Auth.VIBE_API_BASE_URL := None |}.

(** Bodies that are objects with string fields, numbers that are the
    digits read. *)
Definition readField (body : list (string * string)) (key : string) : Client.Property :=
  match List.find (fun field => String.eqb (fst field) key) body with
  | Some field => Client.Str (snd field)
  | None => Client.Undefined
  end.

Definition digits (s : string) : string := s.

Definition noHeaders (name : string) : option string := None.

Definition rateHeaders (name : string) : option string :=
  if String.eqb name "x-rate-limit" then Some "15"
  else if String.eqb name "x-rate-limit-left" then Some "14"
  else if String.eqb name "x-rate-limit-reset-at" then Some "2025-01-01T01:00:00Z"
  else None.

Definition respond (status : Z) (header : string -> option string)
  (body : option (list (string * string)))
  : Client.Response (list (string * string)) :=
  {| Client.ok := (200 <=? status)%Z && (status <=? 299)%Z;
     Client.status := status; Client.header := header; Client.json := body |}.

End VibeSamples.

(** * Facts about the built-in Map *)

Unset Implicit Arguments.

Module JsMapFacts.
Import JsMap.

Section Facts.
Context {V : Type}.
Implicit Types (d : JsMap.t V) (k : string) (v : V).

Lemma live_app d1 d2 : live (d1 ++ d2) = live d1 ++ live d2.
Proof.
  induction d1 as [|[e|] d1 IH]; simpl; try rewrite IH; reflexivity.
Qed.

Lemma has_app k d1 d2 : has k (d1 ++ d2) = has k d1 || has k d2.
Proof.
  induction d1 as [|[[k' v']|] d1 IH]; simpl; auto.
  destruct (String.eqb k' k); auto.
Qed.

Lemma has_In k d : has k d = true <-> In k (List.map fst (live d)).
Proof.
  induction d as [|[[k' v']|] d IH]; simpl.
  - split; [discriminate | tauto].
  - destruct (String.eqb_spec k' k) as [->|Hne].
    + split; auto.
    + rewrite IH. split; [auto | intros [?|?]; [contradiction | assumption]].
  - exact IH.
Qed.

Lemma has_false_In k d : has k d = false <-> ~ In k (List.map fst (live d)).
Proof.
  rewrite <- has_In. destruct (has k d); split; congruence.
Qed.

Lemma get_None k d : get k d = None <-> has k d = false.
Proof.
  induction d as [|[[k' v']|] d IH]; simpl; try tauto.
  destruct (String.eqb k' k); [split; discriminate | exact IH].
Qed.

Lemma get_Some_has k d v : get k d = Some v -> has k d = true.
Proof.
  intros Hg. destruct (has k d) eqn:Hh; auto.
  apply get_None in Hh. congruence.
Qed.

Lemma has_get k d : has k d = true -> exists v, get k d = Some v.
Proof.
  intros Hh. destruct (get k d) as [v|] eqn:Hg; eauto.
  apply get_None in Hg. congruence.
Qed.

Lemma delete_absent k d : has k d = false -> delete k d = d.
Proof.
  induction d as [|[[k' v']|] d IH]; simpl; intros Hh; auto.
  - destruct (String.eqb k' k); [discriminate | now rewrite IH].
  - now rewrite IH.
Qed.

Lemma set_absent k v d : has k d = false -> set k v d = d ++ [Some (k, v)].
Proof.
  induction d as [|[[k' v']|] d IH]; simpl; intros Hh; auto.
  - destruct (String.eqb k' k); [discriminate | now rewrite IH].
  - now rewrite IH.
Qed.

Lemma delete_app_absent k d1 d2 :
  has k d1 = false -> delete k (d1 ++ d2) = d1 ++ delete k d2.
Proof.
  induction d1 as [|[[k' v']|] d1 IH]; simpl; intros Hh; auto.
  - destruct (String.eqb k' k); [discriminate | now rewrite IH].
  - now rewrite IH.
Qed.

Lemma get_app_absent k d1 d2 :
  has k d1 = false -> get k (d1 ++ d2) = get k d2.
Proof.
  induction d1 as [|[[k' v']|] d1 IH]; simpl; intros Hh; auto.
  destruct (String.eqb k' k); [discriminate | now rewrite IH].
Qed.

Lemma has_delete_other k k' d : k' <> k -> has k' (delete k d) = has k' d.
Proof.
  intros Hne. induction d as [|[[k0 v0]|] d IH]; simpl; auto.
  destruct (String.eqb_spec k0 k) as [->|Hk]; simpl.
  - destruct (String.eqb_spec k k'); [congruence | reflexivity].
  - now rewrite IH.
Qed.

Lemma has_delete_sub k k' d : has k' (delete k d) = true -> has k' d = true.
Proof.
  induction d as [|[[k0 v0]|] d IH]; simpl; auto.
  destruct (String.eqb_spec k0 k) as [->|Hk]; simpl.
  - intros ->. now destruct (String.eqb k k').
  - destruct (String.eqb k0 k'); auto.
Qed.

Lemma has_set k k' v d : has k' (set k v d) = String.eqb k k' || has k' d.
Proof.
  induction d as [|[[k0 v0]|] d IH]; simpl.
  - now destruct (String.eqb k k').
  - destruct (String.eqb_spec k0 k) as [->|Hk]; simpl.
    + now destruct (String.eqb k k').
    + rewrite IH. destruct (String.eqb k0 k'), (String.eqb k k'); reflexivity.
  - exact IH.
Qed.

(** Deleting a present key takes exactly its first record out of the live
    list. *)
Lemma live_delete_split k d :
  has k d = true ->
  exists l1 v l2,
    live d = l1 ++ (k, v) :: l2 /\ ~ In k (List.map fst l1) /\
    live (delete k d) = l1 ++ l2 /\ get k d = Some v.
Proof.
  induction d as [|[[k' v']|] d IH]; simpl; intros Hh.
  - discriminate.
  - destruct (String.eqb_spec k' k) as [->|Hne].
    + exists [], v', (live d). simpl. auto.
    + destruct (IH Hh) as (l1 & v & l2 & E1 & Hn & E2 & Hg).
      exists ((k', v') :: l1), v, l2. simpl. rewrite E1, E2.
      repeat split; auto. intros [?|?]; [congruence | auto].
  - exact (IH Hh).
Qed.

Lemma wf_has_delete k d : wf d -> has k (delete k d) = false.
Proof.
  unfold wf. intros Hwf. destruct (has k d) eqn:Hh.
  - destruct (live_delete_split _ _ Hh) as (l1 & v & l2 & E1 & Hn & E2 & _).
    apply has_false_In. rewrite E2. rewrite E1 in Hwf.
    rewrite List.map_app in *. simpl in Hwf.
    apply NoDup_remove_2 in Hwf. exact Hwf.
  - now rewrite delete_absent.
Qed.

Lemma wf_delete k d : wf d -> wf (delete k d).
Proof.
  unfold wf. intros Hwf. destruct (has k d) eqn:Hh.
  - destruct (live_delete_split _ _ Hh) as (l1 & v & l2 & E1 & Hn & E2 & _).
    rewrite E2. rewrite E1 in Hwf. rewrite List.map_app in *. simpl in Hwf.
    now apply NoDup_remove_1 in Hwf.
  - now rewrite delete_absent.
Qed.

Lemma wf_set_absent k v d : wf d -> has k d = false -> wf (set k v d).
Proof.
  unfold wf. intros Hwf Hh. rewrite set_absent, live_app by assumption.
  simpl. rewrite List.map_app. simpl.
  apply has_false_In in Hh.
  apply NoDup_rev in Hwf.
  rewrite <- (List.rev_involutive (_ ++ [k])). apply NoDup_rev.
  rewrite List.rev_app_distr. simpl. constructor; auto.
  now rewrite <- List.in_rev.
Qed.

Lemma size_delete k d : has k d = true -> S (size (delete k d)) = size d.
Proof.
  intros Hh. unfold size.
  destruct (live_delete_split _ _ Hh) as (l1 & v & l2 & E1 & _ & E2 & _).
  rewrite E1, E2, !List.length_app. simpl. lia.
Qed.

Lemma size_set_absent k v d : has k d = false -> size (set k v d) = S (size d).
Proof.
  intros Hh. unfold size. rewrite set_absent, live_app, List.length_app by assumption.
  simpl. lia.
Qed.

Lemma keys_next_live d e :
  keys_next d = Some e ->
  exists v l, live d = (e, v) :: l /\ live (delete e d) = l /\ get e d = Some v.
Proof.
  unfold keys_next. intros Hk.
  induction d as [|[[k' v']|] d IH]; simpl in *.
  - discriminate.
  - injection Hk as ->. rewrite String.eqb_refl. eauto.
  - auto.
Qed.

Lemma get_set_same k v d : get k (set k v d) = Some v.
Proof.
  induction d as [|[[k0 v0]|] d IH]; simpl.
  - now rewrite String.eqb_refl.
  - destruct (String.eqb_spec k0 k) as [->|Hk]; simpl.
    + now rewrite String.eqb_refl.
    + destruct (String.eqb_spec k0 k); [contradiction | exact IH].
  - exact IH.
Qed.

Lemma get_set_other k k' v d : k' <> k -> get k' (set k v d) = get k' d.
Proof.
  intros Hne. induction d as [|[[k0 v0]|] d IH]; simpl.
  - destruct (String.eqb_spec k k'); [congruence | reflexivity].
  - destruct (String.eqb_spec k0 k) as [->|Hk]; simpl.
    + destruct (String.eqb_spec k k'); [congruence | reflexivity].
    + now rewrite IH.
  - exact IH.
Qed.

Lemma get_delete_other k k' d : k' <> k -> get k' (delete k d) = get k' d.
Proof.
  intros Hne. induction d as [|[[k0 v0]|] d IH]; simpl; auto.
  destruct (String.eqb_spec k0 k) as [->|Hk]; simpl.
  - destruct (String.eqb_spec k k'); [congruence | reflexivity].
  - now rewrite IH.
Qed.

(** Re-inserting a key keeps the keys of the map. *)
Lemma has_promote k k' v d :
  has k d = true -> has k' (set k v (delete k d)) = has k' d.
Proof.
  intros Hk. rewrite has_set.
  destruct (String.eqb_spec k k') as [<-|Hne]; [now rewrite Hk|].
  simpl. apply has_delete_other. congruence.
Qed.

Lemma get_promote_other k k' v d :
  k' <> k -> get k' (set k v (delete k d)) = get k' d.
Proof.
  intros Hne. now rewrite get_set_other, get_delete_other.
Qed.

Lemma live_length d : (List.length (live d) <= List.length d)%nat.
Proof. induction d as [|[e|] d IH]; simpl; lia. Qed.

Lemma live_emptied d : Forall (fun e => e = None) d -> live d = [].
Proof.
  induction d as [|e d IH]; intros Hd; [reflexivity|].
  inversion Hd as [|? ? He Hd']; subst. simpl. auto.
Qed.

Lemma has_emptied k d : Forall (fun e => e = None) d -> has k d = false.
Proof.
  intros Hd. apply has_false_In. now rewrite live_emptied.
Qed.

Lemma get_In k v d : get k d = Some v -> In (k, v) (live d).
Proof.
  induction d as [|[[k0 v0]|] d IH]; simpl; try discriminate; auto.
  destruct (String.eqb_spec k0 k) as [->|Hk].
  - intros [= ->]. auto.
  - auto.
Qed.

(** In a well-formed map an entry is the one [get] finds. *)
Lemma wf_In_get k v d : wf d -> In (k, v) (live d) -> get k d = Some v.
Proof.
  unfold wf. induction d as [|[[k0 v0]|] d IH]; simpl; intros Hwf Hin.
  - contradiction.
  - inversion Hwf as [|? ? Hn Hwf']; subst.
    destruct (String.eqb_spec k0 k) as [->|Hk].
    + destruct Hin as [[= ->]|Hin]; [reflexivity|].
      exfalso. apply Hn. now apply (List.in_map fst) in Hin.
    + destruct Hin as [[= -> ->]|Hin]; [contradiction | auto].
  - auto.
Qed.

Lemma keys_set_present k v d :
  has k d = true -> List.map fst (live (set k v d)) = List.map fst (live d).
Proof.
  induction d as [|[[k0 v0]|] d IH]; simpl; intros Hh.
  - discriminate.
  - destruct (String.eqb_spec k0 k) as [->|Hk]; simpl; [reflexivity|].
    now rewrite IH.
  - auto.
Qed.

Lemma wf_set k v d : wf d -> wf (set k v d).
Proof.
  intros Hwf. destruct (has k d) eqn:Hh.
  - unfold wf. now rewrite keys_set_present.
  - now apply wf_set_absent.
Qed.

Lemma wf_promote k v d : wf d -> wf (set k v (delete k d)).
Proof. intros Hwf. now apply wf_set, wf_delete. Qed.

Lemma wf_filter (f : string * V -> bool) d d' :
  wf d -> live d' = List.filter f (live d) -> wf d'.
Proof.
  unfold wf. intros Hwf ->. induction (live d) as [|[k v] l IH]; simpl in *.
  - constructor.
  - inversion Hwf as [|? ? Hn Hwf']; subst.
    destruct (f (k, v)); simpl; auto.
    constructor; auto. intros Hin. apply Hn.
    apply List.in_map_iff in Hin. destruct Hin as (e & He & Hin).
    apply List.filter_In in Hin. rewrite <- He. apply List.in_map. tauto.
Qed.

End Facts.

End JsMapFacts.

(** * The map through its entries *)

Module EntriesFacts.
Import JsMap.

Section Facts.
Context {V : Type}.
Implicit Types (d : JsMap.t V) (k : string) (v : V) (l : list (string * V)).

Lemma get_live k d : get k d = Entries.lookup k (live d).
Proof.
  induction d as [|[[k' v']|] d IH]; simpl; auto.
  now destruct (String.eqb k' k).
Qed.

Lemma has_live k d :
  has k d = match Entries.lookup k (live d) with Some _ => true | None => false end.
Proof.
  induction d as [|[[k' v']|] d IH]; simpl; auto.
  now destruct (String.eqb k' k).
Qed.

Lemma live_delete k d : live (delete k d) = Entries.remove k (live d).
Proof.
  induction d as [|[[k' v']|] d IH]; simpl; auto.
  destruct (String.eqb k' k); simpl; [reflexivity | now rewrite IH].
Qed.

Lemma live_set k v d : live (set k v d) = Entries.update k v (live d).
Proof.
  induction d as [|[[k' v']|] d IH]; simpl; auto.
  destruct (String.eqb k' k); simpl; [reflexivity | now rewrite IH].
Qed.

Lemma live_clear d : live (clear d) = [].
Proof. unfold clear. induction d as [|e d IH]; simpl; auto. Qed.

Lemma lookup_In k l : Entries.lookup k l = None <-> ~ In k (List.map fst l).
Proof.
  induction l as [|[k' v'] l IH]; simpl; [tauto|].
  destruct (String.eqb_spec k' k) as [->|Hne].
  - split; [discriminate | intros H; exfalso; auto].
  - rewrite IH. tauto.
Qed.

Lemma update_absent k v l :
  ~ In k (List.map fst l) -> Entries.update k v l = l ++ [(k, v)].
Proof.
  induction l as [|[k' v'] l IH]; simpl; intros Hn; [reflexivity|].
  destruct (String.eqb_spec k' k) as [->|Hne]; [tauto|].
  rewrite IH; tauto.
Qed.

Lemma remove_absent k l : ~ In k (List.map fst l) -> Entries.remove k l = l.
Proof.
  induction l as [|[k' v'] l IH]; simpl; intros Hn; [reflexivity|].
  destruct (String.eqb_spec k' k) as [->|Hne]; [tauto|].
  rewrite IH; tauto.
Qed.

End Facts.

End EntriesFacts.

(** * Facts about the cache *)

Module LRUFacts.
Import LRU.

Section History.
Context {V : Type}.
Implicit Types (hist : list (string * V)) (k : string) (v : V).

Lemma last_access_at_snoc t k hist k' v :
  last_access_at t k (hist ++ [(k', v)]) =
  if String.eqb k' k then Some (t + List.length hist)%nat else last_access_at t k hist.
Proof.
  revert t. induction hist as [|[k0 v0] hist IH]; intros t; simpl.
  - rewrite Nat.add_0_r. reflexivity.
  - rewrite IH. destruct (String.eqb k' k).
    + f_equal. lia.
    + reflexivity.
Qed.

Lemma last_access_at_bound t k hist t' :
  last_access_at t k hist = Some t' -> (t <= t' < t + List.length hist)%nat.
Proof.
  revert t. induction hist as [|[k0 v0] hist IH]; intros t; simpl.
  - discriminate.
  - destruct (last_access_at (S t) k hist) as [t1|] eqn:E.
    + intros [= <-]. apply IH in E. lia.
    + destruct (String.eqb k0 k); [intros [= <-]; lia | discriminate].
Qed.

Lemma last_access_new k hist v :
  last_access k (hist ++ [(k, v)]) = Some (List.length hist).
Proof.
  unfold last_access. now rewrite last_access_at_snoc, String.eqb_refl.
Qed.

Lemma last_access_other k k' hist v :
  k' <> k -> last_access k' (hist ++ [(k, v)]) = last_access k' hist.
Proof.
  intros Hne. unfold last_access. rewrite last_access_at_snoc.
  destruct (String.eqb_spec k k'); [congruence | reflexivity].
Qed.

Lemma older_other hist k v a b :
  a <> k -> b <> k -> older hist a b -> older (hist ++ [(k, v)]) a b.
Proof.
  intros Ha Hb. unfold older. now rewrite !last_access_other by assumption.
Qed.

Lemma older_new hist k v a :
  a <> k -> last_access a hist <> None -> older (hist ++ [(k, v)]) a k.
Proof.
  intros Ha Hs. unfold older.
  rewrite last_access_other, last_access_new by assumption.
  destruct (last_access a hist) as [t|] eqn:E; [|congruence].
  apply last_access_at_bound in E. lia.
Qed.

Lemma recency_ordered_app hist l1 l2 :
  recency_ordered hist (l1 ++ l2) <->
  recency_ordered hist l1 /\ recency_ordered hist l2 /\
  forall a b, In a l1 -> In b l2 -> older hist a b.
Proof.
  induction l1 as [|k l1 IH]; simpl.
  - intuition.
  - rewrite IH, Forall_app, !Forall_forall. split.
    + intros (Hs & (H1 & H2) & Ho1 & Ho2 & Hx). repeat split; auto.
      intros a b [<-|Ha] Hb; auto.
    + intros ((Hs & H1 & Ho1) & Ho2 & Hx). repeat split; auto.
Qed.

Lemma recency_ordered_drop hist l1 k l2 :
  recency_ordered hist (l1 ++ k :: l2) -> recency_ordered hist (l1 ++ l2).
Proof.
  rewrite !recency_ordered_app. simpl.
  intros (H1 & (_ & _ & H2) & Hx). split; [assumption | split; [assumption|]].
  intros a b Ha Hb. apply Hx; simpl; auto.
Qed.

Lemma recency_ordered_accessed hist l a :
  recency_ordered hist l -> In a l -> last_access a hist <> None.
Proof.
  induction l as [|k l IH]; simpl; [tauto|].
  intros (Hs & _ & Hl) [<-|Ha]; auto.
Qed.

(** After [set k], the keys other than [k] keep their order and [k] is
    the youngest. *)
Lemma recency_ordered_snoc hist l k v :
  recency_ordered hist l -> ~ In k l ->
  recency_ordered (hist ++ [(k, v)]) (l ++ [k]).
Proof.
  intros Hl Hk. apply recency_ordered_app. split; [|split].
  - induction l as [|a l IH]; simpl in *; auto.
    destruct Hl as (Hs & Ho & Hl). split; [|split].
    + rewrite last_access_other by tauto. assumption.
    + rewrite Forall_forall in *. intros b Hb.
      apply older_other; auto; intros ->; tauto.
    + apply IH; tauto.
  - simpl. split; [|split].
    + rewrite last_access_new. discriminate.
    + constructor.
    + exact I.
  - intros a b Ha [<-|[]]. apply older_new.
    + intros ->. contradiction.
    + eapply recency_ordered_accessed; eauto.
Qed.

End History.

Section CacheFacts.
Context {V W : Type} {JV : JsValue V}.
Variable options : LRUCacheOptions V W.
Implicit Types (c : cache (V := V)) (w : W) (k : string) (v : V).

Lemma run_app ops1 ops2 s :
  run options (ops1 ++ ops2) s =
  match run options ops1 s with
  | Normal s' => run options ops2 s'
  | Throw m => Throw m
  end.
Proof.
  revert s. induction ops1 as [|op ops1 IH]; intros s; simpl; auto.
  destruct (step options op s); auto.
Qed.

Lemma sets_snoc (hist : list (string * V)) k v :
  sets (hist ++ [(k, v)]) = sets hist ++ [OpSet k v].
Proof. unfold sets. now rewrite List.map_app. Qed.

(** The queries leave the cache and its world as they are. *)
Lemma step_has k s : step options (OpHas k) s = Normal s.
Proof. now destruct s. Qed.

Lemma run_has k n s : run options (List.repeat (OpHas k) n) s = Normal s.
Proof.
  induction n as [|n IH]; simpl; auto. now rewrite step_has.
Qed.

(** [set] on a key in the cache. *)
Lemma set_present k v c w :
  JsMap.has k c = true ->
  set options k v c w = Normal (JsMap.set k v (JsMap.delete k c), w).
Proof. unfold set. now intros ->. Qed.

(** [set] of a new key below capacity. *)
Lemma set_room k v c w :
  JsMap.has k c = false -> (Z.of_nat (JsMap.size c) < maxSize options)%Z ->
  set options k v c w = Normal (JsMap.set k v c, w).
Proof.
  unfold set. intros -> Hlt.
  destruct (Z.geb_spec (Z.of_nat (JsMap.size c)) (maxSize options)); [lia | reflexivity].
Qed.

(** [set] of a new key at capacity: the oldest entry leaves, the hook sees
    it when there is a hook and the value is not [undefined]. *)
Lemma set_full k v c w e ev rest :
  JsMap.has k c = false -> (Z.of_nat (JsMap.size c) >= maxSize options)%Z ->
  entries c = (e, ev) :: rest ->
  set options k v c w =
    Normal (JsMap.set k v (JsMap.delete e c),
            match onEvict options with
            | Some hook => if is_undefined ev then w else hook e ev w
            | None => w
            end) /\
  entries (JsMap.set k v (JsMap.delete e c)) = rest ++ [(k, v)].
Proof.
  unfold set, entries. intros Hk Hge Hl. rewrite Hk.
  destruct (Z.geb_spec (Z.of_nat (JsMap.size c)) (maxSize options)); [|lia].
  assert (Hn : JsMap.keys_next c = Some e) by (unfold JsMap.keys_next; now rewrite Hl).
  rewrite Hn.
  destruct (JsMapFacts.keys_next_live _ _ Hn) as (v' & l & E1 & E2 & Hg).
  rewrite Hl in E1. injection E1 as <- <-. rewrite Hg.
  split.
  - now destruct (onEvict options).
  - assert (Hk' : JsMap.has k (JsMap.delete e c) = false).
    { destruct (JsMap.has k (JsMap.delete e c)) eqn:E; auto.
      apply JsMapFacts.has_delete_sub in E. congruence. }
    now rewrite JsMapFacts.set_absent, JsMapFacts.live_app, E2.
Qed.

(** [set] puts no key but its own into the cache. *)
Lemma set_keys k v c w c' w' k' :
  set options k v c w = Normal (c', w') ->
  JsMap.has k' c' = true -> JsMap.has k' c = true \/ k' = k.
Proof.
  unfold set. intros Hset Hk'.
  assert (Hsub : forall x d, JsMap.has k' (JsMap.set k v (JsMap.delete x d)) = true ->
                             JsMap.has k' d = true \/ k' = k).
  { intros x d. rewrite JsMapFacts.has_set.
    destruct (String.eqb_spec k k') as [->|Hne]; [auto|].
    simpl. intros Hd. left. eapply JsMapFacts.has_delete_sub; eauto. }
  destruct (JsMap.has k c).
  - injection Hset as <- _. eauto.
  - destruct (Z.of_nat (JsMap.size c) >=? maxSize options)%Z.
    + destruct (JsMap.keys_next c) as [e|]; [|discriminate].
      injection Hset as <- _. eauto.
    + injection Hset as <- _. rewrite JsMapFacts.has_set in Hk'.
      destruct (String.eqb_spec k k') as [->|Hne]; auto.
Qed.

(** [set] keeps the keys of the cache distinct. *)
Lemma set_wf k v c w c' w' :
  JsMap.wf c -> set options k v c w = Normal (c', w') -> JsMap.wf c'.
Proof.
  unfold set. intros Hwf Hset.
  destruct (JsMap.has k c).
  - injection Hset as <- _. now apply JsMapFacts.wf_promote.
  - destruct (Z.of_nat (JsMap.size c) >=? maxSize options)%Z.
    + destruct (JsMap.keys_next c) as [e|]; [|discriminate].
      injection Hset as <- _. now apply JsMapFacts.wf_set, JsMapFacts.wf_delete.
    + injection Hset as <- _. now apply JsMapFacts.wf_set.
Qed.

End CacheFacts.

Section Invariant.
Context {V W : Type} {JV : JsValue V}.
Variable options : LRUCacheOptions V W.
Hypothesis capacity : (1 <= maxSize options)%Z.
Implicit Types (c : cache (V := V)) (w : W) (k : string) (v : V).

Lemma set_inv hist k v c w :
  cache_inv (maxSize options) hist c ->
  exists c' w',
    set options k v c w = Normal (c', w') /\
    cache_inv (maxSize options) (hist ++ [(k, v)]) c'.
Proof.
  intros (Hwf & Hro & Hsz).
  destruct (JsMap.has k c) eqn:Hk.
  - (* the key is in the cache *)
    rewrite (set_present options _ v _ w Hk). do 2 eexists. split; [reflexivity|].
    pose proof (JsMapFacts.wf_has_delete k _ Hwf) as Hd.
    destruct (JsMapFacts.live_delete_split _ _ Hk) as (l1 & v0 & l2 & E1 & Hn & E2 & _).
    repeat split.
    + apply JsMapFacts.wf_set_absent; auto using JsMapFacts.wf_delete.
    + rewrite JsMapFacts.set_absent, JsMapFacts.live_app, E2 by assumption.
      simpl. rewrite List.map_app. simpl.
      rewrite E1, List.map_app in Hro. simpl in Hro.
      apply recency_ordered_snoc.
      * rewrite List.map_app. eapply recency_ordered_drop; eauto.
      * apply JsMapFacts.has_false_In in Hd. now rewrite E2 in Hd.
    + rewrite JsMapFacts.size_set_absent by assumption.
      rewrite (JsMapFacts.size_delete _ _ Hk). assumption.
  - destruct (Z.ltb_spec (Z.of_nat (JsMap.size c)) (maxSize options)) as [Hlt|Hge].
    + (* room left *)
      rewrite (set_room options _ v _ w Hk Hlt). do 2 eexists. split; [reflexivity|].
      repeat split.
      * now apply JsMapFacts.wf_set_absent.
      * rewrite JsMapFacts.set_absent, JsMapFacts.live_app, List.map_app by assumption.
        simpl. apply recency_ordered_snoc; auto.
        now apply JsMapFacts.has_false_In.
      * rewrite JsMapFacts.size_set_absent by assumption. lia.
    + (* at capacity *)
      destruct (JsMap.live c) as [|[e ev] rest] eqn:El.
      { unfold JsMap.size in Hge. rewrite El in Hge. simpl in Hge. lia. }
      destruct (set_full options k v c w e ev rest Hk)
        as (Es & El'); [lia | exact El |].
      rewrite Es. do 2 eexists. split; [reflexivity|].
      assert (He : JsMap.has e c = true).
      { apply JsMapFacts.has_In. rewrite El. simpl. auto. }
      assert (Hk' : JsMap.has k (JsMap.delete e c) = false).
      { destruct (JsMap.has k (JsMap.delete e c)) eqn:E; auto.
        apply JsMapFacts.has_delete_sub in E. congruence. }
      unfold entries in El'.
      repeat split.
      * apply JsMapFacts.wf_set_absent; auto using JsMapFacts.wf_delete.
      * rewrite El', List.map_app. simpl. simpl in Hro.
        apply recency_ordered_snoc; [tauto|].
        apply JsMapFacts.has_false_In in Hk. rewrite El in Hk. simpl in Hk. tauto.
      * rewrite JsMapFacts.size_set_absent by assumption.
        rewrite (JsMapFacts.size_delete _ _ He). assumption.
Qed.

Lemma run_sets_inv (hist : list (string * V)) w0 :
  exists c w,
    run options (sets hist) (create, w0) = Normal (c, w) /\
    cache_inv (maxSize options) hist c.
Proof.
  induction hist as [|[k v] hist IH] using List.rev_ind.
  - exists create, w0. split; [reflexivity|].
    repeat split; simpl; try constructor. lia.
  - destruct IH as (c & w & Hrun & Hinv).
    destruct (set_inv hist k v c w Hinv) as (c' & w' & Hset & Hinv').
    exists c', w'. split; [|assumption].
    rewrite sets_snoc, run_app, Hrun. simpl. now rewrite Hset.
Qed.

Lemma inv_oldest_is_lru hist c e ev rest :
  cache_inv (maxSize options) hist c ->
  JsMap.live c = (e, ev) :: rest ->
  least_recently_accessed hist c e.
Proof.
  intros (_ & Hro & _) El. rewrite El in Hro. simpl in Hro.
  destruct Hro as (_ & Ho & _). split.
  - apply JsMapFacts.has_In. rewrite El. simpl. auto.
  - intros k Hk Hne. apply JsMapFacts.has_In in Hk. rewrite El in Hk.
    simpl in Hk. destruct Hk as [->|Hk]; [congruence|].
    rewrite Forall_forall in Ho. auto.
Qed.

End Invariant.

Section Recent.
Context {V : Type}.
Implicit Types (l p : list (string * V)) (k : string) (v : V).

Lemma touched_snoc (hist : list (string * V)) k v :
  touched (hist ++ [(k, v)]) = Entries.remove k (touched hist) ++ [(k, v)].
Proof. unfold touched. now rewrite List.fold_left_app. Qed.

Lemma remove_app_in k l1 l2 :
  In k (List.map fst l1) ->
  Entries.remove k (l1 ++ l2) = Entries.remove k l1 ++ l2.
Proof.
  induction l1 as [|[k' v'] l1 IH]; simpl; [tauto|].
  destruct (String.eqb_spec k' k) as [->|Hne]; [reflexivity|].
  intros [H|H]; [contradiction|]. now rewrite IH.
Qed.

Lemma remove_app_out k l1 l2 :
  ~ In k (List.map fst l1) ->
  Entries.remove k (l1 ++ l2) = l1 ++ Entries.remove k l2.
Proof.
  induction l1 as [|[k' v'] l1 IH]; simpl; [reflexivity|].
  destruct (String.eqb_spec k' k) as [->|Hne]; [tauto|].
  intros H. rewrite IH; tauto.
Qed.

Lemma remove_keys_sub k k' l :
  In k' (List.map fst (Entries.remove k l)) -> In k' (List.map fst l).
Proof.
  induction l as [|[k0 v0] l IH]; simpl; [tauto|].
  destruct (String.eqb k0 k); simpl; tauto.
Qed.

Lemma remove_NoDup k l :
  NoDup (List.map fst l) -> NoDup (List.map fst (Entries.remove k l)).
Proof.
  induction l as [|[k0 v0] l IH]; simpl; [auto|].
  intros H. inversion H as [|? ? Hn Hl]; subst.
  destruct (String.eqb k0 k); simpl; [assumption|].
  constructor; [|auto]. intros Hin. apply Hn. eapply remove_keys_sub; eauto.
Qed.

Lemma remove_gone k l :
  NoDup (List.map fst l) -> ~ In k (List.map fst (Entries.remove k l)).
Proof.
  induction l as [|[k0 v0] l IH]; simpl; [tauto|].
  intros H. inversion H as [|? ? Hn Hl]; subst.
  destruct (String.eqb_spec k0 k) as [->|Hne]; simpl; [assumption|].
  intros [E|Hin]; [contradiction | now apply IH].
Qed.

Lemma remove_length k l :
  In k (List.map fst l) -> S (List.length (Entries.remove k l)) = List.length l.
Proof.
  induction l as [|[k0 v0] l IH]; simpl; [tauto|].
  destruct (String.eqb_spec k0 k) as [->|Hne]; simpl; [reflexivity|].
  intros [E|Hin]; [contradiction | now rewrite IH].
Qed.

(** A history touches every key once. *)
Lemma touched_NoDup (hist : list (string * V)) : NoDup (List.map fst (touched hist)).
Proof.
  induction hist as [|[k v] hist IH] using List.rev_ind; [constructor|].
  rewrite touched_snoc, List.map_app. apply List.NoDup_app.
  - now apply remove_NoDup.
  - simpl. constructor; [tauto | constructor].
  - intros a Ha [<-|[]]. revert Ha. now apply remove_gone.
Qed.

(** The keys of a history are the keys it has touched. *)
Lemma touched_keys (hist : list (string * V)) k :
  In k (List.map fst (touched hist)) <-> In k (List.map fst hist).
Proof.
  induction hist as [|[k0 v0] hist IH] using List.rev_ind; [tauto|].
  rewrite touched_snoc, !List.map_app, !List.in_app_iff, <- IH. simpl.
  split.
  - intros [H|H]; [left; eapply remove_keys_sub; eauto | auto].
  - intros [H|H]; [|auto].
    destruct (String.eqb_spec k0 k) as [->|Hne]; [auto|]. left.
    clear IH. induction (touched hist) as [|[k1 v1] l IHl]; simpl in *; [tauto|].
    destruct (String.eqb_spec k1 k0) as [->|Hne1]; simpl.
    + destruct H as [E|H]; [congruence | assumption].
    + tauto.
Qed.

Lemma most_recent_app (n : nat) p l :
  (List.length l <= n)%nat -> p = [] \/ List.length l = n ->
  most_recent n (p ++ l) = l.
Proof.
  intros Hle Hp. unfold most_recent. rewrite List.length_app.
  destruct Hp as [->|Hn].
  - simpl. now replace (List.length l - n)%nat with 0%nat by lia.
  - replace (List.length p + List.length l - n)%nat with (List.length p) by lia.
    rewrite List.skipn_app, List.skipn_all, Nat.sub_diag. reflexivity.
Qed.

Lemma most_recent_length (n : nat) l :
  List.length (most_recent n l) = Nat.min n (List.length l).
Proof. unfold most_recent. rewrite List.length_skipn. lia. Qed.

End Recent.

Section Contents.
Context {V W : Type} {JV : JsValue V}.
Variable options : LRUCacheOptions V W.
Hypothesis capacity : (1 <= maxSize options)%Z.
Implicit Types (c : cache (V := V)) (w : W) (k : string) (v : V).

(** The entries after a [set] on a key in the cache, and on a new key
    where there is room. *)
Lemma entries_promote k v c :
  JsMap.wf c ->
  entries (JsMap.set k v (JsMap.delete k c)) = Entries.remove k (entries c) ++ [(k, v)].
Proof.
  intros Hwf. unfold entries.
  rewrite EntriesFacts.live_set, EntriesFacts.live_delete.
  apply EntriesFacts.update_absent. now apply remove_gone.
Qed.

Lemma entries_append k v c :
  JsMap.has k c = false -> entries (JsMap.set k v c) = entries c ++ [(k, v)].
Proof.
  intros Hk. unfold entries. rewrite EntriesFacts.live_set.
  apply EntriesFacts.update_absent. now apply JsMapFacts.has_false_In.
Qed.

(** What one [set] does to the cache as a window on the history: the
    cache holds the end of the list of the keys touched, all of it as
    long as it is not full. *)
Lemma set_contents (hist : list (string * V)) k v c w c' w' p :
  cache_inv (maxSize options) hist c ->
  touched hist = p ++ entries c ->
  p = [] \/ Z.of_nat (size c) = maxSize options ->
  set options k v c w = Normal (c', w') ->
  exists p',
    touched (hist ++ [(k, v)]) = p' ++ entries c' /\
    (p' = [] \/ Z.of_nat (size c') = maxSize options).
Proof.
  intros (Hwf & _ & Hsz) Ht Hp Hset.
  pose proof (touched_NoDup hist) as Hnd. rewrite Ht, List.map_app in Hnd.
  rewrite touched_snoc, Ht.
  destruct (JsMap.has k c) eqn:Hk.
  - rewrite (set_present options _ v _ w Hk) in Hset. injection Hset as <- _.
    pose proof (proj1 (JsMapFacts.has_In _ _) Hk) as Hin.
    assert (Hout : ~ In k (List.map fst p)).
    { intros H. apply NoDup_app_remove_r in Hnd as Hnd'.
      clear Hnd'. revert H Hin. clear - Hnd. unfold entries in Hnd.
      induction p as [|[k0 v0] p IH]; simpl in *; [tauto|].
      inversion Hnd as [|? ? Hn Hl]; subst.
      intros [->|H] Hin; [apply Hn, List.in_or_app; auto | now apply IH]. }
    exists p. rewrite remove_app_out by assumption.
    rewrite entries_promote, <- List.app_assoc by assumption. split; [reflexivity|].
    destruct Hp as [->|Hfull]; [auto|]. right.
    unfold size, JsMap.size in *. fold (entries c) in Hfull.
    fold (entries (JsMap.set k v (JsMap.delete k c))).
    rewrite entries_promote, List.length_app by assumption. simpl.
    pose proof (remove_length k (entries c) Hin). lia.
  - pose proof (proj1 (JsMapFacts.has_false_In _ _) Hk) as Hout.
    destruct (Z.ltb_spec (Z.of_nat (JsMap.size c)) (maxSize options)) as [Hlt|Hge].
    + rewrite (set_room options _ v _ w Hk Hlt) in Hset. injection Hset as <- _.
      destruct Hp as [->|Hfull]; [|unfold size in Hfull; lia].
      exists []. simpl. rewrite entries_append by assumption.
      rewrite EntriesFacts.remove_absent by assumption. auto.
    + destruct (entries c) as [|[e ev] rest] eqn:El.
      { unfold JsMap.size in Hge. unfold entries in El. rewrite El in Hge.
        simpl in Hge. lia. }
      destruct (set_full options k v c w e ev rest Hk) as (Es & El');
        [lia | exact El |].
      rewrite Es in Hset. injection Hset as <- _. rewrite El'.
      assert (Hsize : Z.of_nat (size (JsMap.set k v (JsMap.delete e c))) = maxSize options).
      { unfold size, JsMap.size in *. fold (entries (JsMap.set k v (JsMap.delete e c))).
        fold (entries c) in Hsz, Hge. rewrite El', List.length_app.
        rewrite El in Hsz, Hge. simpl in *. lia. }
      assert (Hout' : ~ In k (List.map fst ((e, ev) :: rest))).
      { unfold entries in El. now rewrite <- El. }
      destruct (List.in_dec String.string_dec k (List.map fst p)) as [Hin|Hnin].
      * exists (Entries.remove k p ++ [(e, ev)]).
        rewrite remove_app_in by assumption.
        rewrite <- !List.app_assoc. simpl. auto.
      * exists (p ++ [(e, ev)]).
        rewrite remove_app_out by assumption.
        rewrite EntriesFacts.remove_absent by assumption.
        rewrite <- !List.app_assoc. simpl. auto.
Qed.

(** Every run of [set] calls leaves in the cache the keys set last, as
    many as the capacity allows, each with the value of its last [set] and
    in the order of their last [set]. *)
Lemma run_sets_contents (hist : list (string * V)) w0 :
  exists c w,
    run options (sets hist) (create, w0) = Normal (c, w) /\
    cache_inv (maxSize options) hist c /\
    entries c = most_recent (Z.to_nat (maxSize options)) (touched hist).
Proof.
  assert (H : exists c w p,
             run options (sets hist) (create, w0) = Normal (c, w) /\
             cache_inv (maxSize options) hist c /\
             touched hist = p ++ entries c /\
             (p = [] \/ Z.of_nat (size c) = maxSize options)).
  { induction hist as [|[k v] hist IH] using List.rev_ind.
    - exists create, w0, []. split; [reflexivity|]. split; [|split; auto].
      repeat split; simpl; try constructor. lia.
    - destruct IH as (c & w & p & Hrun & Hinv & Ht & Hp).
      destruct (set_inv options capacity hist k v c w Hinv) as (c' & w' & Hset & Hinv').
      destruct (set_contents hist k v c w c' w' p Hinv Ht Hp Hset) as (p' & Ht' & Hp').
      exists c', w', p'. split; [|auto].
      rewrite sets_snoc, run_app, Hrun. simpl. now rewrite Hset. }
  destruct H as (c & w & p & Hrun & Hinv & Ht & Hp).
  exists c, w. split; [exact Hrun|]. split; [exact Hinv|].
  rewrite Ht. symmetry. destruct Hinv as (_ & _ & Hsz).
  unfold size, JsMap.size in *. fold (entries c) in Hsz, Hp.
  apply most_recent_app; [lia|]. destruct Hp as [->|Hfull]; [auto | right; lia].
Qed.

End Contents.

End LRUFacts.

(** * The claims about the cache *)

(** C1.  On a cache of capacity [N >= 1], every sequence of [set] calls
    runs to its end and leaves at most [N] entries; this holds of every
    prefix of a sequence, a sequence itself.  What it leaves are the keys
    set last, [N] of them or all there are, each with the value of its
    last [set] and in the order of their last [set]; so the cache holds
    [N] entries as soon as [N] different keys were set.  The next [set] of
    the sequence is the call [set k v] on the cache so reached.  When [k]
    is in the cache, its entry moves to the young end with the new value
    and nothing leaves.  When [k] is not in the cache and the cache holds
    fewer than [N] entries, the new entry is added at the young end and
    nothing leaves.  When [k] is not in the cache and the cache holds [N]
    entries, the call deletes one entry, the oldest of [entries], which is
    the key whose last access lies furthest back of all keys in the cache,
    and then inserts the new entry at the young end, leaving [N] entries
    again. *)
Theorem C1_capacity_and_lru_eviction :
  forall (V W : Type) (JV : LRU.JsValue V) (N : Z)
         (hook : option (string -> V -> W -> W)) (w0 : W)
         (hist : list (string * V)),
    (1 <= N)%Z ->
    exists c w,
      LRU.run {| LRU.maxSize := N; LRU.onEvict := hook |} (LRU.sets hist)
        (LRU.create, w0) = LRU.Normal (c, w) /\
      (Z.of_nat (LRU.size c) <= N)%Z /\
      LRU.entries c = LRU.most_recent (Z.to_nat N) (LRU.touched hist) /\
      LRU.size c = Nat.min (Z.to_nat N) (List.length (LRU.touched hist)) /\
      forall k v,
        LRU.run {| LRU.maxSize := N; LRU.onEvict := hook |}
          (LRU.sets (hist ++ [(k, v)])) (LRU.create, w0) =
          LRU.set {| LRU.maxSize := N; LRU.onEvict := hook |} k v c w /\
        (JsMap.has k c = true ->
         LRU.set {| LRU.maxSize := N; LRU.onEvict := hook |} k v c w =
           LRU.Normal (JsMap.set k v (JsMap.delete k c), w) /\
         LRU.entries (JsMap.set k v (JsMap.delete k c)) =
           Entries.remove k (LRU.entries c) ++ [(k, v)] /\
         LRU.size (JsMap.set k v (JsMap.delete k c)) = LRU.size c) /\
        (JsMap.has k c = false -> (Z.of_nat (LRU.size c) < N)%Z ->
         LRU.set {| LRU.maxSize := N; LRU.onEvict := hook |} k v c w =
           LRU.Normal (JsMap.set k v c, w) /\
         LRU.entries (JsMap.set k v c) = LRU.entries c ++ [(k, v)] /\
         LRU.size (JsMap.set k v c) = S (LRU.size c)) /\
        (JsMap.has k c = false -> Z.of_nat (LRU.size c) = N ->
         exists e ev rest w',
           LRU.entries c = (e, ev) :: rest /\
           LRU.least_recently_accessed hist c e /\
           LRU.set {| LRU.maxSize := N; LRU.onEvict := hook |} k v c w =
             LRU.Normal (JsMap.set k v (JsMap.delete e c), w') /\
           LRU.entries (JsMap.set k v (JsMap.delete e c)) = rest ++ [(k, v)] /\
           Z.of_nat (LRU.size (JsMap.set k v (JsMap.delete e c))) = N).
Proof.
  intros V W JV N hook w0 hist HN.
  set (options := {| LRU.maxSize := N; LRU.onEvict := hook |}).
  destruct (LRUFacts.run_sets_contents options HN hist w0)
    as (c & w & Hrun & Hinv & Hcontents).
  exists c, w. split; [exact Hrun|]. split; [apply Hinv|].
  split; [exact Hcontents|]. split.
  { unfold LRU.size, JsMap.size. fold (LRU.entries c).
    now rewrite Hcontents, LRUFacts.most_recent_length. }
  intros k v. split; [|split; [|split]].
  - rewrite LRUFacts.sets_snoc, LRUFacts.run_app, Hrun. simpl.
    now destruct (LRU.set options k v c w).
  - intros Hk. split; [now apply LRUFacts.set_present|].
    pose proof (LRUFacts.entries_promote k v c (proj1 Hinv)) as Ep.
    split; [exact Ep|].
    unfold LRU.size, JsMap.size.
    fold (LRU.entries (JsMap.set k v (JsMap.delete k c))). fold (LRU.entries c).
    rewrite Ep, List.length_app. simpl.
    pose proof (LRUFacts.remove_length k (LRU.entries c)
                  (proj1 (JsMapFacts.has_In _ _) Hk)). lia.
  - intros Hk Hroom. split; [now apply LRUFacts.set_room|].
    pose proof (LRUFacts.entries_append k v c Hk) as Ea.
    split; [exact Ea|].
    unfold LRU.size, JsMap.size.
    fold (LRU.entries (JsMap.set k v c)). fold (LRU.entries c).
    rewrite Ea, List.length_app. simpl. lia.
  - intros Hk Hfull.
    destruct (LRU.entries c) as [|[e ev] rest] eqn:El.
    + unfold LRU.size, JsMap.size in Hfull. unfold LRU.entries in El.
      rewrite El in Hfull. simpl in Hfull. lia.
    + destruct (LRUFacts.set_full options k v c w e ev rest Hk)
        as (Es & El'); [unfold LRU.size in Hfull; simpl; lia | exact El |].
      do 4 eexists. split; [reflexivity|].
      split; [|split; [exact Es | split; [exact El'|]]].
      * eapply LRUFacts.inv_oldest_is_lru; eauto.
      * unfold LRU.size, JsMap.size in *. unfold LRU.entries in El, El'.
        rewrite El', List.length_app. rewrite El in Hfull. simpl in *. lia.
Qed.

Lemma C1_capacity_and_lru_eviction_witness :
  exists c w w',
    LRU.run {| LRU.maxSize := 2; LRU.onEvict := Some LRU.spy |}
      (LRU.sets [("a", "1"); ("b", "2"); ("c", "3")]) (LRU.create, []) =
      LRU.Normal (c, w) /\
    LRU.entries c = [("b", "2"); ("c", "3")] /\
    LRU.size c = 2%nat /\
    LRU.least_recently_accessed [("a", "1"); ("b", "2"); ("c", "3")] c "b" /\
    LRU.run {| LRU.maxSize := 2; LRU.onEvict := Some LRU.spy |}
      (LRU.sets ([("a", "1"); ("b", "2"); ("c", "3")] ++ [("d", "4")]))
      (LRU.create, []) =
      LRU.Normal (JsMap.set "d" "4" (JsMap.delete "b" c), w') /\
    LRU.entries (JsMap.set "d" "4" (JsMap.delete "b" c)) = [("c", "3"); ("d", "4")].
Proof.
  destruct (@C1_capacity_and_lru_eviction string (list (string * string)) _ 2
              (Some LRU.spy) [] [("a", "1"); ("b", "2"); ("c", "3")])
    as (c & w & Hrun & _ & Hcontents & Hsize & Hnext); [lia|].
  change (LRU.most_recent (Z.to_nat 2) (LRU.touched [("a", "1"); ("b", "2"); ("c", "3")]))
    with [("b", "2"); ("c", "3")] in Hcontents.
  change (Nat.min (Z.to_nat 2)
            (List.length (LRU.touched [("a", "1"); ("b", "2"); ("c", "3")])))
    with 2%nat in Hsize.
  destruct (Hnext "d" "4") as (Hlast & _ & _ & Hfull).
  destruct Hfull as (e & ev & rest & w' & El & Hlru & Hset & El' & _).
  - rewrite EntriesFacts.has_live. unfold LRU.entries in Hcontents.
    rewrite Hcontents. reflexivity.
  - rewrite Hsize. reflexivity.
  - rewrite Hcontents in El. injection El as <- <- <-.
    exists c, w, w'. split; [exact Hrun|]. split; [exact Hcontents|].
    split; [exact Hsize|]. split; [exact Hlru|].
    split; [rewrite Hlast; exact Hset | exact El'].
Defined.

(** C2, as the claim states it, fails where the evicted value is
    [undefined]: a cache of capacity 1 that holds ["a"] with the value
    [undefined] evicts ["a"] on [set("b", "x")] and the hook is not
    called. *)
Lemma C2_hook_skipped_on_undefined :
  JsMap.has "b" [Some ("a", @None string)] = false /\
  LRU.run {| LRU.maxSize := 1; LRU.onEvict := Some LRU.spy |}
    [LRU.OpSet "a" (@None string)] (LRU.create, []) =
    LRU.Normal ([Some ("a", None)], []) /\
  LRU.set {| LRU.maxSize := 1; LRU.onEvict := Some LRU.spy |}
    "b" (Some "x") [Some ("a", @None string)] [] =
    LRU.Normal ([None; Some ("b", Some "x")], []).
Proof. repeat split. Qed.

(** C2, amended.  For a cache with an eviction hook: a [set] of a key not
    in the cache, at or over capacity, evicts the oldest entry; when the
    value of that entry is not [undefined] the call returns after the hook
    has been applied once, to the evicted key and the evicted value, in
    the world the call was made in, and when it is [undefined] the world is
    as before.  A [set] of a key in the cache and a [delete] of any key
    leave the world as it is. *)
Theorem C2_eviction_hook_calls :
  forall (V W : Type) (JV : LRU.JsValue V) (N : Z)
         (hook : string -> V -> W -> W) (c : LRU.cache) (w : W)
         (k : string) (v : V),
    (forall e ev rest,
        JsMap.has k c = false -> (N <= Z.of_nat (LRU.size c))%Z ->
        LRU.entries c = (e, ev) :: rest ->
        LRU.set {| LRU.maxSize := N; LRU.onEvict := Some hook |} k v c w =
          LRU.Normal (JsMap.set k v (JsMap.delete e c),
                      if LRU.is_undefined ev then w else hook e ev w) /\
        LRU.entries (JsMap.set k v (JsMap.delete e c)) = rest ++ [(k, v)]) /\
    (JsMap.has k c = true ->
       LRU.set {| LRU.maxSize := N; LRU.onEvict := Some hook |} k v c w =
         LRU.Normal (JsMap.set k v (JsMap.delete k c), w)) /\
    LRU.step {| LRU.maxSize := N; LRU.onEvict := Some hook |} (LRU.OpDelete k) (c, w) =
      LRU.Normal (JsMap.delete k c, w).
Proof.
  intros V W JV N hook c w k v. split; [|split].
  - intros e ev rest Hk Hfull El.
    destruct (LRUFacts.set_full {| LRU.maxSize := N; LRU.onEvict := Some hook |}
                k v c w e ev rest Hk) as (Es & El');
      [unfold LRU.size in Hfull; simpl; lia | exact El |].
    auto.
  - intros Hk. now apply LRUFacts.set_present.
  - reflexivity.
Qed.

(** The test "should call onEvict when evicting": one call, with ["a"]
    and its value. *)
Lemma C2_eviction_hook_calls_witness :
  LRU.set {| LRU.maxSize := 2; LRU.onEvict := Some LRU.spy |} "c" "3"
    [Some ("a", "1"); Some ("b", "2")] [] =
    LRU.Normal
      (JsMap.set "c" "3" (JsMap.delete "a" [Some ("a", "1"); Some ("b", "2")]),
       LRU.spy "a" "1" []) /\
  LRU.entries (JsMap.set "c" "3" (JsMap.delete "a" [Some ("a", "1"); Some ("b", "2")])) =
    [("b", "2")] ++ [("c", "3")].
Proof.
  exact (proj1 (@C2_eviction_hook_calls string (list (string * string)) _ 2
                  LRU.spy [Some ("a", "1"); Some ("b", "2")] [] "c" "3")
           "a" "1" [("b", "2")] eq_refl ltac:(simpl; lia) eq_refl).
Defined.

(** C3.  [has] returns the cache it was given; any number of [has(k)]
    calls put into a sequence of calls, in particular between two [set]
    calls, changes neither the entries and their order nor what the hook
    is called with. *)
Theorem C3_has_leaves_recency :
  forall (V W : Type) (JV : LRU.JsValue V) (options : LRU.LRUCacheOptions V W)
         (k : string) (n : nat),
    (forall c : LRU.cache (V := V), snd (LRU.has k c) = c) /\
    (forall (before after : list (LRU.Op V)) s,
        LRU.run options (before ++ List.repeat (LRU.OpHas k) n ++ after) s =
        LRU.run options (before ++ after) s) /\
    (forall k1 v1 k2 v2 s,
        LRU.run options
          (LRU.OpSet k1 v1 :: List.repeat (LRU.OpHas k) n ++ [LRU.OpSet k2 v2]) s =
        LRU.run options [LRU.OpSet k1 v1; LRU.OpSet k2 v2] s).
Proof.
  intros V W JV options k n.
  assert (Hmid : forall before after s,
             LRU.run options (before ++ List.repeat (LRU.OpHas k) n ++ after) s =
             LRU.run options (before ++ after) s).
  { intros before after s.
    rewrite (LRUFacts.run_app options before (_ ++ after)).
    rewrite (LRUFacts.run_app options before after).
    destruct (LRU.run options before s) as [s'|m]; [|reflexivity].
    now rewrite LRUFacts.run_app, LRUFacts.run_has. }
  split; [reflexivity|]. split; [exact Hmid|].
  intros k1 v1 k2 v2 s.
  exact (Hmid [LRU.OpSet k1 v1] [LRU.OpSet k2 v2] s).
Qed.

(** X1.  [get] of a key that is not in the cache returns [undefined] and
    leaves the cache as it is; [get] of a key that is in a well-formed
    cache with a value other than [undefined] returns the value and moves
    the entry to the young end, the other entries keeping their order. *)
Theorem X1_get_promotes :
  forall (V : Type) (JV : LRU.JsValue V) (c : LRU.cache) (k : string),
    (JsMap.has k c = false -> LRU.get k c = (None, c)) /\
    (forall v : V,
        JsMap.wf c -> JsMap.get k c = Some v -> LRU.is_undefined v = false ->
        exists before after,
          LRU.entries c = before ++ (k, v) :: after /\
          LRU.get k c = (Some v, JsMap.set k v (JsMap.delete k c)) /\
          LRU.entries (JsMap.set k v (JsMap.delete k c)) =
            before ++ after ++ [(k, v)]).
Proof.
  intros V JV c k. split.
  - intros Hk. unfold LRU.get. apply JsMapFacts.get_None in Hk. now rewrite Hk.
  - intros v Hwf Hg Hdef.
    pose proof (JsMapFacts.get_Some_has _ _ _ Hg) as Hh.
    destruct (JsMapFacts.live_delete_split _ _ Hh) as (l1 & v' & l2 & E1 & _ & E2 & Hg').
    assert (v' = v) by congruence. subst v'.
    exists l1, l2. split; [exact E1|]. split.
    + unfold LRU.get. now rewrite Hg, Hdef.
    + unfold LRU.entries.
      rewrite JsMapFacts.set_absent by now apply JsMapFacts.wf_has_delete.
      rewrite JsMapFacts.live_app, E2. simpl. now rewrite <- List.app_assoc.
Qed.

(** The test "should return entries in LRU order (oldest first)". *)
Lemma X1_get_promotes_witness :
  exists before after,
    LRU.entries [Some ("a", "1"); Some ("b", "2"); Some ("c", "3")] =
      before ++ ("a", "1") :: after /\
    LRU.get "a" [Some ("a", "1"); Some ("b", "2"); Some ("c", "3")] =
      (Some "1",
       JsMap.set "a" "1"
         (JsMap.delete "a" [Some ("a", "1"); Some ("b", "2"); Some ("c", "3")])) /\
    LRU.entries
      (JsMap.set "a" "1"
         (JsMap.delete "a" [Some ("a", "1"); Some ("b", "2"); Some ("c", "3")])) =
      before ++ after ++ [("a", "1")].
Proof.
  refine (proj2 (@X1_get_promotes string _
                   [Some ("a", "1"); Some ("b", "2"); Some ("c", "3")] "a")
            "1" _ eq_refl eq_refl).
  unfold JsMap.wf. simpl.
  repeat (constructor; [simpl; intuition discriminate|]). constructor.
Defined.

(** X2.  [delete] reports whether the key was in the cache; afterwards the
    key is not in a well-formed cache, the other entries are untouched,
    and a second [delete] reports [false] and changes nothing. *)
Theorem X2_delete_is_idempotent :
  forall (V : Type) (c : LRU.cache (V := V)) (k : string),
    JsMap.wf c ->
    fst (LRU.delete k c) = JsMap.has k c /\
    JsMap.has k (snd (LRU.delete k c)) = false /\
    (forall k', k' <> k ->
       JsMap.get k' (snd (LRU.delete k c)) = JsMap.get k' c) /\
    LRU.delete k (snd (LRU.delete k c)) = (false, snd (LRU.delete k c)).
Proof.
  intros V c k Hwf. unfold LRU.delete. cbn [fst snd].
  pose proof (JsMapFacts.wf_has_delete k c Hwf) as Hd.
  split; [reflexivity|]. split; [exact Hd|]. split.
  - intros k' Hne. now apply JsMapFacts.get_delete_other.
  - now rewrite Hd, JsMapFacts.delete_absent.
Qed.

Lemma X2_delete_is_idempotent_witness :
  fst (LRU.delete "key" [Some ("key", "value")]) = JsMap.has "key" [Some ("key", "value")] /\
  JsMap.has "key" (snd (LRU.delete "key" [Some ("key", "value")])) = false /\
  (forall k', k' <> "key" ->
     JsMap.get k' (snd (LRU.delete "key" [Some ("key", "value")])) =
     JsMap.get k' [Some ("key", "value")]) /\
  LRU.delete "key" (snd (LRU.delete "key" [Some ("key", "value")])) =
    (false, snd (LRU.delete "key" [Some ("key", "value")])).
Proof.
  apply (@X2_delete_is_idempotent string [Some ("key", "value")] "key").
  unfold JsMap.wf. simpl. constructor; [intros [] | constructor].
Defined.

(** * Facts about the path matcher *)

Module CorsFacts.
Import Cors.
Local Open Scope string_scope.

Lemma append_assoc (s1 s2 s3 : string) : (s1 ++ s2) ++ s3 = s1 ++ s2 ++ s3.
Proof. induction s1 as [|c s1 IH]; simpl; [reflexivity | now rewrite IH]. Qed.

Lemma length_append (s1 s2 : string) :
  String.length (s1 ++ s2) = (String.length s1 + String.length s2)%nat.
Proof. induction s1 as [|c s1 IH]; simpl; [reflexivity | now rewrite IH]. Qed.

Lemma startsWith_iff (s p : string) :
  startsWith s p = true <-> exists rest, s = p ++ rest.
Proof.
  unfold startsWith. revert s. induction p as [|a p IH]; intros s.
  - destruct s; simpl; split; eauto.
  - destruct s as [|b s]; simpl.
    + split; [discriminate | intros [rest H]; discriminate].
    + destruct (ascii_dec a b) as [->|Hne].
      * rewrite IH. split; intros [rest H]; exists rest; congruence.
      * split; [discriminate | intros [rest H]; congruence].
Qed.

Lemma substring_skip (s0 t : string) (n : nat) :
  String.substring (String.length s0) n (s0 ++ t) = String.substring 0 n t.
Proof. induction s0 as [|c s0 IH]; simpl; auto. Qed.

Lemma last_char (s : string) :
  s <> "" -> exists s0 c, s = s0 ++ String c "".
Proof.
  induction s as [|a s IH]; [congruence|]. intros _.
  destruct s as [|b s].
  - exists "", a. reflexivity.
  - destruct IH as (s0 & c & E); [discriminate|].
    exists (String a s0), c. simpl. now rewrite E.
Qed.

Lemma endsWith_slash (a : string) :
  endsWith a "/" = true <-> exists a0, a = a0 ++ "/".
Proof.
  unfold endsWith. split.
  - destruct (Nat.ltb_spec (String.length a) (String.length "/")) as [Hlt|Hge];
      [discriminate|].
    destruct (last_char a) as (s0 & c & ->).
    { intros ->. simpl in Hge. lia. }
    rewrite length_append. simpl String.length.
    replace (String.length s0 + 1 - 1)%nat with (String.length s0) by lia.
    rewrite substring_skip. simpl.
    destruct (Ascii.eqb_spec c "/") as [->|Hc]; [|discriminate].
    intros _. exists s0. reflexivity.
  - intros (a0 & ->). rewrite length_append. simpl String.length.
    destruct (Nat.ltb_spec (String.length a0 + 1) 1) as [Hlt|Hge]; [lia|].
    replace (String.length a0 + 1 - 1)%nat with (String.length a0) by lia.
    now rewrite substring_skip.
Qed.

End CorsFacts.

Section PathMatcher.
Local Open Scope string_scope.

(** C4.  [matchesAllowedPathBoundary] holds exactly when the request path
    is the allowed path, or is the allowed path followed by ["/"] and
    anything, or the allowed path ends in ["/"] and the request path
    starts with it; the six sample paths come out as stated. *)
Theorem C4_path_boundary_matcher :
  (forall requestPath allowedPath : string,
      Cors.matchesAllowedPathBoundary requestPath allowedPath = true <->
      requestPath = allowedPath \/
      (exists rest, requestPath = allowedPath ++ "/" ++ rest) \/
      ((exists stem, allowedPath = stem ++ "/") /\
       exists rest, requestPath = allowedPath ++ rest)) /\
  Cors.matchesAllowedPathBoundary "/mcp" "/mcp" = true /\
  Cors.matchesAllowedPathBoundary "/mcp/x" "/mcp" = true /\
  Cors.matchesAllowedPathBoundary "/mcp-admin" "/mcp" = false /\
  Cors.matchesAllowedPathBoundary "/a" "/a/" = false /\
  Cors.matchesAllowedPathBoundary "/a/" "/a/" = true /\
  Cors.matchesAllowedPathBoundary "/a/b" "/a/" = true /\
  (forall requestPath,
      Cors.isCorsAllowedPath requestPath =
      Cors.matchesAllowedPathBoundary requestPath "/mcp").
Proof.
  split; [|repeat split; try reflexivity].
  - intros r a. unfold Cors.matchesAllowedPathBoundary.
    destruct (String.eqb_spec r a) as [->|Hne].
    { split; auto. }
    destruct (Cors.endsWith a "/") eqn:He.
    + rewrite CorsFacts.startsWith_iff. apply CorsFacts.endsWith_slash in He.
      split.
      * intros Hp. right. right. auto.
      * intros [E|[[rest E]|[_ Hp]]]; [contradiction | | exact Hp].
        exists ("/" ++ rest). exact E.
    + rewrite CorsFacts.startsWith_iff. split.
      * intros [rest E]. right. left. exists rest.
        now rewrite <- CorsFacts.append_assoc.
      * intros [E|[[rest E]|[Hs _]]]; [contradiction | |].
        -- exists rest. now rewrite CorsFacts.append_assoc.
        -- apply CorsFacts.endsWith_slash in Hs. congruence.
  - intros r. unfold Cors.isCorsAllowedPath. simpl. now rewrite orb_false_r.
Qed.

(** X3.  A path is allowed cross-origin exactly when it is ["/mcp"] or
    starts with ["/mcp/"]; the paths of the test suite come out as the
    tests expect. *)
Theorem X3_cors_allowed_paths :
  (forall requestPath : string,
      Cors.isCorsAllowedPath requestPath = true <->
      requestPath = "/mcp" \/ exists rest, requestPath = "/mcp/" ++ rest) /\
  Cors.isCorsAllowedPath "/mcp" = true /\
  Cors.isCorsAllowedPath "/mcp/" = true /\
  Cors.isCorsAllowedPath "/mcp/something" = true /\
  Cors.isCorsAllowedPath "/mcp-admin" = false /\
  Cors.isCorsAllowedPath "/" = false /\
  Cors.isCorsAllowedPath "/api" = false /\
  Cors.isCorsAllowedPath "/health" = false.
Proof.
  split; [|repeat split].
  intros r. unfold Cors.isCorsAllowedPath, Cors.CORS_ALLOWED_PATHS. cbn [List.existsb].
  rewrite orb_false_r. unfold Cors.matchesAllowedPathBoundary.
  destruct (String.eqb_spec r "/mcp") as [->|Hne].
  - split; auto.
  - change (Cors.endsWith "/mcp" "/") with false. cbv iota.
    rewrite CorsFacts.startsWith_iff. change ("/mcp" ++ "/") with "/mcp/".
    split; [auto | intros [?|?]; [contradiction | assumption]].
Qed.

End PathMatcher.

(** * Facts about the server *)

Module ServerFacts.
Import Server.
Local Open Scope Z_scope.

Lemma with_sessions_same st : with_sessions (sessions st) st = st.
Proof. now destruct st. Qed.

Lemma truthy_Some h sid : truthy h = Some sid <-> h = Some sid /\ sid <> "".
Proof.
  unfold truthy. destruct h as [s|].
  - destruct (String.eqb_spec s ""); split.
    + discriminate.
    + intros [[= ->] ?]. contradiction.
    + intros [= ->]. auto.
    + now intros [[= ->] _].
  - split; [discriminate | now intros [? _]].
Qed.

Lemma truthy_None h : truthy h = None <-> h = None \/ h = Some "".
Proof.
  unfold truthy. destruct h as [s|].
  - destruct (String.eqb_spec s ""); split; try discriminate; auto.
    + subst. auto.
    + intros [?|[= ->]]; congruence.
  - split; auto.
Qed.

Section HandlerFacts.
Context {Payload : Type}.
Variable isInitializeRequest : Payload -> bool.
Variable closeBehaviour : Transport -> CloseOutcome.

Lemma sessions_get_absent sid st :
  JsMap.has sid (sessions st) = false ->
  sessions_get sid st = (Ok None, st).
Proof.
  intros Hh. unfold sessions_get, LRU.get.
  apply JsMapFacts.get_None in Hh. rewrite Hh. now rewrite with_sessions_same.
Qed.

Lemma sessions_get_present sid s st :
  JsMap.get sid (sessions st) = Some s ->
  sessions_get sid st =
    (Ok (Some s), with_sessions (JsMap.set sid s (JsMap.delete sid (sessions st))) st).
Proof.
  intros Hg. unfold sessions_get, LRU.get. now rewrite Hg.
Qed.

(** [touchSession] on a live session: one assignment to [lastActivity],
    the session at the young end of the map with the new time, the keys
    and the other sessions as before. *)
Lemma touchSession_present sid s now st :
  JsMap.get sid (sessions st) = Some s ->
  exists c',
    touchSession closeBehaviour sid now st =
      (Ok tt,
       {| sessions := c'; closeCalls := closeCalls st;
          activityWrites := activityWrites st ++ [(sid, now)];
          created := created st; res := res st |}) /\
    (forall P, maintained P -> P (sessions st) -> P c') /\
    JsMap.get sid c' = Some {| transport := transport s; lastActivity := now |} /\
    (forall k, JsMap.has k c' = JsMap.has k (sessions st)) /\
    (forall k, k <> sid -> JsMap.get k c' = JsMap.get k (sessions st)).
Proof.
  intros Hg. unfold touchSession, bind.
  rewrite (sessions_get_present _ _ _ Hg).
  pose proof (JsMapFacts.get_Some_has _ _ _ Hg) as Hh.
  set (s' := {| transport := transport s; lastActivity := now |}).
  set (c1 := JsMap.set sid s (JsMap.delete sid (sessions st))).
  unfold modify, sessions_set. cbn [sessions with_sessions with_activityWrites closeCalls].
  set (c2 := JsMap.set sid s' c1).
  assert (H2 : JsMap.has sid c2 = true).
  { unfold c2. now rewrite JsMapFacts.has_set, String.eqb_refl. }
  rewrite (LRUFacts.set_present _ _ s' _ (closeCalls st) H2).
  exists (JsMap.set sid s' (JsMap.delete sid c2)). split; [|split; [|split; [|split]]].
  - destruct st; reflexivity.
  - intros P HP HPst.
    apply (kept_promote HP); [|exact H2].
    apply (kept_update HP); [|unfold c1; now rewrite JsMapFacts.has_set, String.eqb_refl].
    now apply (kept_promote HP).
  - apply JsMapFacts.get_set_same.
  - intros k. rewrite (JsMapFacts.has_promote _ _ _ _ H2). unfold c2.
    rewrite JsMapFacts.has_set. unfold c1. rewrite (JsMapFacts.has_promote _ _ _ _ Hh).
    destruct (String.eqb_spec sid k) as [<-|]; [now rewrite Hh | reflexivity].
  - intros k Hk. rewrite JsMapFacts.get_promote_other by assumption.
    unfold c2. rewrite JsMapFacts.get_set_other by assumption.
    unfold c1. now apply JsMapFacts.get_promote_other.
Qed.

(** The end of a dispatch in closed form. *)
Lemma engine_finish_eq t eng st :
  engine_finish t eng st =
    (if throws eng then Err "handleRequest failed" else Ok tt,
     {| sessions :=
          if closes eng then
            match truthy (sessionId t) with
            | Some k => JsMap.delete k (sessions st)
            | None => sessions st
            end
          else sessions st;
        closeCalls := closeCalls st;
        activityWrites := activityWrites st;
        created := created st;
        res :=
          if commits eng then
            {| headersSent := true; headers := headers (res st);
               written := written (res st) |}
          else res st |}).
Proof.
  unfold engine_finish, transport_onclose, bind, ret, throw, modify,
    sessions_has, sessions_delete, LRU.has, LRU.delete.
  destruct st as [c calls ws n r]. cbn [sessions with_sessions res with_res closeCalls
    activityWrites created].
  destruct (closes eng), (truthy (sessionId t)) as [k|]; cbn;
    try destruct (JsMap.has k c) eqn:Hk; cbn;
    try rewrite (JsMapFacts.delete_absent _ _ Hk);
    destruct (commits eng), (throws eng); reflexivity.
Qed.

(** [try { dispatch } catch { 500 unless headersSent }] in closed form:
    it returns normally, and writes the error response exactly when the
    dispatch threw with the headers unsent. *)
Lemma guarded_dispatch_eq t eng message st :
  tryCatch (handleRequest t eng) (fun _ => internalError message) st =
    (Ok tt,
     {| sessions := sessions (snd (engine_finish t eng st));
        closeCalls := closeCalls st;
        activityWrites := activityWrites st;
        created := created st;
        res :=
          let r := res (snd (engine_finish t eng st)) in
          if throws eng && negb (headersSent r) then
            {| headersSent := true; headers := headers r;
               written := written r ++ [(500, JsonRpcError JSONRPC_ERROR_INTERNAL message)] |}
          else r |}).
Proof.
  unfold tryCatch, handleRequest. rewrite engine_finish_eq.
  cbn [snd sessions res].
  destruct (throws eng); cbn.
  - unfold internalError, bind, gets, ret, res_send, modify. cbn.
    destruct (commits eng); cbn; [reflexivity|].
    destruct (headersSent (res st)); reflexivity.
  - reflexivity.
Qed.

Lemma post_reuse (req : Request Payload) now eng st sid s :
  truthy (mcpSessionId req) = Some sid ->
  JsMap.get sid (sessions st) = Some s ->
  exists c',
    (forall P, maintained P -> P (sessions st) -> P c') /\
    JsMap.get sid c' = Some {| transport := transport s; lastActivity := now |} /\
    (forall k, JsMap.has k c' = JsMap.has k (sessions st)) /\
    (forall k, k <> sid -> JsMap.get k c' = JsMap.get k (sessions st)) /\
    mcpPostHandler isInitializeRequest closeBehaviour req now eng st =
      tryCatch (handleRequest (transport s) eng)
        (fun _ => internalError "Internal server error")
        {| sessions := c'; closeCalls := closeCalls st;
           activityWrites := activityWrites st ++ [(sid, now)];
           created := created st; res := res st |}.
Proof.
  intros Hs Hg.
  pose proof (JsMapFacts.get_Some_has _ _ _ Hg) as Hh.
  set (st1 := with_sessions (JsMap.set sid s (JsMap.delete sid (sessions st))) st).
  assert (Hg1 : JsMap.get sid (sessions st1) = Some s)
    by apply JsMapFacts.get_set_same.
  destruct (touchSession_present sid s now st1 Hg1) as (c' & Ht & Hc0 & Hc1 & Hc2 & Hc3).
  exists c'. split; [|split; [exact Hc1|split; [|split]]].
  - intros P HP HPst. apply (Hc0 P HP). cbn. now apply (kept_promote HP).
  - intros k. rewrite Hc2. apply JsMapFacts.has_promote, Hh.
  - intros k Hk. rewrite Hc3 by assumption. now apply JsMapFacts.get_promote_other.
  - unfold mcpPostHandler. rewrite Hs. unfold tryCatch at 1. unfold bind at 1.
    rewrite (sessions_get_present _ _ _ Hg). fold st1.
    unfold bind at 1. rewrite Ht. unfold tryCatch. destruct st; reflexivity.
Qed.

Lemma get_reuse (req : Request Payload) now eng st sid s :
  truthy (mcpSessionId req) = Some sid ->
  JsMap.get sid (sessions st) = Some s ->
  exists c',
    (forall P, maintained P -> P (sessions st) -> P c') /\
    JsMap.get sid c' = Some {| transport := transport s; lastActivity := now |} /\
    (forall k, JsMap.has k c' = JsMap.has k (sessions st)) /\
    (forall k, k <> sid -> JsMap.get k c' = JsMap.get k (sessions st)) /\
    mcpGetHandler closeBehaviour req now eng st =
      handleRequest (transport s) eng
        {| sessions := c'; closeCalls := closeCalls st;
           activityWrites := activityWrites st ++ [(sid, now)];
           created := created st; res := res st |}.
Proof.
  intros Hs Hg.
  pose proof (JsMapFacts.get_Some_has _ _ _ Hg) as Hh.
  set (st1 := with_sessions (JsMap.set sid s (JsMap.delete sid (sessions st))) st).
  assert (Hg1 : JsMap.get sid (sessions st1) = Some s)
    by apply JsMapFacts.get_set_same.
  destruct (touchSession_present sid s now st1 Hg1) as (c' & Ht & Hc0 & Hc1 & Hc2 & Hc3).
  exists c'. split; [|split; [exact Hc1|split; [|split]]].
  - intros P HP HPst. apply (Hc0 P HP). cbn. now apply (kept_promote HP).
  - intros k. rewrite Hc2. apply JsMapFacts.has_promote, Hh.
  - intros k Hk. rewrite Hc3 by assumption. now apply JsMapFacts.get_promote_other.
  - unfold mcpGetHandler. rewrite Hs. unfold bind at 1.
    rewrite (sessions_get_present _ _ _ Hg). fold st1.
    unfold bind at 1. rewrite Ht. destruct st; reflexivity.
Qed.

Lemma delete_reuse (req : Request Payload) eng st sid s :
  truthy (mcpSessionId req) = Some sid ->
  JsMap.get sid (sessions st) = Some s ->
  mcpDeleteHandler req eng st =
    tryCatch (handleRequest (transport s) eng)
      (fun _ => internalError "Error processing session termination")
      (with_sessions (JsMap.set sid s (JsMap.delete sid (sessions st))) st).
Proof.
  intros Hs Hg. unfold mcpDeleteHandler. rewrite Hs. unfold bind at 1.
  now rewrite (sessions_get_present _ _ _ Hg).
Qed.

(** A request whose key is not in the cache is answered 404 by each
    handler, and only the response changes. *)
Lemma post_unknown_key (req : Request Payload) now eng st sid :
  truthy (mcpSessionId req) = Some sid ->
  JsMap.has sid (sessions st) = false ->
  mcpPostHandler isInitializeRequest closeBehaviour req now eng st =
    res_send 404 (JsonRpcError JSONRPC_ERROR_INVALID_REQUEST "Session not found") st.
Proof.
  intros Hs Hh. unfold mcpPostHandler, tryCatch, bind. rewrite Hs.
  now rewrite (sessions_get_absent _ _ Hh).
Qed.

Lemma get_unknown_key (req : Request Payload) now eng st sid :
  truthy (mcpSessionId req) = Some sid ->
  JsMap.has sid (sessions st) = false ->
  mcpGetHandler closeBehaviour req now eng st =
    res_send 404 (JsonRpcError JSONRPC_ERROR_INVALID_REQUEST "Session not found") st.
Proof.
  intros Hs Hh. unfold mcpGetHandler, bind. rewrite Hs.
  now rewrite (sessions_get_absent _ _ Hh).
Qed.

Lemma delete_unknown_key (req : Request Payload) eng st sid :
  truthy (mcpSessionId req) = Some sid ->
  JsMap.has sid (sessions st) = false ->
  mcpDeleteHandler req eng st =
    res_send 404 (JsonRpcError JSONRPC_ERROR_INVALID_REQUEST "Session not found") st.
Proof.
  intros Hs Hh. unfold mcpDeleteHandler, bind. rewrite Hs.
  now rewrite (sessions_get_absent _ _ Hh).
Qed.

(** A request without a truthy key. *)
Lemma post_no_key (req : Request Payload) now eng st :
  truthy (mcpSessionId req) = None ->
  isInitializeRequest (body req) = false ->
  mcpPostHandler isInitializeRequest closeBehaviour req now eng st =
    res_send 400
      (JsonRpcError JSONRPC_ERROR_INVALID_REQUEST
         "Bad Request: No valid session ID provided") st.
Proof.
  intros Hs Hi. unfold mcpPostHandler, tryCatch, bind, ret. rewrite Hs, Hi.
  reflexivity.
Qed.

Lemma get_no_key (req : Request Payload) now eng st :
  truthy (mcpSessionId req) = None ->
  mcpGetHandler closeBehaviour req now eng st =
    res_send 400 (JsonRpcError JSONRPC_ERROR_INVALID_REQUEST "Missing session ID") st.
Proof.
  intros Hs. unfold mcpGetHandler, bind, ret. now rewrite Hs.
Qed.

Lemma delete_no_key (req : Request Payload) eng st :
  truthy (mcpSessionId req) = None ->
  mcpDeleteHandler req eng st =
    res_send 400 (JsonRpcError JSONRPC_ERROR_INVALID_REQUEST "Missing session ID") st.
Proof.
  intros Hs. unfold mcpDeleteHandler, bind, ret. now rewrite Hs.
Qed.

(** [cleanupSession] on a live session: the engine is told to close,
    whatever comes of that, and the session leaves the map. *)
Lemma cleanupSession_present sid s st :
  JsMap.get sid (sessions st) = Some s ->
  cleanupSession closeBehaviour sid st =
    (Ok tt,
     {| sessions :=
          JsMap.delete sid (JsMap.set sid s (JsMap.delete sid (sessions st)));
        closeCalls := closeCalls st ++ [transport s];
        activityWrites := activityWrites st;
        created := created st; res := res st |}).
Proof.
  intros Hg. unfold cleanupSession. unfold bind at 1.
  rewrite (sessions_get_present _ _ _ Hg).
  unfold bind, tryCatch, ret, transport_close, sessions_delete, LRU.delete.
  destruct st as [c calls ws n r]. cbn.
  destruct (closeBehaviour (transport s)); reflexivity.
Qed.

Lemma cleanupSession_absent sid st :
  JsMap.get sid (sessions st) = None ->
  cleanupSession closeBehaviour sid st = (Ok tt, st).
Proof.
  intros Hg. unfold cleanupSession. unfold bind at 1.
  apply JsMapFacts.get_None in Hg. now rewrite (sessions_get_absent _ _ Hg).
Qed.

(** The same where the record of the session is known: the record is
    emptied and one emptied record is added at the end. *)
Lemma cleanupSession_at sid s pre rest st :
  sessions st = pre ++ Some (sid, s) :: rest ->
  JsMap.has sid pre = false -> JsMap.has sid rest = false ->
  cleanupSession closeBehaviour sid st =
    (Ok tt,
     {| sessions := (pre ++ None :: rest) ++ [None];
        closeCalls := closeCalls st ++ [transport s];
        activityWrites := activityWrites st;
        created := created st; res := res st |}).
Proof.
  intros Hc Hpre Hrest.
  assert (Hg : JsMap.get sid (sessions st) = Some s).
  { rewrite Hc, JsMapFacts.get_app_absent by assumption.
    simpl. now rewrite String.eqb_refl. }
  rewrite (cleanupSession_present _ _ _ Hg). do 2 f_equal.
  rewrite Hc, JsMapFacts.delete_app_absent by assumption.
  simpl. rewrite String.eqb_refl.
  assert (Hh : JsMap.has sid (pre ++ None :: rest) = false).
  { rewrite JsMapFacts.has_app, Hpre. simpl. exact Hrest. }
  rewrite JsMapFacts.set_absent by assumption.
  rewrite JsMapFacts.delete_app_absent by assumption.
  simpl. now rewrite String.eqb_refl.
Qed.

(** The iterator past the last entry: emptied records are skipped. *)
Lemma sweepFrom_emptied now tomb : forall pre st fuel,
  sessions st = pre ++ tomb ->
  Forall (fun e => e = None) tomb ->
  (List.length tomb < fuel)%nat ->
  sweepFrom closeBehaviour fuel now (List.length pre) st = Some (Ok tt, st).
Proof.
  induction tomb as [|e tomb IH]; intros pre st fuel Hc Ht Hf;
    (destruct fuel as [|fuel]; [simpl in Hf; lia|]); simpl.
  - rewrite Hc, List.app_nil_r.
    now rewrite (proj2 (List.nth_error_None pre (List.length pre)) (Nat.le_refl _)).
  - inversion Ht as [|? ? He Ht']; subst.
    rewrite Hc, List.nth_error_app2, Nat.sub_diag by lia. simpl.
    replace (S (List.length pre)) with (List.length (pre ++ [None]))
      by (rewrite List.length_app; simpl; lia).
    apply IH; auto.
    + now rewrite <- List.app_assoc.
    + simpl in Hf. lia.
Qed.

(** The sweep from a position on: of the entries still to visit the idle
    ones are closed and removed, in order, the others stay. *)
Lemma sweepFrom_spec now rest : forall pre tomb st fuel,
  sessions st = pre ++ rest ++ tomb ->
  Forall (fun e => e = None) tomb ->
  NoDup (List.map fst (JsMap.live (pre ++ rest))) ->
  (List.length rest + List.length tomb + List.length (JsMap.live rest) < fuel)%nat ->
  exists c',
    sweepFrom closeBehaviour fuel now (List.length pre) st =
      Some (Ok tt,
            {| sessions := c';
               closeCalls :=
                 closeCalls st ++
                 List.map (fun e => transport (snd e))
                   (List.filter (fun e => idle now (snd e)) (JsMap.live rest));
               activityWrites := activityWrites st;
               created := created st; res := res st |}) /\
    JsMap.live c' =
      JsMap.live pre ++
      List.filter (fun e => negb (idle now (snd e))) (JsMap.live rest).
Proof.
  induction rest as [|[[k s]|] rest IH]; intros pre tomb st fuel Hc Ht Hwf Hf.
  - (* nothing left to visit *)
    exists (sessions st). simpl in *. split.
    + rewrite (sweepFrom_emptied now tomb pre st fuel Hc Ht) by lia.
      rewrite List.app_nil_r. now destruct st.
    + rewrite Hc, JsMapFacts.live_app, (JsMapFacts.live_emptied _ Ht).
      reflexivity.
  - (* an entry *)
    destruct fuel as [|fuel]; [simpl in Hf; lia|]. simpl in Hf.
    assert (Hnth : nth_error (sessions st) (List.length pre) = Some (Some (k, s))).
    { rewrite Hc, List.nth_error_app2, Nat.sub_diag by lia. reflexivity. }
    assert (Hlen : forall e : option (string * SessionInfo),
               S (List.length pre) = List.length (pre ++ [e]))
      by (intros e; rewrite List.length_app; simpl; lia).
    rewrite JsMapFacts.live_app in Hwf. simpl in Hwf. rewrite List.map_app in Hwf.
    simpl in Hwf.
    cbn [sweepFrom]. rewrite Hnth. cbn [JsMap.live List.filter snd].
    destruct (idle now s) eqn:Hidle; cbn [negb].
    + (* idle: closed and removed *)
      assert (Hpre : JsMap.has k pre = false).
      { apply JsMapFacts.has_false_In. intros Hin.
        apply NoDup_remove_2 in Hwf. apply Hwf, List.in_or_app. auto. }
      assert (Hrest : JsMap.has k (rest ++ tomb) = false).
      { rewrite JsMapFacts.has_app, (JsMapFacts.has_emptied k _ Ht), orb_false_r.
        apply JsMapFacts.has_false_In. intros Hin.
        apply NoDup_remove_2 in Hwf. apply Hwf, List.in_or_app. auto. }
      rewrite (cleanupSession_at k s pre (rest ++ tomb) st Hc Hpre Hrest).
      rewrite (Hlen None).
      edestruct (IH (pre ++ [None]) (tomb ++ [None])) as (c' & Hs & Hl);
        [ | | | | exists c'; split; [rewrite Hs|rewrite Hl] ].
      * cbn [sessions]. repeat first [rewrite <- List.app_assoc | progress simpl]. reflexivity.
      * apply Forall_app. split; [assumption | repeat constructor].
      * rewrite !JsMapFacts.live_app, List.map_app. simpl. rewrite List.app_nil_r.
        now apply NoDup_remove_1 in Hwf.
      * rewrite List.length_app. simpl. lia.
      * cbn [closeCalls activityWrites created res List.map snd].
        now rewrite <- List.app_assoc.
      * rewrite JsMapFacts.live_app. simpl. now rewrite List.app_nil_r.
    + (* not idle: kept *)
      rewrite (Hlen (Some (k, s))).
      edestruct (IH (pre ++ [Some (k, s)]) tomb st fuel) as (c' & Hs & Hl);
        [ | | | | exists c'; split; [exact Hs|rewrite Hl] ].
      * rewrite Hc, <- !List.app_assoc. reflexivity.
      * assumption.
      * rewrite !JsMapFacts.live_app, List.map_app. simpl.
        rewrite List.map_app, <- List.app_assoc. exact Hwf.
      * lia.
      * rewrite JsMapFacts.live_app. simpl. now rewrite <- List.app_assoc.
  - (* an emptied record *)
    destruct fuel as [|fuel]; [simpl in Hf; lia|]. simpl in Hf.
    assert (Hnth : nth_error (sessions st) (List.length pre) = Some None).
    { rewrite Hc, List.nth_error_app2, Nat.sub_diag by lia. reflexivity. }
    cbn [sweepFrom]. rewrite Hnth. cbn [JsMap.live].
    replace (S (List.length pre)) with (List.length (pre ++ [None]))
      by (rewrite List.length_app; simpl; lia).
    edestruct (IH (pre ++ [None]) tomb st fuel) as (c' & Hs & Hl);
      [ | | | | exists c'; split; [exact Hs|rewrite Hl] ].
    + rewrite Hc, <- !List.app_assoc. reflexivity.
    + assumption.
    + rewrite !JsMapFacts.live_app in *. simpl in *. now rewrite ?List.app_nil_r.
    + lia.
    + rewrite JsMapFacts.live_app. simpl. now rewrite List.app_nil_r.
Qed.

(** The sweep ends, returns normally whatever closing does, closes the
    idle sessions in map order and keeps exactly the others. *)
Lemma sweep_spec now st :
  JsMap.wf (sessions st) ->
  exists c',
    sweep closeBehaviour now st =
      Some (Ok tt,
            {| sessions := c';
               closeCalls :=
                 closeCalls st ++
                 List.map (fun e => transport (snd e))
                   (List.filter (fun e => idle now (snd e)) (JsMap.live (sessions st)));
               activityWrites := activityWrites st;
               created := created st; res := res st |}) /\
    JsMap.live c' =
      List.filter (fun e => negb (idle now (snd e))) (JsMap.live (sessions st)).
Proof.
  intros Hwf. unfold sweep.
  apply (sweepFrom_spec now (sessions st) [] [] st).
  - simpl. now rewrite List.app_nil_r.
  - constructor.
  - exact Hwf.
  - pose proof (JsMapFacts.live_length (sessions st)). simpl. lia.
Qed.

(** No handler but a POST that initiates puts a key into the cache. *)
Lemma cleanupSession_keys sid st k :
  JsMap.has k (sessions (snd (cleanupSession closeBehaviour sid st))) = true ->
  JsMap.has k (sessions st) = true.
Proof.
  destruct (JsMap.get sid (sessions st)) as [s|] eqn:Hg.
  - rewrite (cleanupSession_present _ _ _ Hg). cbn. intros Hk.
    apply JsMapFacts.has_delete_sub in Hk.
    rewrite JsMapFacts.has_promote in Hk; [assumption|].
    eapply JsMapFacts.get_Some_has; eauto.
  - now rewrite (cleanupSession_absent _ _ Hg).
Qed.

Lemma sweepFrom_keys now k : forall fuel index st r st',
  sweepFrom closeBehaviour fuel now index st = Some (r, st') ->
  JsMap.has k (sessions st') = true -> JsMap.has k (sessions st) = true.
Proof.
  induction fuel as [|fuel IH]; intros index st r st'; simpl; [discriminate|].
  destruct (nth_error (sessions st) index) as [[[sid s]|]|].
  - destruct (idle now s).
    + pose proof (cleanupSession_keys sid st k) as Hc.
      destruct (cleanupSession closeBehaviour sid st) as [[[]|e] st1]; simpl in Hc.
      * intros Hs Hk. eauto.
      * intros [= _ <-]. exact Hc.
    + apply IH.
  - apply IH.
  - now intros [= _ <-].
Qed.

Lemma onclose_keys t st k :
  JsMap.has k (sessions (snd (transport_onclose t st))) = true ->
  JsMap.has k (sessions st) = true.
Proof.
  unfold transport_onclose, bind, ret, sessions_has, sessions_delete,
    LRU.has, LRU.delete.
  destruct (truthy (sessionId t)) as [sid|]; cbn; [|auto].
  destruct (JsMap.has sid (sessions st)); cbn; [|auto].
  apply JsMapFacts.has_delete_sub.
Qed.

Lemma engine_finish_keys t eng st k :
  JsMap.has k (sessions (snd (engine_finish t eng st))) = true ->
  JsMap.has k (sessions st) = true.
Proof.
  rewrite engine_finish_eq. cbn.
  destruct (closes eng); [|auto].
  destruct (truthy (sessionId t)); [|auto].
  apply JsMapFacts.has_delete_sub.
Qed.

Lemma guarded_dispatch_keys t eng message st k :
  JsMap.has k
    (sessions (snd (tryCatch (handleRequest t eng)
                      (fun _ => internalError message) st))) = true ->
  JsMap.has k (sessions st) = true.
Proof.
  rewrite guarded_dispatch_eq. cbn [snd sessions]. apply engine_finish_keys.
Qed.

Lemma get_keys (req : Request Payload) now eng st k :
  JsMap.has k (sessions (snd (mcpGetHandler closeBehaviour req now eng st))) = true ->
  JsMap.has k (sessions st) = true.
Proof.
  destruct (truthy (mcpSessionId req)) as [sid|] eqn:Ht.
  - destruct (JsMap.get sid (sessions st)) as [s|] eqn:Hg.
    + destruct (get_reuse req now eng st sid s Ht Hg) as (c' & _ & _ & Hc & _ & ->).
      intros Hk. apply engine_finish_keys in Hk. cbn in Hk. now rewrite Hc in Hk.
    + apply JsMapFacts.get_None in Hg.
      now rewrite (get_unknown_key req now eng st sid Ht Hg).
  - now rewrite (get_no_key req now eng st Ht).
Qed.

Lemma delete_keys (req : Request Payload) eng st k :
  JsMap.has k (sessions (snd (mcpDeleteHandler req eng st))) = true ->
  JsMap.has k (sessions st) = true.
Proof.
  destruct (truthy (mcpSessionId req)) as [sid|] eqn:Ht.
  - destruct (JsMap.get sid (sessions st)) as [s|] eqn:Hg.
    + rewrite (delete_reuse req eng st sid s Ht Hg).
      intros Hk. apply guarded_dispatch_keys in Hk. cbn in Hk.
      rewrite JsMapFacts.has_promote in Hk; [assumption|].
      eapply JsMapFacts.get_Some_has; eauto.
    + apply JsMapFacts.get_None in Hg.
      now rewrite (delete_unknown_key req eng st sid Ht Hg).
  - now rewrite (delete_no_key req eng st Ht).
Qed.

Lemma internalError_sessions message st :
  sessions (snd (internalError message st)) = sessions st.
Proof.
  unfold internalError, bind, gets, ret, res_send, modify.
  destruct (headersSent (res st)); reflexivity.
Qed.

Lemma post_keys (req : Request Payload) now eng st k :
  JsMap.has k
    (sessions (snd (mcpPostHandler isInitializeRequest closeBehaviour req now eng st))) = true ->
  JsMap.has k (sessions st) = true \/ initialized eng = Some k.
Proof.
  destruct (truthy (mcpSessionId req)) as [sid|] eqn:Ht.
  - destruct (JsMap.get sid (sessions st)) as [s|] eqn:Hg.
    + destruct (post_reuse req now eng st sid s Ht Hg) as (c' & _ & _ & Hc & _ & ->).
      intros Hk. apply guarded_dispatch_keys in Hk. cbn in Hk.
      rewrite Hc in Hk. auto.
    + apply JsMapFacts.get_None in Hg.
      rewrite (post_unknown_key req now eng st sid Ht Hg). auto.
  - destruct (isInitializeRequest (body req)) eqn:Hi.
    + (* a new transport *)
      unfold mcpPostHandler. rewrite Ht. unfold tryCatch, bind at 1, ret.
      cbn [isSome negb andb]. rewrite Hi.
      unfold bind at 1, newTransport. unfold bind at 1, connect.
      destruct (connectFails eng).
      { unfold throw. rewrite internalError_sessions. auto. }
      unfold ret, handleInitialize.
      destruct (initialized eng) as [sid|].
      * unfold bind, sessions_set. cbn [sessions closeCalls with_created].
        destruct (LRU.set (sessionOptions closeBehaviour) sid _ (sessions st) (closeCalls st))
          as [[c1 calls]|m] eqn:Hset.
        -- match goal with
           | |- context [engine_finish ?t ?e ?s] =>
               pose proof (engine_finish_keys t e s k) as Hf;
               destruct (engine_finish t e s) as [[[]|e'] st2]
           end; cbn [snd] in Hf |- *; rewrite ?internalError_sessions;
             intros Hk; apply Hf in Hk; cbn in Hk;
             destruct (LRUFacts.set_keys _ _ _ _ _ _ _ _ Hset Hk) as [?| ->]; auto.
        -- rewrite internalError_sessions. auto.
      * match goal with
        | |- context [engine_finish ?t ?e ?s] =>
            pose proof (engine_finish_keys t e s k) as Hf;
            destruct (engine_finish t e s) as [[[]|e'] st2]
        end; cbn [snd] in Hf |- *; rewrite ?internalError_sessions;
          intros Hk; apply Hf in Hk; cbn in Hk; auto.
    + rewrite (post_no_key req now eng st Ht Hi). auto.
Qed.

Lemma after_keys (ev : Event (Payload := Payload)) st k :
  JsMap.has k (sessions (after isInitializeRequest closeBehaviour ev st)) = true ->
  JsMap.has k (sessions st) = true \/ announces ev = Some k.
Proof.
  destruct ev as [req now eng|req now eng|req eng|now|t]; cbn [after announces].
  - intros Hk. apply post_keys in Hk. exact Hk.
  - intros Hk. apply get_keys in Hk. auto.
  - intros Hk. apply delete_keys in Hk. auto.
  - destruct (sweep closeBehaviour now st) as [[r st']|] eqn:Hs; [|auto].
    intros Hk. left. eapply sweepFrom_keys; eauto.
  - intros Hk. left. eapply onclose_keys; eauto.
Qed.

(** A key that is not in the cache stays out of it as long as no engine
    announces it. *)
Lemma afterAll_absent k (evs : list (Event (Payload := Payload))) : forall st,
  Forall (fun ev => announces ev <> Some k) evs ->
  JsMap.has k (sessions st) = false ->
  JsMap.has k (sessions (afterAll isInitializeRequest closeBehaviour evs st)) = false.
Proof.
  induction evs as [|ev evs IH]; intros st Hevs Hk; [exact Hk|].
  inversion Hevs as [|? ? Hev Hevs']; subst. cbn [afterAll List.fold_left].
  apply IH; [assumption|].
  destruct (JsMap.has k (sessions (after isInitializeRequest closeBehaviour ev st))) eqn:E;
    [|reflexivity].
  apply after_keys in E. destruct E; congruence.
Qed.

(** [sessions.set] keeps what the steps on the cache keep. *)
Lemma sessions_set_kept P sid session c calls c' calls' :
  maintained P -> P c ->
  LRU.set (sessionOptions closeBehaviour) sid session c calls = LRU.Normal (c', calls') ->
  P c'.
Proof.
  intros HP HPc. unfold LRU.set.
  destruct (JsMap.has sid c) eqn:Hh.
  - intros [= <- _]. now apply (kept_promote HP).
  - destruct (Z.geb_spec (Z.of_nat (JsMap.size c)) (LRU.maxSize (sessionOptions closeBehaviour)))
      as [Hge|Hlt].
    + destruct (JsMap.keys_next c) as [e|] eqn:He; [|discriminate].
      intros [= <- _]. now apply (kept_evict HP).
    + intros [= <- _]. now apply (kept_insert HP).
Qed.

Section Maintained.
Variable P : JsMap.t SessionInfo -> Prop.
Hypothesis HP : maintained P.

Lemma engine_finish_kept t eng st :
  P (sessions st) -> P (sessions (snd (engine_finish t eng st))).
Proof.
  intros HPst. rewrite engine_finish_eq. cbn.
  destruct (closes eng); [|assumption].
  destruct (truthy (sessionId t)); [|assumption].
  now apply (kept_delete HP).
Qed.

Lemma guarded_dispatch_kept t eng message st :
  P (sessions st) ->
  P (sessions (snd (tryCatch (handleRequest t eng)
                      (fun _ => internalError message) st))).
Proof.
  intros HPst. rewrite guarded_dispatch_eq. cbn [snd sessions].
  now apply engine_finish_kept.
Qed.

Lemma onclose_kept t st :
  P (sessions st) -> P (sessions (snd (transport_onclose t st))).
Proof.
  intros HPst.
  unfold transport_onclose, bind, ret, sessions_has, sessions_delete,
    LRU.has, LRU.delete.
  destruct (truthy (sessionId t)) as [sid|]; cbn; [|assumption].
  destruct (JsMap.has sid (sessions st)); cbn; [|assumption].
  now apply (kept_delete HP).
Qed.

Lemma get_kept (req : Request Payload) now eng st :
  P (sessions st) ->
  P (sessions (snd (mcpGetHandler closeBehaviour req now eng st))).
Proof.
  intros HPst. destruct (truthy (mcpSessionId req)) as [sid|] eqn:Ht.
  - destruct (JsMap.get sid (sessions st)) as [s|] eqn:Hg.
    + destruct (get_reuse req now eng st sid s Ht Hg) as (c' & Hc & _ & _ & _ & ->).
      apply engine_finish_kept. cbn. exact (Hc P HP HPst).
    + apply JsMapFacts.get_None in Hg.
      now rewrite (get_unknown_key req now eng st sid Ht Hg).
  - now rewrite (get_no_key req now eng st Ht).
Qed.

Lemma delete_kept (req : Request Payload) eng st :
  P (sessions st) ->
  P (sessions (snd (mcpDeleteHandler req eng st))).
Proof.
  intros HPst. destruct (truthy (mcpSessionId req)) as [sid|] eqn:Ht.
  - destruct (JsMap.get sid (sessions st)) as [s|] eqn:Hg.
    + rewrite (delete_reuse req eng st sid s Ht Hg).
      apply guarded_dispatch_kept. cbn. apply (kept_promote HP); [assumption|].
      eapply JsMapFacts.get_Some_has; eauto.
    + apply JsMapFacts.get_None in Hg.
      now rewrite (delete_unknown_key req eng st sid Ht Hg).
  - now rewrite (delete_no_key req eng st Ht).
Qed.

Lemma post_kept (req : Request Payload) now eng st :
  P (sessions st) ->
  P (sessions (snd (mcpPostHandler isInitializeRequest closeBehaviour req now eng st))).
Proof.
  intros HPst. destruct (truthy (mcpSessionId req)) as [sid|] eqn:Ht.
  - destruct (JsMap.get sid (sessions st)) as [s|] eqn:Hg.
    + destruct (post_reuse req now eng st sid s Ht Hg) as (c' & Hc & _ & _ & _ & ->).
      apply guarded_dispatch_kept. cbn. exact (Hc P HP HPst).
    + apply JsMapFacts.get_None in Hg.
      now rewrite (post_unknown_key req now eng st sid Ht Hg).
  - destruct (isInitializeRequest (body req)) eqn:Hi.
    + unfold mcpPostHandler. rewrite Ht. unfold tryCatch, bind at 1, ret.
      cbn [isSome negb andb]. rewrite Hi.
      unfold bind at 1, newTransport. unfold bind at 1, connect.
      destruct (connectFails eng).
      { unfold throw. now rewrite internalError_sessions. }
      unfold ret, handleInitialize.
      destruct (initialized eng) as [sid|].
      * unfold bind, sessions_set. cbn [sessions closeCalls with_created].
        destruct (LRU.set (sessionOptions closeBehaviour) sid _ (sessions st) (closeCalls st))
          as [[c1 calls]|m] eqn:Hset.
        -- pose proof (sessions_set_kept P _ _ _ _ _ _ HP HPst Hset) as HP1.
           match goal with
           | |- context [engine_finish ?t ?e ?s] =>
               pose proof (engine_finish_kept t e s HP1) as Hf;
               destruct (engine_finish t e s) as [[[]|e'] st2]
           end; cbn [snd] in Hf |- *; rewrite ?internalError_sessions; exact Hf.
        -- now rewrite internalError_sessions.
      * match goal with
        | |- context [engine_finish ?t ?e ?s] =>
            pose proof (engine_finish_kept t e s HPst) as Hf;
            destruct (engine_finish t e s) as [[[]|e'] st2]
        end; cbn [snd] in Hf |- *; rewrite ?internalError_sessions; exact Hf.
    + now rewrite (post_no_key req now eng st Ht Hi).
Qed.

Lemma after_kept (ev : Event (Payload := Payload)) st :
  P (sessions st) ->
  P (sessions (after isInitializeRequest closeBehaviour ev st)).
Proof.
  intros HPst.
  destruct ev as [req now eng|req now eng|req eng|now|t]; cbn [after].
  - now apply post_kept.
  - now apply get_kept.
  - now apply delete_kept.
  - destruct (sweep_spec now st (kept_wf HP _ HPst)) as (c' & -> & Hl).
    cbn [sessions]. eapply (kept_filter HP); eauto.
  - now apply onclose_kept.
Qed.

(** What the empty cache has and the steps keep, every state reached from
    the start has. *)
Lemma reachable_kept (evs : list (Event (Payload := Payload))) :
  P JsMap.empty ->
  P (sessions (afterAll isInitializeRequest closeBehaviour evs initialState)).
Proof.
  intros HP0. unfold afterAll.
  assert (H : forall st, P (sessions st) ->
                P (sessions (List.fold_left
                  (fun s ev => after isInitializeRequest closeBehaviour ev s) evs st))).
  { induction evs as [|ev evs IH]; intros st HPst; simpl; [assumption|].
    apply IH. now apply after_kept. }
  now apply H.
Qed.

End Maintained.

(** Distinct keys are kept, and so are distinct keys within capacity. *)
Lemma maintained_wf : maintained (fun c => JsMap.wf c).
Proof.
  constructor.
  - auto.
  - intros c k v Hwf _. now apply JsMapFacts.wf_promote.
  - intros c k v Hwf _. now apply JsMapFacts.wf_set.
  - intros c k Hwf. now apply JsMapFacts.wf_delete.
  - intros c k v Hwf _ _. now apply JsMapFacts.wf_set.
  - intros c k v e Hwf _ _. now apply JsMapFacts.wf_set, JsMapFacts.wf_delete.
  - intros c c' f Hwf Hl. eapply JsMapFacts.wf_filter; eauto.
Qed.

Lemma maintained_bounded :
  maintained (fun c => JsMap.wf c /\ Z.of_nat (JsMap.size c) <= MAX_SESSIONS).
Proof.
  constructor.
  - tauto.
  - intros c k v [Hwf Hsz] Hk. split; [now apply JsMapFacts.wf_promote|].
    rewrite JsMapFacts.size_set_absent by now apply JsMapFacts.wf_has_delete.
    now rewrite (JsMapFacts.size_delete _ _ Hk).
  - intros c k v [Hwf Hsz] Hk. split; [now apply JsMapFacts.wf_set|].
    unfold JsMap.size in *.
    rewrite <- (List.length_map fst), (JsMapFacts.keys_set_present _ _ _ Hk),
      List.length_map. exact Hsz.
  - intros c k [Hwf Hsz]. split; [now apply JsMapFacts.wf_delete|].
    destruct (JsMap.has k c) eqn:Hk.
    + pose proof (JsMapFacts.size_delete _ _ Hk). lia.
    + now rewrite JsMapFacts.delete_absent.
  - intros c k v [Hwf Hsz] Hk Hlt. split; [now apply JsMapFacts.wf_set|].
    rewrite JsMapFacts.size_set_absent by assumption. lia.
  - intros c k v e [Hwf Hsz] Hk He. split.
    + now apply JsMapFacts.wf_set, JsMapFacts.wf_delete.
    + destruct (JsMapFacts.keys_next_live _ _ He) as (ev & l & El & _ & Hg).
      pose proof (JsMapFacts.get_Some_has _ _ _ Hg) as Hhe.
      assert (Hk' : JsMap.has k (JsMap.delete e c) = false).
      { destruct (JsMap.has k (JsMap.delete e c)) eqn:E; auto.
        apply JsMapFacts.has_delete_sub in E. congruence. }
      rewrite JsMapFacts.size_set_absent by assumption.
      now rewrite (JsMapFacts.size_delete _ _ Hhe).
  - intros c c' f [Hwf Hsz] Hl. split; [eapply JsMapFacts.wf_filter; eauto|].
    unfold JsMap.size in *. rewrite Hl.
    pose proof (List.filter_length_le f (JsMap.live c)). lia.
Qed.

Lemma reachable_wf (evs : list (Event (Payload := Payload))) :
  JsMap.wf (sessions (afterAll isInitializeRequest closeBehaviour evs initialState)).
Proof.
  apply (reachable_kept _ maintained_wf). constructor.
Qed.

End HandlerFacts.

End ServerFacts.

(** * The claims about the server *)

Section ServerClaims.
Import Server.
Local Open Scope Z_scope.

(** C5, as the claim states it, fails for the empty session key: the
    handlers test the header for truthiness, so a request bearing the key
    [""], which is in no cache, is answered 400 and not 404 when its
    payload does not initiate, and creates a session when it does. *)
Lemma C5_empty_key_is_no_key :
  mcpSessionId (Samples.request "POST" (Some "") "tools/list") = Some "" /\
  JsMap.has "" (sessions initialState) = false /\
  written (res (snd (mcpPostHandler Samples.isInitialize Samples.closesFine
                       (Samples.request "POST" (Some "") "tools/list") 0
                       Samples.answers initialState))) =
    [(400, JsonRpcError JSONRPC_ERROR_INVALID_REQUEST
             "Bad Request: No valid session ID provided")] /\
  LRU.entries (sessions (snd (mcpPostHandler Samples.isInitialize Samples.closesFine
                                (Samples.request "POST" (Some "") "initialize") 0
                                (Samples.establishes "s1") initialState))) =
    [("s1", Samples.session1)].
Proof. repeat split. Qed.

(** C5, amended.  A POST bearing a non-empty key that is not in the cache
    does nothing but send the 404 "Session not found", whatever its
    payload; a POST bearing no key, or the empty key, whose payload does
    not initiate does nothing but send the 400.  In both cases the cache,
    the sessions created and the engines closed are as before. *)
Theorem C5_post_rejections :
  forall (Payload : Type) (isInitializeRequest : Payload -> bool)
         (closeBehaviour : Transport -> CloseOutcome)
         (req : Request Payload) (now : Z) (eng : Engine) (st : State),
    (forall sid,
        mcpSessionId req = Some sid -> sid <> "" ->
        JsMap.has sid (sessions st) = false ->
        mcpPostHandler isInitializeRequest closeBehaviour req now eng st =
          res_send 404
            (JsonRpcError JSONRPC_ERROR_INVALID_REQUEST "Session not found") st /\
        sessions (snd (mcpPostHandler isInitializeRequest closeBehaviour req now eng st)) =
          sessions st) /\
    (mcpSessionId req = None \/ mcpSessionId req = Some "" ->
     isInitializeRequest (body req) = false ->
     mcpPostHandler isInitializeRequest closeBehaviour req now eng st =
       res_send 400
         (JsonRpcError JSONRPC_ERROR_INVALID_REQUEST
            "Bad Request: No valid session ID provided") st /\
     sessions (snd (mcpPostHandler isInitializeRequest closeBehaviour req now eng st)) =
       sessions st).
Proof.
  intros Payload isInit cb req now eng st. split.
  - intros sid Hs Hne Hh.
    assert (Ht : truthy (mcpSessionId req) = Some sid)
      by (apply ServerFacts.truthy_Some; auto).
    rewrite (ServerFacts.post_unknown_key isInit cb req now eng st sid Ht Hh).
    split; reflexivity.
  - intros Hs Hi. apply ServerFacts.truthy_None in Hs.
    rewrite (ServerFacts.post_no_key isInit cb req now eng st Hs Hi).
    split; reflexivity.
Qed.

Lemma C5_post_rejections_witness :
  mcpPostHandler Samples.isInitialize Samples.closesFine
    (Samples.request "POST" (Some "gone") "initialize") 7 (Samples.establishes "s2")
    Samples.oneSession =
    res_send 404 (JsonRpcError JSONRPC_ERROR_INVALID_REQUEST "Session not found")
      Samples.oneSession /\
  sessions (snd (mcpPostHandler Samples.isInitialize Samples.closesFine
                   (Samples.request "POST" (Some "gone") "initialize") 7
                   (Samples.establishes "s2") Samples.oneSession)) =
    sessions Samples.oneSession.
Proof.
  apply (proj1 (C5_post_rejections string Samples.isInitialize Samples.closesFine
                  (Samples.request "POST" (Some "gone") "initialize") 7
                  (Samples.establishes "s2") Samples.oneSession) "gone");
    [reflexivity | discriminate | reflexivity].
Defined.

(** C6.  Let the server have reached a state by any sequence of events
    from its start, and let a session in its cache satisfy
    [now - lastActivity > SESSION_IDLE_TIMEOUT_MS].  The sweep tick at
    [now] ends, and ends normally whatever [close] does (resolve, reject or
    throw): it calls [close] on the engines of the idle sessions, in map
    order, and keeps exactly the other sessions, so the session is gone
    and its engine was told to close.  From then on, as long as no engine
    announces that session id again, each of the three handlers does
    nothing but send the 404 "Session not found" to a request bearing the
    key. *)
Theorem C6_idle_sweep :
  forall (Payload : Type) (isInitializeRequest : Payload -> bool)
         (closeBehaviour : Transport -> CloseOutcome)
         (history : list (Event (Payload := Payload)))
         (now : Z) (sid : string) (s : SessionInfo),
    let st := afterAll isInitializeRequest closeBehaviour history initialState in
    JsMap.get sid (sessions st) = Some s ->
    now - lastActivity s > SESSION_IDLE_TIMEOUT_MS ->
    sid <> "" ->
    exists st1,
      sweep closeBehaviour now st = Some (Ok tt, st1) /\
      LRU.entries (sessions st1) =
        List.filter (fun e => negb (idle now (snd e))) (LRU.entries (sessions st)) /\
      closeCalls st1 =
        closeCalls st ++
        List.map (fun e => transport (snd e))
          (List.filter (fun e => idle now (snd e)) (LRU.entries (sessions st))) /\
      JsMap.has sid (sessions st1) = false /\
      In (transport s) (closeCalls st1) /\
      forall (evs : list (Event (Payload := Payload))),
        Forall (fun ev => announces ev <> Some sid) evs ->
        forall (req : Request Payload) (now' : Z) (eng : Engine) (r : Response),
          mcpSessionId req = Some sid ->
          let st2 :=
            with_res r (afterAll isInitializeRequest closeBehaviour evs st1) in
          mcpPostHandler isInitializeRequest closeBehaviour req now' eng st2 =
            res_send 404
              (JsonRpcError JSONRPC_ERROR_INVALID_REQUEST "Session not found") st2 /\
          mcpGetHandler closeBehaviour req now' eng st2 =
            res_send 404
              (JsonRpcError JSONRPC_ERROR_INVALID_REQUEST "Session not found") st2 /\
          mcpDeleteHandler req eng st2 =
            res_send 404
              (JsonRpcError JSONRPC_ERROR_INVALID_REQUEST "Session not found") st2.
Proof.
  intros Payload isInit cb history now sid s st Hg Hidle Hne.
  pose proof (ServerFacts.reachable_wf isInit cb history) as Hwf. fold st in Hwf.
  assert (Hi : idle now s = true).
  { unfold idle. apply Z.gtb_lt. lia. }
  destruct (ServerFacts.sweep_spec cb now st Hwf) as (c' & Hs & Hl).
  eexists. split; [exact Hs|]. cbn [sessions closeCalls].
  assert (Hin : In (sid, s) (JsMap.live (sessions st)))
    by now apply JsMapFacts.get_In.
  assert (Hgone : JsMap.has sid c' = false).
  { apply JsMapFacts.has_false_In. rewrite Hl. intros Hk.
    apply List.in_map_iff in Hk. destruct Hk as ([k v] & Hfst & Hk).
    simpl in Hfst. subst k. apply List.filter_In in Hk. destruct Hk as [Hk Hv].
    apply (JsMapFacts.wf_In_get _ _ _ Hwf) in Hk.
    assert (v = s) by congruence. subst v. simpl in Hv. now rewrite Hi in Hv. }
  split; [exact Hl|]. split; [reflexivity|]. split; [exact Hgone|]. split.
  - apply List.in_or_app. right.
    apply (List.in_map (fun e => transport (snd e)) _ (sid, s)).
    apply List.filter_In. split; [exact Hin | exact Hi].
  - intros evs Hevs req now' eng r Hs'. cbv zeta.
    assert (Ht : truthy (mcpSessionId req) = Some sid)
      by (apply ServerFacts.truthy_Some; auto).
    match goal with |- context [afterAll isInit cb evs ?x] => set (st1 := x) end.
    assert (Habs : JsMap.has sid (sessions (with_res r (afterAll isInit cb evs st1))) = false).
    { cbn [sessions with_res]. apply ServerFacts.afterAll_absent; assumption. }
    split; [|split].
    + now apply ServerFacts.post_unknown_key with (sid := sid).
    + now apply ServerFacts.get_unknown_key with (sid := sid).
    + now apply ServerFacts.delete_unknown_key with (sid := sid).
Qed.

Lemma C6_idle_sweep_witness :
  exists st1,
    sweep Samples.closeThrows 1800001 Samples.oneSession = Some (Ok tt, st1) /\
    LRU.entries (sessions st1) =
      List.filter (fun e => negb (idle 1800001 (snd e)))
        (LRU.entries (sessions Samples.oneSession)) /\
    closeCalls st1 =
      closeCalls Samples.oneSession ++
      List.map (fun e => transport (snd e))
        (List.filter (fun e => idle 1800001 (snd e))
           (LRU.entries (sessions Samples.oneSession))) /\
    JsMap.has "s1" (sessions st1) = false /\
    In (transport Samples.session1) (closeCalls st1) /\
    forall (evs : list (Event (Payload := string))),
      Forall (fun ev => announces ev <> Some "s1") evs ->
      forall (req : Request string) (now' : Z) (eng : Engine) (r : Response),
        mcpSessionId req = Some "s1" ->
        let st2 :=
          with_res r (afterAll Samples.isInitialize Samples.closeThrows evs st1) in
        mcpPostHandler Samples.isInitialize Samples.closeThrows req now' eng st2 =
          res_send 404
            (JsonRpcError JSONRPC_ERROR_INVALID_REQUEST "Session not found") st2 /\
        mcpGetHandler Samples.closeThrows req now' eng st2 =
          res_send 404
            (JsonRpcError JSONRPC_ERROR_INVALID_REQUEST "Session not found") st2 /\
        mcpDeleteHandler req eng st2 =
          res_send 404
            (JsonRpcError JSONRPC_ERROR_INVALID_REQUEST "Session not found") st2.
Proof.
  apply (C6_idle_sweep string Samples.isInitialize Samples.closeThrows
           [Post (Samples.request "POST" None "initialize") 0 (Samples.establishes "s1")]
           1800001 "s1" Samples.session1).
  - reflexivity.
  - reflexivity.
  - discriminate.
Defined.

(** C7.  When the engine of a resolved session throws, each of the three
    routes ends with nothing more written if the headers were sent by
    then, and with exactly one 500 response bearing the internal-error
    code otherwise.  The POST and the DELETE handler catch the failure and
    answer it themselves, so that nothing is left for the error
    middleware.  The GET handler has no [try]: it writes nothing itself
    and rejects, and the one response on its route is the error
    middleware's. *)
Theorem C7_dispatch_failure :
  forall (Payload : Type) (isInitializeRequest : Payload -> bool)
         (closeBehaviour : Transport -> CloseOutcome)
         (req : Request Payload) (now : Z) (eng : Engine) (st : State)
         (sid : string) (s : SessionInfo),
    mcpSessionId req = Some sid -> sid <> "" ->
    JsMap.get sid (sessions st) = Some s ->
    throws eng = true ->
    let sent := headersSent (res st) || commits eng in
    let failure message :=
      if sent then written (res st)
      else written (res st) ++ [(500, JsonRpcError JSONRPC_ERROR_INTERNAL message)] in
    let post := mcpPostHandler isInitializeRequest closeBehaviour req now eng in
    let del := mcpDeleteHandler req eng in
    let get := mcpGetHandler closeBehaviour req now eng in
    (fst (route post st) = Ok tt /\
     written (res (snd (route post st))) = failure "Internal server error") /\
    (fst (route del st) = Ok tt /\
     written (res (snd (route del st))) =
       failure "Error processing session termination") /\
    (fst (route get st) = Ok tt /\
     written (res (snd (route get st))) = failure "Internal server error") /\
    (fst (post st) = Ok tt /\ route post st = post st) /\
    (fst (del st) = Ok tt /\ route del st = del st) /\
    (fst (get st) = Err "handleRequest failed" /\
     written (res (snd (get st))) = written (res st) /\
     headersSent (res (snd (get st))) = sent /\
     route get st = globalErrorHandler (snd (get st))).
Proof.
  intros Payload isInit cb req now eng st sid s Hs Hne Hg Hthrow.
  assert (Ht : truthy (mcpSessionId req) = Some sid)
    by (apply ServerFacts.truthy_Some; auto).
  cbv zeta. unfold route, tryCatch.
  destruct (ServerFacts.post_reuse isInit cb req now eng st sid s Ht Hg)
    as (c1 & _ & _ & _ & _ & ->).
  rewrite (ServerFacts.delete_reuse req eng st sid s Ht Hg).
  destruct (ServerFacts.get_reuse cb req now eng st sid s Ht Hg)
    as (c2 & _ & _ & _ & _ & ->).
  rewrite !ServerFacts.guarded_dispatch_eq. unfold handleRequest.
  rewrite !ServerFacts.engine_finish_eq, Hthrow.
  unfold globalErrorHandler, internalError, bind, gets, ret, res_send, modify.
  cbn. destruct (commits eng), (headersSent (res st)); cbn; repeat split.
Qed.

Lemma C7_dispatch_failure_witness :
  (fst (route (mcpPostHandler Samples.isInitialize Samples.closesFine
                 (Samples.request "POST" (Some "s1") "tools/list") 9 Samples.failsEarly)
          (with_res freshResponse Samples.oneSession)) = Ok tt /\
   written (res (snd (route (mcpPostHandler Samples.isInitialize Samples.closesFine
                 (Samples.request "POST" (Some "s1") "tools/list") 9 Samples.failsEarly)
          (with_res freshResponse Samples.oneSession)))) =
     [(500, JsonRpcError JSONRPC_ERROR_INTERNAL "Internal server error")]) /\
  (fst (route (mcpDeleteHandler (Samples.request "DELETE" (Some "s1") "")
                 Samples.failsEarly)
          (with_res freshResponse Samples.oneSession)) = Ok tt /\
   written (res (snd (route (mcpDeleteHandler (Samples.request "DELETE" (Some "s1") "")
                 Samples.failsEarly)
          (with_res freshResponse Samples.oneSession)))) =
     [(500, JsonRpcError JSONRPC_ERROR_INTERNAL "Error processing session termination")]) /\
  (fst (route (mcpGetHandler Samples.closesFine
                 (Samples.request "GET" (Some "s1") "") 9 Samples.failsEarly)
          (with_res freshResponse Samples.oneSession)) = Ok tt /\
   written (res (snd (route (mcpGetHandler Samples.closesFine
                 (Samples.request "GET" (Some "s1") "") 9 Samples.failsEarly)
          (with_res freshResponse Samples.oneSession)))) =
     [(500, JsonRpcError JSONRPC_ERROR_INTERNAL "Internal server error")]).
Proof.
  split; [|split].
  - apply (C7_dispatch_failure string Samples.isInitialize Samples.closesFine
             (Samples.request "POST" (Some "s1") "tools/list") 9 Samples.failsEarly
             (with_res freshResponse Samples.oneSession) "s1" Samples.session1);
      [reflexivity | discriminate | reflexivity | reflexivity].
  - apply (C7_dispatch_failure string Samples.isInitialize Samples.closesFine
             (Samples.request "DELETE" (Some "s1") "") 9 Samples.failsEarly
             (with_res freshResponse Samples.oneSession) "s1" Samples.session1);
      [reflexivity | discriminate | reflexivity | reflexivity].
  - apply (C7_dispatch_failure string Samples.isInitialize Samples.closesFine
             (Samples.request "GET" (Some "s1") "") 9 Samples.failsEarly
             (with_res freshResponse Samples.oneSession) "s1" Samples.session1);
      [reflexivity | discriminate | reflexivity | reflexivity].
Defined.

(** C8, as the claim states it, fails on the DELETE endpoint: that handler
    never calls [touchSession], so a successful dispatch leaves the
    session's [lastActivity] and the list of refreshes as they were. *)
Lemma C8_delete_refreshes_nothing :
  JsMap.get "s1" (sessions Samples.oneSession) = Some Samples.session1 /\
  throws Samples.answers = false /\
  fst (mcpDeleteHandler (Samples.request "DELETE" (Some "s1") "") Samples.answers
         (with_res freshResponse Samples.oneSession)) = Ok tt /\
  activityWrites (snd (mcpDeleteHandler (Samples.request "DELETE" (Some "s1") "")
                         Samples.answers (with_res freshResponse Samples.oneSession))) =
    [] /\
  JsMap.get "s1" (sessions (snd (mcpDeleteHandler (Samples.request "DELETE" (Some "s1") "")
                         Samples.answers (with_res freshResponse Samples.oneSession)))) =
    Some Samples.session1.
Proof. repeat split. Qed.

(** C8, amended.  A POST or a GET bearing the key of a live session
    assigns [lastActivity] exactly once, the time of the request, before
    the engine is run, and unless the engine closes the session the cache
    then holds the session with that time.  A DELETE assigns nothing: the
    session keeps its [lastActivity]. *)
Theorem C8_activity_refresh :
  forall (Payload : Type) (isInitializeRequest : Payload -> bool)
         (closeBehaviour : Transport -> CloseOutcome)
         (req : Request Payload) (now : Z) (eng : Engine) (st : State)
         (sid : string) (s : SessionInfo),
    mcpSessionId req = Some sid -> sid <> "" ->
    JsMap.get sid (sessions st) = Some s ->
    let post := mcpPostHandler isInitializeRequest closeBehaviour req now eng st in
    let get := mcpGetHandler closeBehaviour req now eng st in
    let del := mcpDeleteHandler req eng st in
    (activityWrites (snd post) = activityWrites st ++ [(sid, now)] /\
     (closes eng = false ->
      JsMap.get sid (sessions (snd post)) =
        Some {| transport := transport s; lastActivity := now |})) /\
    (activityWrites (snd get) = activityWrites st ++ [(sid, now)] /\
     (closes eng = false ->
      JsMap.get sid (sessions (snd get)) =
        Some {| transport := transport s; lastActivity := now |})) /\
    (activityWrites (snd del) = activityWrites st /\
     (closes eng = false -> JsMap.get sid (sessions (snd del)) = Some s)).
Proof.
  intros Payload isInit cb req now eng st sid s Hs Hne Hg.
  assert (Ht : truthy (mcpSessionId req) = Some sid)
    by (apply ServerFacts.truthy_Some; auto).
  cbv zeta. split; [|split].
  - destruct (ServerFacts.post_reuse isInit cb req now eng st sid s Ht Hg)
      as (c' & _ & Hc & _ & _ & ->).
    rewrite ServerFacts.guarded_dispatch_eq, ServerFacts.engine_finish_eq.
    cbn. split; [reflexivity|]. now intros ->.
  - destruct (ServerFacts.get_reuse cb req now eng st sid s Ht Hg)
      as (c' & _ & Hc & _ & _ & ->).
    unfold handleRequest. rewrite ServerFacts.engine_finish_eq.
    cbn. split; [reflexivity|]. now intros ->.
  - rewrite (ServerFacts.delete_reuse req eng st sid s Ht Hg).
    rewrite ServerFacts.guarded_dispatch_eq, ServerFacts.engine_finish_eq.
    cbn. split; [reflexivity|]. intros ->. apply JsMapFacts.get_set_same.
Qed.

Lemma C8_activity_refresh_witness :
  (activityWrites (snd (mcpPostHandler Samples.isInitialize Samples.closesFine
       (Samples.request "POST" (Some "s1") "tools/list") 9 Samples.answers
       Samples.oneSession)) = activityWrites Samples.oneSession ++ [("s1", 9)] /\
   (closes Samples.answers = false ->
    JsMap.get "s1" (sessions (snd (mcpPostHandler Samples.isInitialize Samples.closesFine
       (Samples.request "POST" (Some "s1") "tools/list") 9 Samples.answers
       Samples.oneSession))) =
      Some {| transport := transport Samples.session1; lastActivity := 9 |})) /\
  (activityWrites (snd (mcpGetHandler Samples.closesFine
       (Samples.request "POST" (Some "s1") "tools/list") 9 Samples.answers
       Samples.oneSession)) = activityWrites Samples.oneSession ++ [("s1", 9)] /\
   (closes Samples.answers = false ->
    JsMap.get "s1" (sessions (snd (mcpGetHandler Samples.closesFine
       (Samples.request "POST" (Some "s1") "tools/list") 9 Samples.answers
       Samples.oneSession))) =
      Some {| transport := transport Samples.session1; lastActivity := 9 |})) /\
  (activityWrites (snd (mcpDeleteHandler
       (Samples.request "POST" (Some "s1") "tools/list") Samples.answers
       Samples.oneSession)) = activityWrites Samples.oneSession /\
   (closes Samples.answers = false ->
    JsMap.get "s1" (sessions (snd (mcpDeleteHandler
       (Samples.request "POST" (Some "s1") "tools/list") Samples.answers
       Samples.oneSession))) = Some Samples.session1)).
Proof.
  apply (C8_activity_refresh string Samples.isInitialize Samples.closesFine
           (Samples.request "POST" (Some "s1") "tools/list") 9 Samples.answers
           Samples.oneSession "s1" Samples.session1);
    [reflexivity | discriminate | reflexivity].
Defined.

(** C9, as the claim states it, fails for a request without a session
    key: GET and DELETE answer it 400 "Missing session ID", a bad-request
    outcome that is neither reuse nor not-found. *)
Lemma C9_missing_key_is_bad_request :
  mcpSessionId (Samples.request "GET" None "") = None /\
  written (res (snd (mcpGetHandler Samples.closesFine (Samples.request "GET" None "") 9
                       Samples.answers (with_res freshResponse Samples.oneSession)))) =
    [(400, JsonRpcError JSONRPC_ERROR_INVALID_REQUEST "Missing session ID")] /\
  written (res (snd (mcpDeleteHandler (Samples.request "DELETE" None "")
                       Samples.answers (with_res freshResponse Samples.oneSession)))) =
    [(400, JsonRpcError JSONRPC_ERROR_INVALID_REQUEST "Missing session ID")].
Proof. repeat split. Qed.

(** C9, amended.  A GET or DELETE request that bears the key of a session
    in the cache reuses that session: GET refreshes it and hands the
    request to its transport, DELETE hands the request to its transport
    under the handler's [try], and when the engine does not throw neither
    handler writes anything of its own.  The two handlers do nothing but
    send the 404 "Session not found" when the request bears a non-empty key
    that is not in the cache, and nothing but send the 400 "Missing session
    ID" when it bears no key or the empty key.  Whatever the request and
    whatever the engine does, they construct no transport and put no key
    into the cache. *)
Theorem C9_get_delete_never_create :
  forall (Payload : Type) (closeBehaviour : Transport -> CloseOutcome)
         (req : Request Payload) (now : Z) (eng : Engine) (st : State),
    let get := mcpGetHandler closeBehaviour req now eng st in
    let del := mcpDeleteHandler req eng st in
    (forall sid s,
        mcpSessionId req = Some sid -> sid <> "" ->
        JsMap.get sid (sessions st) = Some s ->
        (exists c',
            JsMap.get sid c' =
              Some {| transport := transport s; lastActivity := now |} /\
            (forall k, JsMap.has k c' = JsMap.has k (sessions st)) /\
            (forall k, k <> sid -> JsMap.get k c' = JsMap.get k (sessions st)) /\
            get = handleRequest (transport s) eng
                    {| sessions := c'; closeCalls := closeCalls st;
                       activityWrites := activityWrites st ++ [(sid, now)];
                       created := created st; res := res st |}) /\
        del = tryCatch (handleRequest (transport s) eng)
                (fun _ => internalError "Error processing session termination")
                (with_sessions (JsMap.set sid s (JsMap.delete sid (sessions st))) st) /\
        (throws eng = false ->
         fst get = Ok tt /\ written (res (snd get)) = written (res st) /\
         fst del = Ok tt /\ written (res (snd del)) = written (res st))) /\
    (forall sid,
        mcpSessionId req = Some sid -> sid <> "" ->
        JsMap.has sid (sessions st) = false ->
        get = res_send 404
                (JsonRpcError JSONRPC_ERROR_INVALID_REQUEST "Session not found") st /\
        del = res_send 404
                (JsonRpcError JSONRPC_ERROR_INVALID_REQUEST "Session not found") st) /\
    (mcpSessionId req = None \/ mcpSessionId req = Some "" ->
     get = res_send 400
             (JsonRpcError JSONRPC_ERROR_INVALID_REQUEST "Missing session ID") st /\
     del = res_send 400
             (JsonRpcError JSONRPC_ERROR_INVALID_REQUEST "Missing session ID") st) /\
    (forall k, JsMap.has k (sessions (snd get)) = true -> JsMap.has k (sessions st) = true) /\
    (forall k, JsMap.has k (sessions (snd del)) = true -> JsMap.has k (sessions st) = true) /\
    created (snd get) = created st /\ created (snd del) = created st.
Proof.
  intros Payload cb req now eng st. cbv zeta.
  split; [|split; [|split]].
  - intros sid s Hs Hne Hg.
    assert (Ht : truthy (mcpSessionId req) = Some sid)
      by (apply ServerFacts.truthy_Some; auto).
    destruct (ServerFacts.get_reuse cb req now eng st sid s Ht Hg)
      as (c' & _ & Hc1 & Hc2 & Hc3 & Eg).
    pose proof (ServerFacts.delete_reuse req eng st sid s Ht Hg) as Ed.
    split; [exists c'; auto|]. split; [exact Ed|].
    intros Hthrow. rewrite Eg, Ed.
    rewrite ServerFacts.guarded_dispatch_eq. unfold handleRequest.
    rewrite !ServerFacts.engine_finish_eq, Hthrow.
    cbn. destruct (commits eng); cbn; auto.
  - intros sid Hs Hne Hh.
    assert (Ht : truthy (mcpSessionId req) = Some sid)
      by (apply ServerFacts.truthy_Some; auto).
    split.
    + apply ServerFacts.get_unknown_key with (sid := sid); assumption.
    + apply ServerFacts.delete_unknown_key with (sid := sid); assumption.
  - intros Hs. apply ServerFacts.truthy_None in Hs. split.
    + now apply ServerFacts.get_no_key.
    + now apply ServerFacts.delete_no_key.
  - destruct (truthy (mcpSessionId req)) as [sid|] eqn:Ht.
    + destruct (JsMap.get sid (sessions st)) as [s|] eqn:Hg.
      * destruct (ServerFacts.get_reuse cb req now eng st sid s Ht Hg)
          as (c' & _ & _ & Hc & _ & ->).
        rewrite (ServerFacts.delete_reuse req eng st sid s Ht Hg).
        unfold handleRequest.
        rewrite ServerFacts.guarded_dispatch_eq, !ServerFacts.engine_finish_eq.
        cbn. pose proof (JsMapFacts.get_Some_has _ _ _ Hg) as Hh.
        repeat split; intros k;
          destruct (closes eng); try destruct (truthy (sessionId (transport s)));
          intros Hk; try apply JsMapFacts.has_delete_sub in Hk;
          rewrite ?Hc, ?JsMapFacts.has_promote in Hk by assumption; assumption.
      * apply JsMapFacts.get_None in Hg.
        rewrite (ServerFacts.get_unknown_key cb req now eng st sid Ht Hg).
        rewrite (ServerFacts.delete_unknown_key req eng st sid Ht Hg).
        cbn. auto.
    + rewrite (ServerFacts.get_no_key cb req now eng st Ht).
      rewrite (ServerFacts.delete_no_key req eng st Ht).
      cbn. auto.
Qed.

Lemma C9_get_delete_never_create_witness :
  (mcpDeleteHandler (Samples.request "DELETE" (Some "s1") "") Samples.answers
     Samples.oneSession =
     tryCatch (handleRequest (transport Samples.session1) Samples.answers)
       (fun _ => internalError "Error processing session termination")
       (with_sessions
          (JsMap.set "s1" Samples.session1
             (JsMap.delete "s1" (sessions Samples.oneSession)))
          Samples.oneSession) /\
   (throws Samples.answers = false ->
    fst (mcpGetHandler Samples.closesFine (Samples.request "DELETE" (Some "s1") "") 9
           Samples.answers Samples.oneSession) = Ok tt /\
    written (res (snd (mcpGetHandler Samples.closesFine
           (Samples.request "DELETE" (Some "s1") "") 9
           Samples.answers Samples.oneSession))) = written (res Samples.oneSession) /\
    fst (mcpDeleteHandler (Samples.request "DELETE" (Some "s1") "") Samples.answers
           Samples.oneSession) = Ok tt /\
    written (res (snd (mcpDeleteHandler (Samples.request "DELETE" (Some "s1") "")
           Samples.answers Samples.oneSession))) = written (res Samples.oneSession))) /\
  (mcpGetHandler Samples.closesFine (Samples.request "GET" (Some "gone") "") 9
     Samples.answers Samples.oneSession =
     res_send 404 (JsonRpcError JSONRPC_ERROR_INVALID_REQUEST "Session not found")
       Samples.oneSession /\
   mcpDeleteHandler (Samples.request "GET" (Some "gone") "") Samples.answers
     Samples.oneSession =
     res_send 404 (JsonRpcError JSONRPC_ERROR_INVALID_REQUEST "Session not found")
       Samples.oneSession).
Proof.
  split.
  - apply (proj2 (proj1 (C9_get_delete_never_create string Samples.closesFine
                           (Samples.request "DELETE" (Some "s1") "") 9 Samples.answers
                           Samples.oneSession) "s1" Samples.session1
                    eq_refl ltac:(discriminate) eq_refl)).
  - apply (proj1 (proj2 (C9_get_delete_never_create string Samples.closesFine
                           (Samples.request "GET" (Some "gone") "") 9 Samples.answers
                           Samples.oneSession)) "gone");
      [reflexivity | discriminate | reflexivity].
Defined.

(** C10.  Without an Origin header the CORS middleware hands the request
    on with the response untouched, whatever the method and the path; it
    ends a request, with 204 or with 403, only when an Origin header is
    present, and then with exactly one of the two. *)
Theorem C10_cors_needs_origin :
  forall (Payload : Type) (req : Request Payload) (r : Response),
    (origin req = None -> corsMiddleware req r = (Next, r)) /\
    (fst (corsMiddleware req r) = Ended ->
     (exists o, origin req = Some o /\ o <> "") /\
     (written (snd (corsMiddleware req r)) = written r ++ [(204, NoBody)] \/
      written (snd (corsMiddleware req r)) =
        written r ++ [(403, ErrorMessage "Cross-origin requests not allowed")])).
Proof.
  intros Payload req r. unfold corsMiddleware. split.
  - now intros ->.
  - destruct (truthy (origin req)) as [o|] eqn:Ho; [|discriminate].
    apply ServerFacts.truthy_Some in Ho. intros Hend.
    split; [exists o; exact Ho|].
    destruct (Cors.isCorsAllowedPath (path req)).
    + destruct (String.eqb (method req) "OPTIONS"); [|discriminate].
      left. reflexivity.
    + right. reflexivity.
Qed.

Lemma C10_cors_needs_origin_witness :
  corsMiddleware (Samples.request "OPTIONS" None "") freshResponse =
    (Next, freshResponse).
Proof.
  apply (proj1 (C10_cors_needs_origin string (Samples.request "OPTIONS" None "")
                  freshResponse)).
  reflexivity.
Defined.

(** X4.  An initiating POST whose engine establishes a session under a
    key that is not in the cache, while the cache is at capacity, evicts
    the oldest session: [close] is called once, on that session's engine
    and on no other, whatever [close] does; the new session takes the
    young end of the cache, and the cache holds as many sessions as
    before. *)
Theorem X4_overflow_closes_oldest :
  forall (Payload : Type) (isInitializeRequest : Payload -> bool)
         (closeBehaviour : Transport -> CloseOutcome)
         (req : Request Payload) (now : Z) (eng : Engine) (st : State)
         (sid e : string) (es : SessionInfo) (rest : list (string * SessionInfo)),
    mcpSessionId req = None ->
    isInitializeRequest (body req) = true ->
    connectFails eng = false -> initialized eng = Some sid -> closes eng = false ->
    JsMap.has sid (sessions st) = false ->
    MAX_SESSIONS <= Z.of_nat (LRU.size (sessions st)) ->
    LRU.entries (sessions st) = (e, es) :: rest ->
    let st' := snd (mcpPostHandler isInitializeRequest closeBehaviour req now eng st) in
    LRU.entries (sessions st') =
      rest ++
      [(sid, {| transport := {| transportId := created st; sessionId := Some sid |};
                lastActivity := now |})] /\
    closeCalls st' = closeCalls st ++ [transport es] /\
    LRU.size (sessions st') = LRU.size (sessions st).
Proof.
  intros Payload isInit cb req now eng st sid e es rest
    Hs Hi Hconn Hinit Hcl Hk Hfull El. cbv zeta.
  set (info := {| transport := {| transportId := created st; sessionId := Some sid |};
                  lastActivity := now |}).
  destruct (LRUFacts.set_full (sessionOptions cb) sid info (sessions st) (closeCalls st)
              e es rest Hk) as (Hset & El');
    [unfold LRU.size in Hfull; simpl; lia | exact El |].
  unfold mcpPostHandler. rewrite Hs. cbn [truthy]. unfold tryCatch, bind at 1, ret.
  cbn [isSome negb andb]. rewrite Hi.
  unfold bind at 1, newTransport. unfold bind at 1, connect. rewrite Hconn.
  unfold ret, handleInitialize. rewrite Hinit.
  unfold bind, sessions_set. cbn [sessions closeCalls with_created created transportId].
  fold info. rewrite Hset. rewrite ServerFacts.engine_finish_eq, Hcl.
  cbn [sessions closeCalls with_closeCalls with_sessions].
  assert (Hsz : LRU.size (JsMap.set sid info (JsMap.delete e (sessions st))) =
                LRU.size (sessions st)).
  { unfold LRU.size, JsMap.size. unfold LRU.entries in El, El'.
    rewrite El', El, List.length_app. simpl. lia. }
  destruct (throws eng); cbn [snd];
    rewrite ?ServerFacts.internalError_sessions; cbn; auto.
  unfold internalError, bind, gets, ret, res_send, modify. cbn.
  destruct (commits eng); cbn; [auto|].
  destruct (headersSent (res st)); cbn; auto.
Qed.

Lemma X4_overflow_closes_oldest_witness :
  LRU.entries
    (sessions (snd (mcpPostHandler Samples.isInitialize Samples.closeThrows
                      (Samples.request "POST" None "initialize") 5
                      (Samples.establishes "new") Samples.fullServer))) =
    List.tl (LRU.entries (sessions Samples.fullServer)) ++
    [("new", {| transport :=
                  {| transportId := created Samples.fullServer; sessionId := Some "new" |};
                lastActivity := 5 |})] /\
  closeCalls (snd (mcpPostHandler Samples.isInitialize Samples.closeThrows
                     (Samples.request "POST" None "initialize") 5
                     (Samples.establishes "new") Samples.fullServer)) =
    closeCalls Samples.fullServer ++ [transport (Samples.sessionOf 0)] /\
  LRU.size (sessions (snd (mcpPostHandler Samples.isInitialize Samples.closeThrows
                             (Samples.request "POST" None "initialize") 5
                             (Samples.establishes "new") Samples.fullServer))) =
    LRU.size (sessions Samples.fullServer).
Proof.
  apply (X4_overflow_closes_oldest string Samples.isInitialize Samples.closeThrows
           (Samples.request "POST" None "initialize") 5 (Samples.establishes "new")
           Samples.fullServer "new" "0" (Samples.sessionOf 0)
           (List.tl (LRU.entries (sessions Samples.fullServer))));
    first [reflexivity | vm_compute; discriminate].
Defined.

(** X5.  In every state the server reaches from its start the cache holds
    its sessions under distinct keys and holds at most [MAX_SESSIONS] of
    them. *)
Theorem X5_sessions_bounded :
  forall (Payload : Type) (isInitializeRequest : Payload -> bool)
         (closeBehaviour : Transport -> CloseOutcome)
         (history : list (Event (Payload := Payload))),
    JsMap.wf
      (sessions (afterAll isInitializeRequest closeBehaviour history initialState)) /\
    Z.of_nat
      (LRU.size
         (sessions (afterAll isInitializeRequest closeBehaviour history initialState)))
    <= MAX_SESSIONS.
Proof.
  intros Payload isInit cb history.
  apply (ServerFacts.reachable_kept isInit cb _ ServerFacts.maintained_bounded history).
  split; [constructor | simpl; unfold MAX_SESSIONS; lia].
Qed.

End ServerClaims.

(** * The cache under all its calls *)

Module LRUCalls.
Import LRU.

Section Calls.
Context {V W : Type} {JV : JsValue V}.
Variable options : LRUCacheOptions V W.
Implicit Types (c : cache (V := V)) (w : W) (k : string) (v : V).

(** Re-inserting a key that is there keeps the number of entries. *)
Lemma size_promote k v c :
  JsMap.wf c -> JsMap.has k c = true ->
  JsMap.size (JsMap.set k v (JsMap.delete k c)) = JsMap.size c.
Proof.
  intros Hwf Hk.
  rewrite JsMapFacts.size_set_absent by now apply JsMapFacts.wf_has_delete.
  apply JsMapFacts.size_delete, Hk.
Qed.

(** A cache at a capacity of one or more holds an entry. *)
Lemma full_has_oldest c :
  (1 <= maxSize options)%Z -> (Z.of_nat (JsMap.size c) >= maxSize options)%Z ->
  exists e ev rest, entries c = (e, ev) :: rest.
Proof.
  intros HN Hge. unfold entries, JsMap.size in *.
  destruct (JsMap.live c) as [|[e ev] rest]; [simpl in Hge; lia | eauto].
Qed.

(** [set] within the bound. *)
Lemma set_bounded k v c w :
  (1 <= maxSize options)%Z ->
  JsMap.wf c -> (Z.of_nat (JsMap.size c) <= maxSize options)%Z ->
  exists c' w',
    set options k v c w = Normal (c', w') /\
    JsMap.wf c' /\ (Z.of_nat (JsMap.size c') <= maxSize options)%Z.
Proof.
  intros HN Hwf Hsz.
  destruct (JsMap.has k c) eqn:Hk.
  - rewrite (LRUFacts.set_present options k v c w Hk). do 2 eexists.
    split; [reflexivity|]. split; [now apply JsMapFacts.wf_promote|].
    now rewrite size_promote.
  - destruct (Z.ltb_spec (Z.of_nat (JsMap.size c)) (maxSize options)) as [Hlt|Hge].
    + rewrite (LRUFacts.set_room options k v c w Hk Hlt). do 2 eexists.
      split; [reflexivity|]. split; [now apply JsMapFacts.wf_set|].
      rewrite JsMapFacts.size_set_absent by assumption. lia.
    + destruct (full_has_oldest c HN) as (e & ev & rest & El); [lia|].
      destruct (LRUFacts.set_full options k v c w e ev rest Hk) as (Es & El');
        [lia | exact El |].
      rewrite Es. do 2 eexists. split; [reflexivity|].
      split; [now apply JsMapFacts.wf_set, JsMapFacts.wf_delete|].
      unfold entries, JsMap.size in *. rewrite El', List.length_app.
      rewrite El in Hsz. simpl in *. lia.
Qed.

(** Every call within the bound. *)
Lemma step_bounded op c w :
  (1 <= maxSize options)%Z ->
  JsMap.wf c -> (Z.of_nat (JsMap.size c) <= maxSize options)%Z ->
  exists c' w',
    step options op (c, w) = Normal (c', w') /\
    JsMap.wf c' /\ (Z.of_nat (JsMap.size c') <= maxSize options)%Z.
Proof.
  intros HN Hwf Hsz. destruct op as [k|k|k v|k|]; cbn [step].
  - unfold get. destruct (JsMap.get k c) as [v|] eqn:Hg; cbn [snd].
    + destruct (is_undefined v); cbn [snd]; do 2 eexists;
        (split; [reflexivity|]); [auto|].
      pose proof (JsMapFacts.get_Some_has _ _ _ Hg) as Hk.
      split; [now apply JsMapFacts.wf_promote | now rewrite size_promote].
    + do 2 eexists. split; [reflexivity | auto].
  - do 2 eexists. split; [reflexivity | auto].
  - now apply set_bounded.
  - cbn [delete snd]. do 2 eexists. split; [reflexivity|].
    split; [now apply JsMapFacts.wf_delete|].
    destruct (JsMap.has k c) eqn:Hk.
    + pose proof (JsMapFacts.size_delete _ _ Hk). lia.
    + now rewrite JsMapFacts.delete_absent.
  - do 2 eexists. split; [reflexivity|]. unfold clear, JsMap.wf, JsMap.size.
    rewrite EntriesFacts.live_clear. simpl. split; [constructor | lia].
Qed.

Lemma run_bounded ops : forall c w,
  (1 <= maxSize options)%Z ->
  JsMap.wf c -> (Z.of_nat (JsMap.size c) <= maxSize options)%Z ->
  exists c' w',
    run options ops (c, w) = Normal (c', w') /\
    JsMap.wf c' /\ (Z.of_nat (JsMap.size c') <= maxSize options)%Z.
Proof.
  induction ops as [|op ops IH]; intros c w HN Hwf Hsz.
  - do 2 eexists. split; [reflexivity | auto].
  - destruct (step_bounded op c w HN Hwf Hsz) as (c1 & w1 & Hs & Hwf1 & Hsz1).
    cbn [run]. rewrite Hs. now apply IH.
Qed.

(** Every call keeps the keys distinct. *)
Lemma step_wf op c w c' w' :
  JsMap.wf c -> step options op (c, w) = Normal (c', w') -> JsMap.wf c'.
Proof.
  intros Hwf. destruct op as [k|k|k v|k|]; cbn [step].
  - unfold get. destruct (JsMap.get k c) as [v|]; [destruct (is_undefined v)|];
      intros [= <- _]; auto using JsMapFacts.wf_promote.
  - now intros [= <- _].
  - now apply LRUFacts.set_wf.
  - intros [= <- _]. now apply JsMapFacts.wf_delete.
  - intros [= <- _]. unfold clear, JsMap.wf. rewrite EntriesFacts.live_clear. constructor.
Qed.

Lemma run_wf ops : forall c w c' w',
  JsMap.wf c -> run options ops (c, w) = Normal (c', w') -> JsMap.wf c'.
Proof.
  induction ops as [|op ops IH]; intros c w c' w' Hwf; cbn [run].
  - now intros [= <- _].
  - destruct (step options op (c, w)) as [[c1 w1]|m] eqn:Hs; [|discriminate].
    apply IH. eapply step_wf; eauto.
Qed.

(** What a [set] that returns has done: it has set the key in a map
    that did not have it and whose other entries were in the cache. *)
Lemma set_form k v c w c' w' :
  JsMap.wf c -> set options k v c w = Normal (c', w') ->
  exists d,
    c' = JsMap.set k v d /\ JsMap.has k d = false /\
    forall k', k' <> k -> JsMap.has k' d = true -> JsMap.get k' d = JsMap.get k' c.
Proof.
  intros Hwf Hset. unfold set in Hset. destruct (JsMap.has k c) eqn:Hk.
  - injection Hset as <- _. exists (JsMap.delete k c).
    split; [reflexivity|]. split; [now apply JsMapFacts.wf_has_delete|].
    intros k' Hne _. now apply JsMapFacts.get_delete_other.
  - destruct (Z.of_nat (JsMap.size c) >=? maxSize options)%Z.
    + destruct (JsMap.keys_next c) as [e|] eqn:He; [|discriminate].
      injection Hset as <- _. exists (JsMap.delete e c).
      split; [reflexivity|]. split.
      * destruct (JsMap.has k (JsMap.delete e c)) eqn:E; auto.
        apply JsMapFacts.has_delete_sub in E. congruence.
      * intros k' Hne Hk'. apply JsMapFacts.get_delete_other.
        intros ->. now rewrite (JsMapFacts.wf_has_delete e c Hwf) in Hk'.
    + injection Hset as <- _. exists c. auto.
Qed.

(** Without capacity: no call puts an entry into an empty cache. *)
Lemma set_no_capacity k v c w :
  (maxSize options <= 0)%Z -> entries c = [] ->
  set options k v c w = Throw "Cache iteration failed unexpectedly".
Proof.
  intros HN El. unfold entries in El. unfold set.
  rewrite EntriesFacts.has_live, El. cbn [Entries.lookup].
  unfold JsMap.size, JsMap.keys_next. rewrite El. cbn [List.length].
  destruct (Z.geb_spec (Z.of_nat 0) (maxSize options)); [reflexivity | lia].
Qed.

Lemma step_no_capacity op c w c' w' :
  (maxSize options <= 0)%Z -> entries c = [] ->
  step options op (c, w) = Normal (c', w') ->
  entries c' = [] /\ w' = w /\ forall k v, op <> OpSet k v.
Proof.
  intros HN El. destruct op as [k|k|k v|k|]; cbn [step].
  - unfold get. rewrite EntriesFacts.get_live. unfold entries in El. rewrite El.
    cbn. intros [= <- <-]. repeat split; auto; discriminate.
  - cbn. intros [= <- <-]. repeat split; auto; discriminate.
  - now rewrite (set_no_capacity k v c w HN El).
  - cbn. intros [= <- <-]. unfold entries in *.
    rewrite EntriesFacts.live_delete, El. repeat split; auto; discriminate.
  - intros [= <- <-]. unfold entries, clear. rewrite EntriesFacts.live_clear.
    repeat split; auto; discriminate.
Qed.

Lemma run_no_capacity ops : forall c w c' w',
  (maxSize options <= 0)%Z -> entries c = [] ->
  run options ops (c, w) = Normal (c', w') ->
  entries c' = [] /\ w' = w /\ forall k v, ~ In (OpSet k v) ops.
Proof.
  induction ops as [|op ops IH]; intros c w c' w' HN El; cbn [run].
  - intros [= <- <-]. auto.
  - destruct (step options op (c, w)) as [[c1 w1]|m] eqn:Hs; [|discriminate].
    destruct (step_no_capacity op c w c1 w1 HN El Hs) as (El1 & -> & Hop).
    intros Hr. destruct (IH c1 w c' w' HN El1 Hr) as (El' & Hw & Hops).
    repeat split; auto. intros k v [E|Hin]; [now apply (Hop k v) | now apply (Hops k v)].
Qed.

(** The calls see a map through its entries only. *)
Lemma step_entries op c1 c2 w :
  entries c1 = entries c2 ->
  match step options op (c1, w), step options op (c2, w) with
  | Normal (c1', w1), Normal (c2', w2) => entries c1' = entries c2' /\ w1 = w2
  | Throw m1, Throw m2 => m1 = m2
  | _, _ => False
  end.
Proof.
  unfold entries. intros E. destruct op as [k|k|k v|k|]; cbn [step].
  - unfold get. rewrite !EntriesFacts.get_live, E.
    destruct (Entries.lookup k (JsMap.live c2)) as [v|]; [|cbn; auto].
    destruct (is_undefined v); cbn; [auto|].
    now rewrite !EntriesFacts.live_set, !EntriesFacts.live_delete, E.
  - cbn. auto.
  - unfold set. rewrite !EntriesFacts.has_live, E.
    destruct (Entries.lookup k (JsMap.live c2)).
    + now rewrite !EntriesFacts.live_set, !EntriesFacts.live_delete, E.
    + unfold JsMap.size, JsMap.keys_next. rewrite E.
      destruct (Z.of_nat (List.length (JsMap.live c2)) >=? maxSize options)%Z.
      * destruct (JsMap.live c2) as [|[e ev] rest] eqn:El; [reflexivity|].
        rewrite !EntriesFacts.get_live, E, El.
        now rewrite !EntriesFacts.live_set, !EntriesFacts.live_delete, E, El.
      * now rewrite !EntriesFacts.live_set, E.
  - cbn. now rewrite !EntriesFacts.live_delete, E.
  - unfold clear. now rewrite !EntriesFacts.live_clear.
Qed.

Lemma run_entries ops : forall c1 c2 w,
  entries c1 = entries c2 ->
  match run options ops (c1, w), run options ops (c2, w) with
  | Normal (c1', w1), Normal (c2', w2) => entries c1' = entries c2' /\ w1 = w2
  | Throw m1, Throw m2 => m1 = m2
  | _, _ => False
  end.
Proof.
  induction ops as [|op ops IH]; intros c1 c2 w E; cbn [run]; [auto|].
  pose proof (step_entries op c1 c2 w E) as Hs.
  destruct (step options op (c1, w)) as [[c1' w1]|m1],
           (step options op (c2, w)) as [[c2' w2]|m2]; try contradiction; auto.
  destruct Hs as [E' ->]. now apply IH.
Qed.

End Calls.

End LRUCalls.

(** * More about the cache *)

(** X6.  On a cache of capacity [N >= 1] every sequence of calls, of
    [get], [has], [set], [delete] and [clear] in any order, runs to its
    end without a throw, and leaves the keys distinct and at most [N]
    entries; a prefix of a sequence is a sequence, so this holds after
    each call. *)
Theorem X6_bounded_under_all_calls :
  forall (V W : Type) (JV : LRU.JsValue V) (options : LRU.LRUCacheOptions V W)
         (ops : list (LRU.Op V)) (w0 : W),
    (1 <= LRU.maxSize options)%Z ->
    exists c w,
      LRU.run options ops (LRU.create, w0) = LRU.Normal (c, w) /\
      JsMap.wf c /\
      (Z.of_nat (LRU.size c) <= LRU.maxSize options)%Z.
Proof.
  intros V W JV options ops w0 HN.
  apply LRUCalls.run_bounded; [exact HN | constructor | simpl; lia].
Qed.

Lemma X6_bounded_under_all_calls_witness :
  exists c w,
    LRU.run {| LRU.maxSize := 2; LRU.onEvict := Some LRU.spy |}
      [LRU.OpSet "a" "1"; LRU.OpGet "a"; LRU.OpSet "b" "2"; LRU.OpSet "c" "3";
       LRU.OpDelete "b"; LRU.OpHas "c"; LRU.OpClear; LRU.OpSet "d" "4"]
      (LRU.create, []) = LRU.Normal (c, w) /\
    JsMap.wf c /\
    (Z.of_nat (LRU.size c) <= 2)%Z.
Proof.
  apply (@X6_bounded_under_all_calls string (list (string * string)) _
           {| LRU.maxSize := 2; LRU.onEvict := Some LRU.spy |}
           [LRU.OpSet "a" "1"; LRU.OpGet "a"; LRU.OpSet "b" "2"; LRU.OpSet "c" "3";
            LRU.OpDelete "b"; LRU.OpHas "c"; LRU.OpClear; LRU.OpSet "d" "4"] []).
  simpl. lia.
Defined.

(** X7.  A cache constructed with a capacity of zero or less never holds
    an entry: whatever calls have run to their end on it, it is empty, the
    hook was not called, every [set] on it throws "Cache iteration failed
    unexpectedly", and so there was no [set] among the calls. *)
Theorem X7_no_capacity_no_entry :
  forall (V W : Type) (JV : LRU.JsValue V) (options : LRU.LRUCacheOptions V W)
         (ops : list (LRU.Op V)) (w0 : W) (c : LRU.cache) (w : W),
    (LRU.maxSize options <= 0)%Z ->
    LRU.run options ops (LRU.create, w0) = LRU.Normal (c, w) ->
    LRU.entries c = [] /\ w = w0 /\
    (forall k v,
        LRU.set options k v c w = LRU.Throw "Cache iteration failed unexpectedly") /\
    (forall k v, ~ In (LRU.OpSet k v) ops).
Proof.
  intros V W JV options ops w0 c w HN Hr.
  destruct (LRUCalls.run_no_capacity options ops LRU.create w0 c w HN eq_refl Hr)
    as (El & Hw & Hops).
  repeat split; auto.
  intros k v. now apply LRUCalls.set_no_capacity.
Qed.

Lemma X7_no_capacity_no_entry_witness :
  LRU.entries (V := string) [] = [] /\ @nil (string * string) = [] /\
  (forall k (v : string),
      LRU.set {| LRU.maxSize := 0; LRU.onEvict := Some LRU.spy |} k v [] [] =
      LRU.Throw "Cache iteration failed unexpectedly") /\
  (forall k (v : string), ~ In (LRU.OpSet k v) [LRU.OpGet "a"; LRU.OpDelete "a"]).
Proof.
  apply (@X7_no_capacity_no_entry string (list (string * string)) _
           {| LRU.maxSize := 0; LRU.onEvict := Some LRU.spy |}
           [LRU.OpGet "a"; LRU.OpDelete "a"] [] [] []).
  - simpl. lia.
  - reflexivity.
Defined.

(** X8.  A [set(k, v)] that returns leaves the entry [(k, v)] at the young
    end of the cache: a [get(k)] right after it returns [v] and leaves the
    order of the entries as it is, and every other key still in the cache
    has the value it had. *)
Theorem X8_set_then_get :
  forall (V W : Type) (JV : LRU.JsValue V) (options : LRU.LRUCacheOptions V W)
         (c : LRU.cache) (w : W) (k : string) (v : V) (c' : LRU.cache) (w' : W),
    JsMap.wf c ->
    LRU.set options k v c w = LRU.Normal (c', w') ->
    JsMap.wf c' /\
    (exists others, LRU.entries c' = others ++ [(k, v)]) /\
    fst (LRU.get k c') = Some v /\
    LRU.entries (snd (LRU.get k c')) = LRU.entries c' /\
    (forall k', k' <> k -> JsMap.has k' c' = true ->
       JsMap.get k' c' = JsMap.get k' c).
Proof.
  intros V W JV options c w k v c' w' Hwf Hset.
  pose proof (LRUFacts.set_wf options k v c w c' w' Hwf Hset) as Hwf'.
  destruct (LRUCalls.set_form options k v c w c' w' Hwf Hset) as (d & -> & Hd & Hother).
  assert (Hg : JsMap.get k (JsMap.set k v d) = Some v) by apply JsMapFacts.get_set_same.
  split; [exact Hwf'|]. split; [|split; [|split]].
  - exists (JsMap.live d). unfold LRU.entries.
    now rewrite JsMapFacts.set_absent, JsMapFacts.live_app.
  - unfold LRU.get. rewrite Hg. now destruct (LRU.is_undefined v).
  - unfold LRU.get. rewrite Hg. destruct (LRU.is_undefined v); cbn [snd]; [reflexivity|].
    unfold LRU.entries.
    rewrite (JsMapFacts.set_absent k v d Hd).
    rewrite JsMapFacts.delete_app_absent by assumption. simpl.
    rewrite String.eqb_refl.
    rewrite JsMapFacts.set_absent
      by (rewrite JsMapFacts.has_app, Hd; reflexivity).
    rewrite !JsMapFacts.live_app. simpl. now rewrite List.app_nil_r.
  - intros k' Hne Hk'. rewrite JsMapFacts.get_set_other by assumption.
    apply Hother; [assumption|].
    rewrite JsMapFacts.has_set in Hk'.
    destruct (String.eqb_spec k k'); [congruence | exact Hk'].
Qed.

Lemma X8_set_then_get_witness :
  JsMap.wf (JsMap.set "c" "3" (JsMap.delete "a" [Some ("a", "1"); Some ("b", "2")])) /\
  (exists others,
      LRU.entries (JsMap.set "c" "3" (JsMap.delete "a" [Some ("a", "1"); Some ("b", "2")])) =
      others ++ [("c", "3")]) /\
  fst (LRU.get "c" (JsMap.set "c" "3" (JsMap.delete "a" [Some ("a", "1"); Some ("b", "2")]))) =
    Some "3" /\
  LRU.entries
    (snd (LRU.get "c" (JsMap.set "c" "3" (JsMap.delete "a" [Some ("a", "1"); Some ("b", "2")])))) =
    LRU.entries (JsMap.set "c" "3" (JsMap.delete "a" [Some ("a", "1"); Some ("b", "2")])) /\
  (forall k', k' <> "c" ->
     JsMap.has k' (JsMap.set "c" "3" (JsMap.delete "a" [Some ("a", "1"); Some ("b", "2")])) = true ->
     JsMap.get k' (JsMap.set "c" "3" (JsMap.delete "a" [Some ("a", "1"); Some ("b", "2")])) =
     JsMap.get k' [Some ("a", "1"); Some ("b", "2")]).
Proof.
  apply (@X8_set_then_get string (list (string * string)) _
           {| LRU.maxSize := 2; LRU.onEvict := Some LRU.spy |}
           [Some ("a", "1"); Some ("b", "2")] [] "c" "3" _ (LRU.spy "a" "1" [])).
  - unfold JsMap.wf. simpl.
    repeat (constructor; [simpl; intuition discriminate|]). constructor.
  - reflexivity.
Defined.

(** X9.  [clear] empties the cache and does not call the hook, and the
    cleared cache is as good as a new one: every sequence of calls ends on
    it as it ends on a newly constructed cache, with the same throw or
    with the same entries in the same order and the same calls of the
    hook. *)
Theorem X9_clear_is_like_new :
  forall (V W : Type) (JV : LRU.JsValue V) (options : LRU.LRUCacheOptions V W)
         (c : LRU.cache) (w : W),
    LRU.step options LRU.OpClear (c, w) = LRU.Normal (LRU.clear c, w) /\
    LRU.entries (LRU.clear c) = [] /\
    LRU.size (LRU.clear c) = 0%nat /\
    (forall k, fst (LRU.get k (LRU.clear c)) = None /\
               fst (LRU.has k (LRU.clear c)) = false) /\
    forall ops : list (LRU.Op V),
      match LRU.run options ops (LRU.clear c, w), LRU.run options ops (LRU.create, w) with
      | LRU.Normal (c1, w1), LRU.Normal (c2, w2) =>
          LRU.entries c1 = LRU.entries c2 /\ w1 = w2
      | LRU.Throw m1, LRU.Throw m2 => m1 = m2
      | _, _ => False
      end.
Proof.
  intros V W JV options c w.
  assert (El : LRU.entries (LRU.clear c) = []) by apply EntriesFacts.live_clear.
  split; [reflexivity|]. split; [exact El|]. split; [|split].
  - unfold LRU.size, JsMap.size. unfold LRU.entries in El. now rewrite El.
  - intros k. unfold LRU.get, LRU.has. cbn [fst].
    rewrite EntriesFacts.get_live, EntriesFacts.has_live.
    unfold LRU.entries in El. rewrite El. split; reflexivity.
  - intros ops. apply LRUCalls.run_entries. exact El.
Qed.

(** X10.  Reading the oldest entry saves it from the next eviction.  On
    a cache at capacity whose two oldest entries are [(k1, v1)] and
    [(k2, v2)], a [set] of a new key evicts [k1] and hands it to the hook;
    after a [get(k1)] the same [set] evicts [k2] instead, hands that to the
    hook, and [k1] stays, second youngest. *)
Theorem X10_get_protects_from_eviction :
  forall (V W : Type) (JV : LRU.JsValue V) (options : LRU.LRUCacheOptions V W)
         (c : LRU.cache) (w : W) (k1 k2 k : string) (v1 v2 v : V)
         (rest : list (string * V)),
    JsMap.wf c ->
    LRU.entries c = (k1, v1) :: (k2, v2) :: rest ->
    LRU.is_undefined v1 = false ->
    JsMap.has k c = false ->
    (LRU.maxSize options <= Z.of_nat (LRU.size c))%Z ->
    let called e ev :=
      match LRU.onEvict options with
      | Some hook => if LRU.is_undefined ev then w else hook e ev w
      | None => w
      end in
    (exists c',
        LRU.set options k v c w = LRU.Normal (c', called k1 v1) /\
        LRU.entries c' = (k2, v2) :: rest ++ [(k, v)]) /\
    (exists c',
        LRU.set options k v (snd (LRU.get k1 c)) w = LRU.Normal (c', called k2 v2) /\
        LRU.entries c' = rest ++ [(k1, v1); (k, v)]).
Proof.
  intros V W JV options c w k1 k2 k v1 v2 v rest Hwf El Hdef Hk Hfull called.
  split.
  - destruct (LRUFacts.set_full options k v c w k1 v1 ((k2, v2) :: rest) Hk)
      as (Es & El'); [unfold LRU.size in Hfull; lia | exact El |].
    eexists. split; [exact Es | exact El'].
  - assert (Hg : JsMap.get k1 c = Some v1).
    { rewrite EntriesFacts.get_live. unfold LRU.entries in El. rewrite El.
      simpl. now rewrite String.eqb_refl. }
    pose proof (JsMapFacts.get_Some_has _ _ _ Hg) as Hh.
    assert (Hn : ~ In k1 (List.map fst ((k2, v2) :: rest))).
    { unfold JsMap.wf in Hwf. unfold LRU.entries in El. rewrite El in Hwf.
      simpl in Hwf. now inversion Hwf. }
    set (c1 := JsMap.set k1 v1 (JsMap.delete k1 c)).
    assert (E1 : LRU.get k1 c = (Some v1, c1)).
    { unfold LRU.get. now rewrite Hg, Hdef. }
    assert (El1 : LRU.entries c1 = (k2, v2) :: rest ++ [(k1, v1)]).
    { unfold LRU.entries, c1 in *.
      rewrite EntriesFacts.live_set, EntriesFacts.live_delete, El.
      simpl. rewrite String.eqb_refl.
      now rewrite (EntriesFacts.update_absent k1 v1 _ Hn). }
    assert (Hk1 : JsMap.has k c1 = false).
    { unfold c1. now rewrite JsMapFacts.has_promote. }
    assert (Hsz : LRU.size c1 = LRU.size c).
    { unfold LRU.size, c1. now apply LRUCalls.size_promote. }
    rewrite E1. cbn [snd].
    destruct (LRUFacts.set_full options k v c1 w k2 v2 (rest ++ [(k1, v1)]) Hk1)
      as (Es & El'); [unfold LRU.size in *; lia | exact El1 |].
    eexists. split; [exact Es|]. rewrite El', <- List.app_assoc. reflexivity.
Qed.

Lemma X10_get_protects_from_eviction_witness :
  (exists c',
      LRU.set {| LRU.maxSize := 2; LRU.onEvict := Some LRU.spy |} "c" "3"
        [Some ("a", "1"); Some ("b", "2")] [] = LRU.Normal (c', [("a", "1")]) /\
      LRU.entries c' = ("b", "2") :: [] ++ [("c", "3")]) /\
  (exists c',
      LRU.set {| LRU.maxSize := 2; LRU.onEvict := Some LRU.spy |} "c" "3"
        (snd (LRU.get "a" [Some ("a", "1"); Some ("b", "2")])) [] =
        LRU.Normal (c', [("b", "2")]) /\
      LRU.entries c' = [] ++ [("a", "1"); ("c", "3")]).
Proof.
  refine (@X10_get_protects_from_eviction string (list (string * string)) _
            {| LRU.maxSize := 2; LRU.onEvict := Some LRU.spy |}
            [Some ("a", "1"); Some ("b", "2")] [] "a" "b" "c" "1" "2" "3" []
            _ eq_refl eq_refl eq_refl _).
  - unfold JsMap.wf. simpl.
    repeat (constructor; [simpl; intuition discriminate|]). constructor.
  - simpl. lia.
Defined.

(** * More facts about the server *)

Module ServerMore.
Import Server.
Local Open Scope Z_scope.

(** What is found in a map after a deletion was there before it. *)
Lemma get_delete_sub {V : Type} (k k0 : string) (x : V) (d : JsMap.t V) :
  JsMap.wf d -> JsMap.get k (JsMap.delete k0 d) = Some x -> JsMap.get k d = Some x.
Proof.
  intros Hwf Hg. destruct (String.eqb_spec k k0) as [->|Hne].
  - apply JsMapFacts.get_Some_has in Hg.
    now rewrite (JsMapFacts.wf_has_delete k0 d Hwf) in Hg.
  - now rewrite JsMapFacts.get_delete_other in Hg.
Qed.

(** The path test of the CORS middleware. *)
Lemma allowed_iff (requestPath : string) :
  Cors.isCorsAllowedPath requestPath = true <->
  requestPath = "/mcp" \/ exists rest, requestPath = ("/mcp/" ++ rest)%string.
Proof.
  unfold Cors.isCorsAllowedPath, Cors.CORS_ALLOWED_PATHS. cbn [List.existsb].
  rewrite orb_false_r. unfold Cors.matchesAllowedPathBoundary.
  destruct (String.eqb_spec requestPath "/mcp") as [->|Hne].
  - split; auto.
  - change (Cors.endsWith "/mcp" "/") with false. cbv iota.
    rewrite CorsFacts.startsWith_iff. change ("/mcp" ++ "/")%string with "/mcp/".
    split; [auto | intros [?|?]; [contradiction | assumption]].
Qed.

Section Facts.
Context {Payload : Type}.
Variable isInitializeRequest : Payload -> bool.
Variable closeBehaviour : Transport -> CloseOutcome.

(** [sessions.set] returns: a cache at the capacity of [MAX_SESSIONS]
    holds an entry to evict. *)
Lemma sessions_set_returns sid info (c : JsMap.t SessionInfo) calls :
  JsMap.wf c ->
  exists c' calls',
    LRU.set (sessionOptions closeBehaviour) sid info c calls = LRU.Normal (c', calls') /\
    JsMap.wf c' /\
    JsMap.get sid c' = Some info /\
    (forall k x, k <> sid -> JsMap.get k c' = Some x -> JsMap.get k c = Some x).
Proof.
  intros Hwf.
  destruct (LRU.set (sessionOptions closeBehaviour) sid info c calls)
    as [[c' calls']|m] eqn:Hset.
  - destruct (LRUCalls.set_form (sessionOptions closeBehaviour) sid info c calls c' calls'
                Hwf Hset) as (d & -> & Hd & Hother).
    do 2 eexists. split; [reflexivity|].
    split; [eapply LRUFacts.set_wf; eauto|].
    split; [apply JsMapFacts.get_set_same|].
    intros k x Hne Hg. rewrite JsMapFacts.get_set_other in Hg by assumption.
    rewrite <- Hother; auto. eapply JsMapFacts.get_Some_has; eauto.
  - exfalso. unfold LRU.set in Hset.
    destruct (JsMap.has sid c); [discriminate|].
    destruct (Z.geb_spec (Z.of_nat (JsMap.size c))
                (LRU.maxSize (sessionOptions closeBehaviour))) as [Hge|Hlt];
      [|discriminate].
    unfold JsMap.keys_next, JsMap.size in *. cbn in Hge. unfold MAX_SESSIONS in Hge.
    destruct (JsMap.live c) as [|[e ev] rest]; [simpl in Hge; lia | discriminate].
Qed.

(** An initiating POST in closed form. *)
Lemma post_initiate (req : Request Payload) now eng st sid :
  truthy (mcpSessionId req) = None ->
  isInitializeRequest (body req) = true ->
  connectFails eng = false -> initialized eng = Some sid ->
  JsMap.wf (sessions st) ->
  let t := {| transportId := created st; sessionId := Some sid |} in
  let info := {| transport := t; lastActivity := now |} in
  exists c' calls',
    LRU.set (sessionOptions closeBehaviour) sid info (sessions st) (closeCalls st) =
      LRU.Normal (c', calls') /\
    JsMap.wf c' /\ JsMap.get sid c' = Some info /\
    mcpPostHandler isInitializeRequest closeBehaviour req now eng st =
      tryCatch (engine_finish t eng) (fun _ => internalError "Internal server error")
        {| sessions := c'; closeCalls := calls';
           activityWrites := activityWrites st;
           created := S (created st); res := res st |}.
Proof.
  intros Ht Hi Hconn Hinit Hwf t info.
  destruct (sessions_set_returns sid info (sessions st) (closeCalls st) Hwf)
    as (c' & calls' & Hset & Hwf' & Hg' & _).
  exists c', calls'. split; [exact Hset|]. split; [exact Hwf'|]. split; [exact Hg'|].
  unfold mcpPostHandler. rewrite Ht. unfold tryCatch, bind at 1, ret.
  cbn [isSome negb andb]. rewrite Hi.
  unfold bind at 1, newTransport. unfold bind at 1, connect. rewrite Hconn.
  unfold ret, handleInitialize. rewrite Hinit.
  unfold bind, sessions_set. cbn [sessions closeCalls with_created created transportId].
  fold t. fold info. rewrite Hset. reflexivity.
Qed.

(** The sessions a dispatch leaves were there before it. *)
Lemma engine_finish_values t eng st k x :
  JsMap.wf (sessions st) ->
  JsMap.get k (sessions (snd (engine_finish t eng st))) = Some x ->
  JsMap.get k (sessions st) = Some x.
Proof.
  intros Hwf. rewrite ServerFacts.engine_finish_eq. cbn.
  destruct (closes eng); [|auto].
  destruct (truthy (sessionId t)); [|auto].
  now apply get_delete_sub.
Qed.

Lemma guarded_values t eng message st k x :
  JsMap.wf (sessions st) ->
  JsMap.get k (sessions (snd (tryCatch (engine_finish t eng)
                                (fun _ => internalError message) st))) = Some x ->
  JsMap.get k (sessions st) = Some x.
Proof.
  intros Hwf.
  change (engine_finish t eng) with (handleRequest t eng).
  rewrite ServerFacts.guarded_dispatch_eq. cbn [snd sessions].
  now apply engine_finish_values.
Qed.

Lemma onclose_values t st k x :
  JsMap.wf (sessions st) ->
  JsMap.get k (sessions (snd (transport_onclose t st))) = Some x ->
  JsMap.get k (sessions st) = Some x.
Proof.
  intros Hwf.
  unfold transport_onclose, bind, ret, sessions_has, sessions_delete,
    LRU.has, LRU.delete.
  destruct (truthy (sessionId t)) as [sid|]; cbn; [|auto].
  destruct (JsMap.has sid (sessions st)); cbn; [|auto].
  now apply get_delete_sub.
Qed.

(** Where the sessions of the cache come from: a session found after an
    event was there before it, up to its [lastActivity], or the event is a
    POST without a session key whose payload initiates, whose engine
    connected and announced the key, and the session holds the transport
    constructed for that POST. *)
Lemma after_origin (ev : Event (Payload := Payload)) st k x :
  JsMap.wf (sessions st) ->
  JsMap.get k (sessions (after isInitializeRequest closeBehaviour ev st)) = Some x ->
  (exists x0, JsMap.get k (sessions st) = Some x0 /\ transport x0 = transport x) \/
  ((exists req now eng,
       ev = Post req now eng /\ truthy (mcpSessionId req) = None /\
       isInitializeRequest (body req) = true /\
       connectFails eng = false /\ initialized eng = Some k) /\
   transport x = {| transportId := created st; sessionId := Some k |} /\
   (created st < created (after isInitializeRequest closeBehaviour ev st))%nat).
Proof.
  intros Hwf.
  assert (Hreuse : forall c' sid s now,
    JsMap.get sid (sessions st) = Some s ->
    JsMap.get sid c' = Some {| transport := transport s; lastActivity := now |} ->
    (forall k, k <> sid -> JsMap.get k c' = JsMap.get k (sessions st)) ->
    JsMap.get k c' = Some x ->
    exists x0, JsMap.get k (sessions st) = Some x0 /\ transport x0 = transport x).
  { intros c' sid s now Hg Hc1 Hc3 Hk.
    destruct (String.eqb_spec k sid) as [->|Hne].
    - rewrite Hc1 in Hk. injection Hk as <-. eauto.
    - rewrite Hc3 in Hk by assumption. eauto. }
  destruct ev as [req now eng|req now eng|req eng|now|t]; cbn [after].
  - (* POST *)
    destruct (truthy (mcpSessionId req)) as [sid|] eqn:Ht.
    + destruct (JsMap.get sid (sessions st)) as [s|] eqn:Hg.
      * destruct (ServerFacts.post_reuse isInitializeRequest closeBehaviour req now eng
                    (with_res freshResponse st) sid s Ht Hg)
          as (c' & Hc0 & Hc1 & _ & Hc3 & ->).
        intros Hk. apply guarded_values in Hk.
        -- left. eapply Hreuse; eauto.
        -- cbn. exact (Hc0 _ ServerFacts.maintained_wf Hwf).
      * apply JsMapFacts.get_None in Hg.
        rewrite (ServerFacts.post_unknown_key isInitializeRequest closeBehaviour req now eng
                   (with_res freshResponse st) sid Ht Hg).
        cbn. eauto.
    + destruct (isInitializeRequest (body req)) eqn:Hi.
      * destruct (connectFails eng) eqn:Hconn.
        { unfold mcpPostHandler. rewrite Ht. unfold tryCatch, bind at 1, ret.
          cbn [isSome negb andb]. rewrite Hi.
          unfold bind at 1, newTransport. unfold bind at 1, connect. rewrite Hconn.
          unfold throw. rewrite ServerFacts.internalError_sessions. cbn. eauto. }
        destruct (initialized eng) as [sid|] eqn:Hinit.
        -- destruct (post_initiate req now eng (with_res freshResponse st) sid
                       Ht Hi Hconn Hinit Hwf) as (c' & calls' & Hset & _ & _ & ->).
           cbn [sessions closeCalls with_res created] in Hset.
           destruct (sessions_set_returns sid
                       {| transport := {| transportId := created st; sessionId := Some sid |};
                          lastActivity := now |}
                       (sessions st) (closeCalls st) Hwf)
             as (c1 & calls1 & Hset1 & Hwf1 & Hg1 & Hother).
           rewrite Hset in Hset1. injection Hset1 as <- <-.
           intros Hk. apply guarded_values in Hk; [|exact Hwf1]. cbn in Hk.
           destruct (String.eqb_spec k sid) as [->|Hne].
           ++ right. rewrite Hg1 in Hk. injection Hk as <-.
              split; [exists req, now, eng; auto|]. split; [reflexivity|].
              match goal with
              | |- context [engine_finish ?t eng] =>
                  change (engine_finish t eng) with (handleRequest t eng)
              end.
              rewrite ServerFacts.guarded_dispatch_eq. cbn. lia.
           ++ left. eauto.
        -- unfold mcpPostHandler. rewrite Ht. unfold tryCatch at 1, bind at 1, ret.
           cbn [isSome negb andb]. rewrite Hi.
           unfold bind at 1, newTransport. unfold bind at 1, connect. rewrite Hconn.
           unfold ret, handleInitialize. rewrite Hinit.
           match goal with
           | |- context [engine_finish ?t ?e ?s] =>
               pose proof (engine_finish_values t e s k x) as Hf;
               destruct (engine_finish t e s) as [[[]|e'] st2]
           end; cbn [snd] in Hf |- *; rewrite ?ServerFacts.internalError_sessions;
             intros Hk; apply Hf in Hk; cbn in *; eauto.
      * rewrite (ServerFacts.post_no_key isInitializeRequest closeBehaviour req now eng
                   (with_res freshResponse st) Ht Hi).
        cbn. eauto.
  - (* GET *)
    destruct (truthy (mcpSessionId req)) as [sid|] eqn:Ht.
    + destruct (JsMap.get sid (sessions st)) as [s|] eqn:Hg.
      * destruct (ServerFacts.get_reuse closeBehaviour req now eng
                    (with_res freshResponse st) sid s Ht Hg)
          as (c' & Hc0 & Hc1 & _ & Hc3 & ->).
        intros Hk. apply engine_finish_values in Hk.
        -- left. eapply Hreuse; eauto.
        -- cbn. exact (Hc0 _ ServerFacts.maintained_wf Hwf).
      * apply JsMapFacts.get_None in Hg.
        rewrite (ServerFacts.get_unknown_key closeBehaviour req now eng
                   (with_res freshResponse st) sid Ht Hg).
        cbn. eauto.
    + rewrite (ServerFacts.get_no_key closeBehaviour req now eng
                 (with_res freshResponse st) Ht).
      cbn. eauto.
  - (* DELETE *)
    destruct (truthy (mcpSessionId req)) as [sid|] eqn:Ht.
    + destruct (JsMap.get sid (sessions st)) as [s|] eqn:Hg.
      * rewrite (ServerFacts.delete_reuse req eng (with_res freshResponse st) sid s Ht Hg).
        intros Hk. apply guarded_values in Hk.
        -- cbn in Hk. left. destruct (String.eqb_spec k sid) as [->|Hne].
           ++ rewrite JsMapFacts.get_set_same in Hk. injection Hk as <-. eauto.
           ++ rewrite JsMapFacts.get_promote_other in Hk by assumption. eauto.
        -- cbn. now apply JsMapFacts.wf_promote.
      * apply JsMapFacts.get_None in Hg.
        rewrite (ServerFacts.delete_unknown_key req eng (with_res freshResponse st) sid Ht Hg).
        cbn. eauto.
    + rewrite (ServerFacts.delete_no_key req eng (with_res freshResponse st) Ht).
      cbn. eauto.
  - (* the sweep *)
    destruct (ServerFacts.sweep_spec closeBehaviour now st Hwf) as (c' & -> & Hl).
    cbn [sessions]. intros Hk. left. exists x. split; [|reflexivity].
    apply JsMapFacts.get_In in Hk. rewrite Hl in Hk.
    apply List.filter_In in Hk. now apply JsMapFacts.wf_In_get.
  - (* a closure *)
    intros Hk. apply onclose_values in Hk; eauto.
Qed.

Lemma after_values (ev : Event (Payload := Payload)) st k x :
  JsMap.wf (sessions st) ->
  JsMap.get k (sessions (after isInitializeRequest closeBehaviour ev st)) = Some x ->
  (exists x0, JsMap.get k (sessions st) = Some x0 /\ transport x0 = transport x) \/
  (announces ev = Some k /\
   transport x = {| transportId := created st; sessionId := Some k |} /\
   (created st < created (after isInitializeRequest closeBehaviour ev st))%nat).
Proof.
  intros Hwf Hk.
  destruct (after_origin ev st k x Hwf Hk)
    as [H|((req & now & eng & -> & _ & _ & _ & Hinit) & Ht & Hc)]; [auto|].
  right. auto.
Qed.

(** Every session of a reached state goes back to the POST that
    initiated it. *)
Lemma afterAll_origin (evs : list (Event (Payload := Payload))) : forall st k x,
  JsMap.wf (sessions st) ->
  JsMap.get k (sessions (afterAll isInitializeRequest closeBehaviour evs st)) = Some x ->
  (exists x0, JsMap.get k (sessions st) = Some x0 /\ transport x0 = transport x) \/
  exists req now eng,
    In (Post req now eng) evs /\ truthy (mcpSessionId req) = None /\
    isInitializeRequest (body req) = true /\
    connectFails eng = false /\ initialized eng = Some k.
Proof.
  unfold afterAll.
  induction evs as [|ev evs IH]; intros st k x Hwf Hk; simpl in Hk; [eauto|].
  apply IH in Hk;
    [|now apply (ServerFacts.after_kept isInitializeRequest closeBehaviour _
                   ServerFacts.maintained_wf)].
  destruct Hk as [(x1 & Hk1 & E1)|(req & now & eng & Hin & H)].
  - destruct (after_origin ev st k x1 Hwf Hk1)
      as [(x0 & Hk0 & E0)|((req & now & eng & -> & H) & _)].
    + left. exists x0. split; [exact Hk0 | congruence].
    + right. exists req, now, eng. split; [simpl; auto | exact H].
  - right. exists req, now, eng. split; [simpl; auto | exact H].
Qed.

Lemma after_keyed (ev : Event (Payload := Payload)) st :
  JsMap.wf (sessions st) -> keyed (sessions st) ->
  keyed (sessions (after isInitializeRequest closeBehaviour ev st)).
Proof.
  intros Hwf Hkeyed k x Hk.
  destruct (after_values ev st k x Hwf Hk) as [(x0 & Hg & <-)|(_ & -> & _)];
    [|reflexivity].
  exact (Hkeyed k x0 Hg).
Qed.

Lemma reachable_keyed (evs : list (Event (Payload := Payload))) :
  keyed (sessions (afterAll isInitializeRequest closeBehaviour evs initialState)).
Proof.
  unfold afterAll.
  assert (H : forall st, JsMap.wf (sessions st) -> keyed (sessions st) ->
                keyed (sessions (List.fold_left
                  (fun s ev => after isInitializeRequest closeBehaviour ev s) evs st))).
  { induction evs as [|ev evs IH]; intros st Hwf Hkeyed; simpl; [assumption|].
    apply IH.
    - now apply (ServerFacts.after_kept isInitializeRequest closeBehaviour _
                   ServerFacts.maintained_wf).
    - now apply after_keyed. }
  apply H; [constructor | intros k x; discriminate].
Qed.

End Facts.

Section ShutdownFacts.
Variable closeBehaviour : Transport -> CloseOutcome.
Variable closeSignals : Transport -> bool.

(** Closing the session at a known record of the map: the call is made,
    and the record is emptied or left as it is. *)
Lemma closeQuietly_at k s pre rest st :
  sessions st = pre ++ Some (k, s) :: rest ->
  JsMap.has k pre = false ->
  sessionId (transport s) = Some k ->
  exists e,
    (e = None \/ e = Some (k, s)) /\
    closeQuietly closeBehaviour closeSignals (transport s) st =
      {| sessions := pre ++ e :: rest;
         closeCalls := closeCalls st ++ [transport s];
         activityWrites := activityWrites st;
         created := created st; res := res st |}.
Proof.
  intros Hc Hpre Hkey. unfold closeQuietly, transport_close. cbn [snd].
  destruct (closeSignals (transport s)).
  - unfold transport_onclose. rewrite Hkey. unfold truthy.
    destruct (String.eqb k "").
    + exists (Some (k, s)). split; [auto|]. cbn. rewrite <- Hc. now destruct st.
    + unfold bind, ret, sessions_has, sessions_delete, LRU.has, LRU.delete.
      cbn [sessions with_closeCalls with_sessions fst snd].
      assert (Hh : JsMap.has k (sessions st) = true).
      { rewrite Hc, JsMapFacts.has_app, Hpre. simpl. now rewrite String.eqb_refl. }
      rewrite Hh. cbn.
      exists None. split; [auto|].
      rewrite Hc, JsMapFacts.delete_app_absent by assumption.
      simpl. now rewrite String.eqb_refl.
  - exists (Some (k, s)). split; [auto|]. cbn. rewrite <- Hc. now destruct st.
Qed.

(** The loop from a position on: every session still to visit is closed,
    in order. *)
Lemma shutdownFrom_spec rest : forall pre st fuel,
  sessions st = pre ++ rest ->
  NoDup (List.map fst (JsMap.live (pre ++ rest))) ->
  Forall (fun e => sessionId (transport (snd e)) = Some (fst e)) (JsMap.live rest) ->
  (List.length rest < fuel)%nat ->
  exists st',
    shutdownFrom closeBehaviour closeSignals fuel (List.length pre) st = Some st' /\
    closeCalls st' =
      closeCalls st ++ List.map (fun e => transport (snd e)) (JsMap.live rest) /\
    activityWrites st' = activityWrites st /\
    created st' = created st /\ res st' = res st.
Proof.
  induction rest as [|[[k s]|] rest IH]; intros pre st fuel Hc Hwf Hkeyed Hf;
    (destruct fuel as [|fuel]; [simpl in Hf; lia|]); cbn [shutdownFrom].
  - rewrite Hc, List.app_nil_r.
    rewrite (proj2 (List.nth_error_None pre (List.length pre)) (Nat.le_refl _)).
    exists st. rewrite List.app_nil_r. auto.
  - assert (Hnth : nth_error (sessions st) (List.length pre) = Some (Some (k, s))).
    { rewrite Hc, List.nth_error_app2, Nat.sub_diag by lia. reflexivity. }
    rewrite Hnth.
    rewrite JsMapFacts.live_app in Hwf. simpl in Hwf. rewrite List.map_app in Hwf.
    simpl in Hwf.
    assert (Hpre : JsMap.has k pre = false).
    { apply JsMapFacts.has_false_In. intros Hin.
      apply NoDup_remove_2 in Hwf. apply Hwf, List.in_or_app. auto. }
    simpl in Hkeyed. inversion Hkeyed as [|? ? Hkey Hkeyed']; subst. simpl in Hkey.
    destruct (closeQuietly_at k s pre rest st Hc Hpre Hkey) as (e & He & ->).
    replace (S (List.length pre)) with (List.length (pre ++ [e]))
      by (rewrite List.length_app; simpl; lia).
    edestruct (IH (pre ++ [e])) as (st' & Hs & Hcalls & Hw & Hn & Hr);
      [ | | | | exists st'; split; [exact Hs|] ].
    + cbn [sessions]. now rewrite <- List.app_assoc.
    + rewrite <- List.app_assoc. simpl.
      rewrite JsMapFacts.live_app, List.map_app.
      destruct He as [->| ->]; simpl.
      * now apply NoDup_remove_1 in Hwf.
      * exact Hwf.
    + exact Hkeyed'.
    + simpl in Hf. lia.
    + cbn in Hcalls, Hw, Hn, Hr. rewrite Hcalls, <- List.app_assoc. simpl. auto.
  - assert (Hnth : nth_error (sessions st) (List.length pre) = Some None).
    { rewrite Hc, List.nth_error_app2, Nat.sub_diag by lia. reflexivity. }
    rewrite Hnth.
    replace (S (List.length pre)) with (List.length (pre ++ [None]))
      by (rewrite List.length_app; simpl; lia).
    apply IH.
    + now rewrite Hc, <- List.app_assoc.
    + now rewrite <- List.app_assoc.
    + exact Hkeyed.
    + simpl in Hf. lia.
Qed.

Lemma shutdown_spec st :
  JsMap.wf (sessions st) -> keyed (sessions st) ->
  exists st',
    shutdown closeBehaviour closeSignals st = Some st' /\
    closeCalls st' =
      closeCalls st ++ List.map (fun e => transport (snd e)) (JsMap.live (sessions st)) /\
    JsMap.live (sessions st') = [] /\
    activityWrites st' = activityWrites st /\
    created st' = created st /\ res st' = res st.
Proof.
  intros Hwf Hkeyed. unfold shutdown.
  destruct (shutdownFrom_spec (sessions st) [] st (S (List.length (sessions st))))
    as (st' & Hs & Hcalls & Hw & Hn & Hr); [reflexivity | exact Hwf | | lia |].
  - apply Forall_forall. intros [k s] Hin. cbn [fst snd].
    apply Hkeyed. now apply JsMapFacts.wf_In_get.
  - cbn [List.length] in Hs. rewrite Hs.
    eexists. split; [reflexivity|]. cbn. unfold LRU.clear.
    rewrite EntriesFacts.live_clear. auto.
Qed.

End ShutdownFacts.

End ServerMore.

(** * More about the server *)

Section ServerLifecycle.
Import Server.
Local Open Scope Z_scope.

(** X11.  A request that bears a non-empty Origin header, on the path
    ["/mcp"] or below it: the middleware sets the four cross-origin
    headers, [Access-Control-Allow-Origin] being the origin of the request
    as it came; it answers an OPTIONS request 204 with no body and hands
    every other request on.  On any other path it sets no header, answers
    403 whatever the method, and hands nothing on. *)
Theorem X11_cors_with_origin :
  forall (Payload : Type) (req : Request Payload) (r : Response) (o : string),
    origin req = Some o -> o <> "" ->
    let out := corsMiddleware req r in
    let allowed :=
      path req = "/mcp" \/ exists rest, path req = ("/mcp/" ++ rest)%string in
    (allowed ->
     headers (snd out) =
       headers r ++
       [("Access-Control-Allow-Origin", o);
        ("Access-Control-Allow-Methods", "GET, POST, DELETE, OPTIONS");
        ("Access-Control-Allow-Headers", "Content-Type, mcp-session-id");
        ("Access-Control-Max-Age", "86400")] /\
     (method req = "OPTIONS" ->
      fst out = Ended /\ written (snd out) = written r ++ [(204, NoBody)]) /\
     (method req <> "OPTIONS" ->
      fst out = Next /\ written (snd out) = written r /\
      headersSent (snd out) = headersSent r)) /\
    (~ allowed ->
     fst out = Ended /\ headers (snd out) = headers r /\
     written (snd out) =
       written r ++ [(403, ErrorMessage "Cross-origin requests not allowed")]).
Proof.
  intros Payload req r o Ho Hne out allowed. subst out.
  assert (Ht : truthy (origin req) = Some o) by (apply ServerFacts.truthy_Some; auto).
  unfold corsMiddleware. rewrite Ht.
  pose proof (ServerMore.allowed_iff (path req)) as Ha. fold allowed in Ha.
  split.
  - intros Hal. rewrite (proj2 Ha Hal).
    destruct (String.eqb_spec (method req) "OPTIONS") as [Hm|Hm]; cbn.
    + rewrite <- !List.app_assoc. cbn.
      split; [reflexivity|]. split; [auto | intros H; contradiction].
    + rewrite <- !List.app_assoc. cbn.
      split; [reflexivity|]. split; [intros H; contradiction | auto].
  - intros Hnal. destruct (Cors.isCorsAllowedPath (path req)).
    + exfalso. apply Hnal, Ha. reflexivity.
    + cbn. auto.
Qed.

Lemma X11_cors_with_origin_witness :
  let req := {| method := "OPTIONS"; path := "/mcp"; origin := Some "https://example.com";
                mcpSessionId := None; body := "" |} in
  let out := corsMiddleware req freshResponse in
  let allowed :=
    path req = "/mcp" \/ exists rest, path req = ("/mcp/" ++ rest)%string in
  (allowed ->
   headers (snd out) =
     headers freshResponse ++
     [("Access-Control-Allow-Origin", "https://example.com");
      ("Access-Control-Allow-Methods", "GET, POST, DELETE, OPTIONS");
      ("Access-Control-Allow-Headers", "Content-Type, mcp-session-id");
      ("Access-Control-Max-Age", "86400")] /\
   (method req = "OPTIONS" ->
    fst out = Ended /\ written (snd out) = written freshResponse ++ [(204, NoBody)]) /\
   (method req <> "OPTIONS" ->
    fst out = Next /\ written (snd out) = written freshResponse /\
    headersSent (snd out) = headersSent freshResponse)) /\
  (~ allowed ->
   fst out = Ended /\ headers (snd out) = headers freshResponse /\
   written (snd out) =
     written freshResponse ++ [(403, ErrorMessage "Cross-origin requests not allowed")]).
Proof.
  apply (X11_cors_with_origin string
           {| method := "OPTIONS"; path := "/mcp"; origin := Some "https://example.com";
              mcpSessionId := None; body := "" |} freshResponse "https://example.com").
  - reflexivity.
  - discriminate.
Defined.


(** X13.  A POST without a session key whose payload initiates, and whose
    engine connects, establishes the session id [sid] and does not close:
    one transport is constructed and the session is in the cache under
    [sid], with that transport and the time of the request.  A GET or a
    POST that then bears [sid] is not rejected: it refreshes the session
    and is handed to that same transport. *)
Theorem X13_established_session_is_reused :
  forall (Payload : Type) (isInitializeRequest : Payload -> bool)
         (closeBehaviour : Transport -> CloseOutcome)
         (history : list (Event (Payload := Payload)))
         (req : Request Payload) (now : Z) (eng : Engine) (sid : string),
    let st := afterAll isInitializeRequest closeBehaviour history initialState in
    mcpSessionId req = None \/ mcpSessionId req = Some "" ->
    isInitializeRequest (body req) = true ->
    connectFails eng = false -> initialized eng = Some sid -> closes eng = false ->
    let t := {| transportId := created st; sessionId := Some sid |} in
    let st1 := after isInitializeRequest closeBehaviour (Post req now eng) st in
    JsMap.get sid (sessions st1) = Some {| transport := t; lastActivity := now |} /\
    created st1 = S (created st) /\
    (sid <> "" ->
     forall (req' : Request Payload) (now' : Z) (eng' : Engine) (r : Response),
       mcpSessionId req' = Some sid ->
       (exists st2,
           mcpGetHandler closeBehaviour req' now' eng' (with_res r st1) =
             handleRequest t eng' st2 /\
           JsMap.get sid (sessions st2) =
             Some {| transport := t; lastActivity := now' |} /\
           activityWrites st2 = activityWrites st1 ++ [(sid, now')] /\
           closeCalls st2 = closeCalls st1 /\ res st2 = r) /\
       (exists st2,
           mcpPostHandler isInitializeRequest closeBehaviour req' now' eng'
             (with_res r st1) =
             tryCatch (handleRequest t eng')
               (fun _ => internalError "Internal server error") st2 /\
           JsMap.get sid (sessions st2) =
             Some {| transport := t; lastActivity := now' |} /\
           activityWrites st2 = activityWrites st1 ++ [(sid, now')] /\
           closeCalls st2 = closeCalls st1 /\ res st2 = r)).
Proof.
  intros Payload isInit cb history req now eng sid st Hs Hi Hconn Hinit Hcl t st1.
  pose proof (ServerFacts.reachable_wf isInit cb history) as Hwf. fold st in Hwf.
  apply ServerFacts.truthy_None in Hs.
  destruct (ServerMore.post_initiate isInit cb req now eng (with_res freshResponse st) sid
              Hs Hi Hconn Hinit Hwf) as (c' & calls' & _ & _ & Hg & Hpost).
  cbn [created with_res] in Hg, Hpost. fold t in Hg, Hpost.
  assert (Hst1 : sessions st1 = c' /\ created st1 = S (created st)).
  { unfold st1. cbn [after]. rewrite Hpost.
    change (engine_finish t eng) with (handleRequest t eng).
    rewrite ServerFacts.guarded_dispatch_eq, ServerFacts.engine_finish_eq, Hcl.
    cbn. auto. }
  destruct Hst1 as [Hc Hn].
  split; [now rewrite Hc|]. split; [exact Hn|].
  intros Hne req' now' eng' r Hs'.
  assert (Ht : truthy (mcpSessionId req') = Some sid)
    by (apply ServerFacts.truthy_Some; auto).
  assert (Hg1 : JsMap.get sid (sessions (with_res r st1)) =
                Some {| transport := t; lastActivity := now |})
    by (cbn [sessions with_res]; now rewrite Hc).
  split.
  - destruct (ServerFacts.get_reuse cb req' now' eng' (with_res r st1) sid _ Ht Hg1)
      as (c2 & _ & Hc2 & _ & _ & E).
    eexists. split; [exact E|]. cbn. auto.
  - destruct (ServerFacts.post_reuse isInit cb req' now' eng' (with_res r st1) sid _ Ht Hg1)
      as (c2 & _ & Hc2 & _ & _ & E).
    eexists. split; [exact E|]. cbn. auto.
Qed.

Lemma X13_established_session_is_reused_witness :
  let st := afterAll Samples.isInitialize Samples.closesFine [] initialState in
  let t := {| transportId := created st; sessionId := Some "s1" |} in
  let st1 :=
    after Samples.isInitialize Samples.closesFine
      (Post (Samples.request "POST" None "initialize") 0 (Samples.establishes "s1")) st in
  JsMap.get "s1" (sessions st1) = Some {| transport := t; lastActivity := 0 |} /\
  created st1 = S (created st) /\
  ("s1" <> "" ->
   forall (req' : Request string) (now' : Z) (eng' : Engine) (r : Response),
     mcpSessionId req' = Some "s1" ->
     (exists st2,
         mcpGetHandler Samples.closesFine req' now' eng' (with_res r st1) =
           handleRequest t eng' st2 /\
         JsMap.get "s1" (sessions st2) =
           Some {| transport := t; lastActivity := now' |} /\
         activityWrites st2 = activityWrites st1 ++ [("s1", now')] /\
         closeCalls st2 = closeCalls st1 /\ res st2 = r) /\
     (exists st2,
         mcpPostHandler Samples.isInitialize Samples.closesFine req' now' eng'
           (with_res r st1) =
           tryCatch (handleRequest t eng')
             (fun _ => internalError "Internal server error") st2 /\
         JsMap.get "s1" (sessions st2) =
           Some {| transport := t; lastActivity := now' |} /\
         activityWrites st2 = activityWrites st1 ++ [("s1", now')] /\
         closeCalls st2 = closeCalls st1 /\ res st2 = r)).
Proof.
  apply (X13_established_session_is_reused string Samples.isInitialize Samples.closesFine
           [] (Samples.request "POST" None "initialize") 0 (Samples.establishes "s1") "s1");
    first [reflexivity | left; reflexivity].
Defined.

(** X14.  When the engine of a session in the cache announces that it
    has closed, the session leaves the cache: no [close] is called, the
    other sessions stay as they are, and from then on, as long as no
    engine announces that session id again, each of the three handlers
    answers a request bearing the key 404. *)
Theorem X14_closed_engine_is_forgotten :
  forall (Payload : Type) (isInitializeRequest : Payload -> bool)
         (closeBehaviour : Transport -> CloseOutcome)
         (history : list (Event (Payload := Payload)))
         (sid : string) (s : SessionInfo),
    let st := afterAll isInitializeRequest closeBehaviour history initialState in
    JsMap.get sid (sessions st) = Some s ->
    sid <> "" ->
    let st1 := after isInitializeRequest closeBehaviour (Closed (transport s)) st in
    JsMap.has sid (sessions st1) = false /\
    (forall k, k <> sid -> JsMap.get k (sessions st1) = JsMap.get k (sessions st)) /\
    closeCalls st1 = closeCalls st /\
    forall (evs : list (Event (Payload := Payload))),
      Forall (fun ev => announces ev <> Some sid) evs ->
      forall (req : Request Payload) (now' : Z) (eng : Engine) (r : Response),
        mcpSessionId req = Some sid ->
        let st2 :=
          with_res r (afterAll isInitializeRequest closeBehaviour evs st1) in
        mcpPostHandler isInitializeRequest closeBehaviour req now' eng st2 =
          res_send 404
            (JsonRpcError JSONRPC_ERROR_INVALID_REQUEST "Session not found") st2 /\
        mcpGetHandler closeBehaviour req now' eng st2 =
          res_send 404
            (JsonRpcError JSONRPC_ERROR_INVALID_REQUEST "Session not found") st2 /\
        mcpDeleteHandler req eng st2 =
          res_send 404
            (JsonRpcError JSONRPC_ERROR_INVALID_REQUEST "Session not found") st2.
Proof.
  intros Payload isInit cb history sid s st Hg Hne st1.
  pose proof (ServerFacts.reachable_wf isInit cb history) as Hwf.
  pose proof (ServerMore.reachable_keyed isInit cb history) as Hkeyed.
  fold st in Hwf, Hkeyed.
  pose proof (Hkeyed sid s Hg) as Hkey.
  assert (Hst1 : st1 = with_sessions (JsMap.delete sid (sessions st)) st).
  { unfold st1. cbn [after]. unfold transport_onclose. rewrite Hkey.
    rewrite (proj2 (ServerFacts.truthy_Some (Some sid) sid) (conj eq_refl Hne)).
    unfold bind, ret, sessions_has, sessions_delete, LRU.has, LRU.delete.
    rewrite (JsMapFacts.get_Some_has _ _ _ Hg). reflexivity. }
  assert (Hgone : JsMap.has sid (sessions st1) = false).
  { rewrite Hst1. cbn. now apply JsMapFacts.wf_has_delete. }
  split; [exact Hgone|]. split; [|split].
  - intros k Hk. rewrite Hst1. cbn. now apply JsMapFacts.get_delete_other.
  - now rewrite Hst1.
  - intros evs Hevs req now' eng r Hs'. cbv zeta.
    assert (Ht : truthy (mcpSessionId req) = Some sid)
      by (apply ServerFacts.truthy_Some; auto).
    assert (Habs : JsMap.has sid (sessions (with_res r (afterAll isInit cb evs st1))) = false).
    { cbn [sessions with_res]. apply ServerFacts.afterAll_absent; assumption. }
    split; [|split].
    + now apply ServerFacts.post_unknown_key with (sid := sid).
    + now apply ServerFacts.get_unknown_key with (sid := sid).
    + now apply ServerFacts.delete_unknown_key with (sid := sid).
Qed.

Lemma X14_closed_engine_is_forgotten_witness :
  let st :=
    afterAll Samples.isInitialize Samples.closesFine
      [Post (Samples.request "POST" None "initialize") 0 (Samples.establishes "s1")]
      initialState in
  let st1 :=
    after Samples.isInitialize Samples.closesFine
      (Closed (transport Samples.session1)) st in
  JsMap.has "s1" (sessions st1) = false /\
  (forall k, k <> "s1" -> JsMap.get k (sessions st1) = JsMap.get k (sessions st)) /\
  closeCalls st1 = closeCalls st /\
  forall (evs : list (Event (Payload := string))),
    Forall (fun ev => announces ev <> Some "s1") evs ->
    forall (req : Request string) (now' : Z) (eng : Engine) (r : Response),
      mcpSessionId req = Some "s1" ->
      let st2 :=
        with_res r (afterAll Samples.isInitialize Samples.closesFine evs st1) in
      mcpPostHandler Samples.isInitialize Samples.closesFine req now' eng st2 =
        res_send 404
          (JsonRpcError JSONRPC_ERROR_INVALID_REQUEST "Session not found") st2 /\
      mcpGetHandler Samples.closesFine req now' eng st2 =
        res_send 404
          (JsonRpcError JSONRPC_ERROR_INVALID_REQUEST "Session not found") st2 /\
      mcpDeleteHandler req eng st2 =
        res_send 404
          (JsonRpcError JSONRPC_ERROR_INVALID_REQUEST "Session not found") st2.
Proof.
  apply (X14_closed_engine_is_forgotten string Samples.isInitialize Samples.closesFine
           [Post (Samples.request "POST" None "initialize") 0 (Samples.establishes "s1")]
           "s1" Samples.session1).
  - reflexivity.
  - discriminate.
Defined.

(** X15.  A DELETE bearing the key of a session in the cache is handed
    to the engine of that session and ends the session through it: the
    handler calls no [close], constructs nothing and refreshes nothing,
    and afterwards the session is out of the cache exactly when the engine
    has announced its closure.  The handler writes a response of its own,
    the 500 "Error processing session termination", exactly when the
    engine throws before it has started the response. *)
Theorem X15_delete_ends_through_the_engine :
  forall (Payload : Type) (isInitializeRequest : Payload -> bool)
         (closeBehaviour : Transport -> CloseOutcome)
         (history : list (Event (Payload := Payload)))
         (req : Request Payload) (eng : Engine) (sid : string) (s : SessionInfo),
    let st := afterAll isInitializeRequest closeBehaviour history initialState in
    JsMap.get sid (sessions st) = Some s ->
    mcpSessionId req = Some sid -> sid <> "" ->
    let st1 := after isInitializeRequest closeBehaviour (Delete req eng) st in
    JsMap.has sid (sessions st1) = negb (closes eng) /\
    (forall k, k <> sid -> JsMap.get k (sessions st1) = JsMap.get k (sessions st)) /\
    closeCalls st1 = closeCalls st /\
    activityWrites st1 = activityWrites st /\
    created st1 = created st /\
    written (res st1) =
      if throws eng && negb (commits eng)
      then [(500, JsonRpcError JSONRPC_ERROR_INTERNAL
                    "Error processing session termination")]
      else [].
Proof.
  intros Payload isInit cb history req eng sid s st Hg Hs Hne st1.
  pose proof (ServerFacts.reachable_wf isInit cb history) as Hwf.
  pose proof (ServerMore.reachable_keyed isInit cb history) as Hkeyed.
  fold st in Hwf, Hkeyed.
  pose proof (Hkeyed sid s Hg) as Hkey.
  assert (Ht : truthy (mcpSessionId req) = Some sid)
    by (apply ServerFacts.truthy_Some; auto).
  assert (Hts : truthy (sessionId (transport s)) = Some sid).
  { rewrite Hkey. apply ServerFacts.truthy_Some. auto. }
  pose proof (JsMapFacts.get_Some_has _ _ _ Hg) as Hh.
  unfold st1. cbn [after].
  rewrite (ServerFacts.delete_reuse req eng (with_res freshResponse st) sid s Ht Hg).
  rewrite ServerFacts.guarded_dispatch_eq, ServerFacts.engine_finish_eq.
  cbn. rewrite Hts.
  split; [|split; [|split; [|split; [|split]]]]; auto.
  - destruct (closes eng); cbn.
    + apply JsMapFacts.wf_has_delete. now apply JsMapFacts.wf_promote.
    + now rewrite JsMapFacts.has_promote.
  - intros k Hk. destruct (closes eng).
    + rewrite JsMapFacts.get_delete_other by assumption.
      now apply JsMapFacts.get_promote_other.
    + now apply JsMapFacts.get_promote_other.
  - destruct (throws eng), (commits eng); reflexivity.
Qed.

Lemma X15_delete_ends_through_the_engine_witness :
  let st :=
    afterAll Samples.isInitialize Samples.closesFine
      [Post (Samples.request "POST" None "initialize") 0 (Samples.establishes "s1")]
      initialState in
  let eng := {| connectFails := false; initialized := None; closes := true;
                commits := true; throws := false |} in
  let st1 :=
    after Samples.isInitialize Samples.closesFine
      (Delete (Samples.request "DELETE" (Some "s1") "") eng) st in
  JsMap.has "s1" (sessions st1) = negb (closes eng) /\
  (forall k, k <> "s1" -> JsMap.get k (sessions st1) = JsMap.get k (sessions st)) /\
  closeCalls st1 = closeCalls st /\
  activityWrites st1 = activityWrites st /\
  created st1 = created st /\
  written (res st1) =
    if throws eng && negb (commits eng)
    then [(500, JsonRpcError JSONRPC_ERROR_INTERNAL
                  "Error processing session termination")]
    else [].
Proof.
  apply (X15_delete_ends_through_the_engine string Samples.isInitialize Samples.closesFine
           [Post (Samples.request "POST" None "initialize") 0 (Samples.establishes "s1")]
           (Samples.request "DELETE" (Some "s1") "")
           {| connectFails := false; initialized := None; closes := true;
              commits := true; throws := false |}
           "s1" Samples.session1).
  - reflexivity.
  - reflexivity.
  - discriminate.
Defined.

(** X16.  Use defers the sweep, termination requests do not.  After a GET
    or a POST at time [t] on a session in the cache, with an engine that
    does not close, a sweep at any time up to and including
    [t + SESSION_IDLE_TIMEOUT_MS] keeps the session, with [lastActivity]
    equal to [t].  A DELETE whose engine does not close leaves
    [lastActivity] as it was, so a sweep that finds the session idle by
    that older time still removes it. *)
Theorem X16_activity_defers_the_sweep :
  forall (Payload : Type) (isInitializeRequest : Payload -> bool)
         (closeBehaviour : Transport -> CloseOutcome)
         (history : list (Event (Payload := Payload)))
         (req : Request Payload) (t now : Z) (eng : Engine)
         (sid : string) (s : SessionInfo),
    let st := afterAll isInitializeRequest closeBehaviour history initialState in
    JsMap.get sid (sessions st) = Some s ->
    mcpSessionId req = Some sid -> sid <> "" ->
    closes eng = false ->
    let swept ev :=
      sessions (after isInitializeRequest closeBehaviour (Tick now)
                  (after isInitializeRequest closeBehaviour ev st)) in
    (now - t <= SESSION_IDLE_TIMEOUT_MS ->
     JsMap.get sid (swept (Get req t eng)) =
       Some {| transport := transport s; lastActivity := t |} /\
     JsMap.get sid (swept (Post req t eng)) =
       Some {| transport := transport s; lastActivity := t |}) /\
    (now - lastActivity s > SESSION_IDLE_TIMEOUT_MS ->
     JsMap.has sid (swept (Delete req eng)) = false).
Proof.
  intros Payload isInit cb history req t now eng sid s st Hg Hs Hne Hcl swept.
  pose proof (ServerFacts.reachable_wf isInit cb history) as Hwf. fold st in Hwf.
  assert (Ht : truthy (mcpSessionId req) = Some sid)
    by (apply ServerFacts.truthy_Some; auto).
  assert (Hsweep : forall st1 x,
    JsMap.wf (sessions st1) -> JsMap.get sid (sessions st1) = Some x ->
    (idle now x = false ->
     JsMap.get sid (sessions (after isInit cb (Tick now) st1)) = Some x) /\
    (idle now x = true ->
     JsMap.has sid (sessions (after isInit cb (Tick now) st1)) = false)).
  { intros st1 x Hwf1 Hg1. cbn [after].
    destruct (ServerFacts.sweep_spec cb now st1 Hwf1) as (c' & -> & Hl).
    cbn [sessions]. split; intros Hi.
    - apply JsMapFacts.wf_In_get.
      + eapply JsMapFacts.wf_filter; eauto.
      + rewrite Hl. apply List.filter_In. split; [now apply JsMapFacts.get_In|].
        cbn. now rewrite Hi.
    - apply JsMapFacts.has_false_In. rewrite Hl. intros Hk.
      apply List.in_map_iff in Hk. destruct Hk as ([k v] & Hfst & Hk).
      simpl in Hfst. subst k. apply List.filter_In in Hk. destruct Hk as [Hk Hv].
      apply (JsMapFacts.wf_In_get _ _ _ Hwf1) in Hk.
      assert (v = x) by congruence. subst v. simpl in Hv. now rewrite Hi in Hv. }
  assert (Hwf' : forall ev, JsMap.wf (sessions (after isInit cb ev st))).
  { intros ev. now apply (ServerFacts.after_kept isInit cb _ ServerFacts.maintained_wf). }
  split.
  - intros Hfresh.
    assert (Hi : idle now {| transport := transport s; lastActivity := t |} = false).
    { unfold idle. cbn [lastActivity]. rewrite Z.gtb_ltb. apply Z.ltb_ge. lia. }
    split; unfold swept.
    + refine (proj1 (Hsweep _ _ (Hwf' _) _) Hi). cbn [after].
      destruct (ServerFacts.get_reuse cb req t eng (with_res freshResponse st) sid s Ht Hg)
        as (c' & _ & Hc & _ & _ & ->).
      unfold handleRequest. rewrite ServerFacts.engine_finish_eq, Hcl. exact Hc.
    + refine (proj1 (Hsweep _ _ (Hwf' _) _) Hi). cbn [after].
      destruct (ServerFacts.post_reuse isInit cb req t eng (with_res freshResponse st) sid s Ht Hg)
        as (c' & _ & Hc & _ & _ & ->).
      rewrite ServerFacts.guarded_dispatch_eq, ServerFacts.engine_finish_eq, Hcl.
      exact Hc.
  - intros Hidle. unfold swept.
    refine (proj2 (Hsweep _ s (Hwf' _) _) _).
    + cbn [after].
      rewrite (ServerFacts.delete_reuse req eng (with_res freshResponse st) sid s Ht Hg).
      rewrite ServerFacts.guarded_dispatch_eq, ServerFacts.engine_finish_eq, Hcl.
      cbn. apply JsMapFacts.get_set_same.
    + unfold idle. apply Z.gtb_lt. lia.
Qed.

Lemma X16_activity_defers_the_sweep_witness :
  let st :=
    afterAll Samples.isInitialize Samples.closesFine
      [Post (Samples.request "POST" None "initialize") 0 (Samples.establishes "s1")]
      initialState in
  let req := Samples.request "GET" (Some "s1") "" in
  let swept ev :=
    sessions (after Samples.isInitialize Samples.closesFine (Tick 1800005)
                (after Samples.isInitialize Samples.closesFine ev st)) in
  (1800005 - 5 <= SESSION_IDLE_TIMEOUT_MS ->
   JsMap.get "s1" (swept (Get req 5 Samples.answers)) =
     Some {| transport := transport Samples.session1; lastActivity := 5 |} /\
   JsMap.get "s1" (swept (Post req 5 Samples.answers)) =
     Some {| transport := transport Samples.session1; lastActivity := 5 |}) /\
  (1800005 - lastActivity Samples.session1 > SESSION_IDLE_TIMEOUT_MS ->
   JsMap.has "s1" (swept (Delete req Samples.answers)) = false).
Proof.
  apply (X16_activity_defers_the_sweep string Samples.isInitialize Samples.closesFine
           [Post (Samples.request "POST" None "initialize") 0 (Samples.establishes "s1")]
           (Samples.request "GET" (Some "s1") "") 5 1800005 Samples.answers
           "s1" Samples.session1).
  - reflexivity.
  - reflexivity.
  - discriminate.
  - reflexivity.
Defined.

(** X17.  In every state the server has reached, a session in the cache
    is held under the session id that its own transport reports, and the
    history has a POST that initiated it: one that bore no session key, or
    the empty one, whose payload is an initialize request, whose engine
    connected and announced that id.  Nothing else puts a session into the
    cache. *)
Theorem X17_sessions_come_from_initiating_posts :
  forall (Payload : Type) (isInitializeRequest : Payload -> bool)
         (closeBehaviour : Transport -> CloseOutcome)
         (history : list (Event (Payload := Payload)))
         (k : string) (s : SessionInfo),
    JsMap.get k
      (sessions (afterAll isInitializeRequest closeBehaviour history initialState)) =
      Some s ->
    sessionId (transport s) = Some k /\
    exists req now eng,
      In (Post req now eng) history /\
      (mcpSessionId req = None \/ mcpSessionId req = Some "") /\
      isInitializeRequest (body req) = true /\
      connectFails eng = false /\
      initialized eng = Some k.
Proof.
  intros Payload isInit cb history k s Hg. split.
  - exact (ServerMore.reachable_keyed isInit cb history k s Hg).
  - destruct (ServerMore.afterAll_origin isInit cb history initialState k s)
      as [(x0 & Hk0 & _)|(req & now & eng & Hin & Ht & Hi & Hconn & Hinit)];
      [constructor | exact Hg | discriminate |].
    exists req, now, eng. split; [exact Hin|].
    split; [now apply ServerFacts.truthy_None|]. auto.
Qed.

Lemma X17_sessions_come_from_initiating_posts_witness :
  sessionId (transport Samples.session1) = Some "s1" /\
  exists req now eng,
    In (Post req now eng)
       [Post (Samples.request "POST" None "initialize") 0 (Samples.establishes "s1")] /\
    (mcpSessionId req = None \/ mcpSessionId req = Some "") /\
    Samples.isInitialize (body req) = true /\
    connectFails eng = false /\
    initialized eng = Some "s1".
Proof.
  apply (X17_sessions_come_from_initiating_posts string Samples.isInitialize
           Samples.closesFine
           [Post (Samples.request "POST" None "initialize") 0 (Samples.establishes "s1")]
           "s1" Samples.session1).
  reflexivity.
Defined.

End ServerLifecycle.

(** * Answers, evictions and the closing of engines *)

Module ServerAnswers.
Import Server.
Local Open Scope Z_scope.

Section Facts.
Context {Payload : Type}.
Variable isInitializeRequest : Payload -> bool.
Variable closeBehaviour : Transport -> CloseOutcome.

(** A guarded dispatch on a response not yet started. *)
Lemma guarded_answer t eng message st :
  headersSent (res st) = false -> written (res st) = [] ->
  fst (tryCatch (engine_finish t eng) (fun _ => internalError message) st) = Ok tt /\
  written (res (snd (tryCatch (engine_finish t eng)
                       (fun _ => internalError message) st))) =
    (if throws eng && negb (commits eng)
     then [(500, JsonRpcError JSONRPC_ERROR_INTERNAL message)] else []) /\
  headersSent (res (snd (tryCatch (engine_finish t eng)
                           (fun _ => internalError message) st))) =
    commits eng || throws eng.
Proof.
  intros Hh Hw. change (engine_finish t eng) with (handleRequest t eng).
  rewrite ServerFacts.guarded_dispatch_eq, ServerFacts.engine_finish_eq.
  destruct (throws eng), (commits eng); cbn; rewrite ?Hh, ?Hw; cbn; auto.
Qed.

(** An initiating POST whose engine announces no session, and one whose
    connection fails. *)
Lemma post_initiate_silent (req : Request Payload) now eng st :
  truthy (mcpSessionId req) = None ->
  isInitializeRequest (body req) = true ->
  connectFails eng = false -> initialized eng = None ->
  mcpPostHandler isInitializeRequest closeBehaviour req now eng st =
    tryCatch (engine_finish {| transportId := created st; sessionId := None |} eng)
      (fun _ => internalError "Internal server error")
      (with_created (S (created st)) st).
Proof.
  intros Ht Hi Hconn Hinit.
  unfold mcpPostHandler. rewrite Ht. unfold tryCatch at 1, bind at 1, ret.
  cbn [isSome negb andb]. rewrite Hi.
  unfold bind at 1, newTransport. unfold bind at 1, connect. rewrite Hconn.
  unfold ret, handleInitialize. rewrite Hinit. reflexivity.
Qed.

Lemma post_connect_fails (req : Request Payload) now eng st :
  truthy (mcpSessionId req) = None ->
  isInitializeRequest (body req) = true ->
  connectFails eng = true ->
  mcpPostHandler isInitializeRequest closeBehaviour req now eng st =
    internalError "Internal server error" (with_created (S (created st)) st).
Proof.
  intros Ht Hi Hconn.
  unfold mcpPostHandler. rewrite Ht. unfold tryCatch at 1, bind at 1, ret.
  cbn [isSome negb andb]. rewrite Hi.
  unfold bind at 1, newTransport. unfold bind at 1, connect. rewrite Hconn.
  reflexivity.
Qed.

End Facts.

End ServerAnswers.

Section ServerAnswersClaims.
Import Server.
Local Open Scope Z_scope.

(** X27.  Every request gets at most one response from this code.
    Whatever the request and whatever the engine does, with the server in
    any state it has reached, the POST and the DELETE handler return
    normally, and each of the three handlers writes nothing or writes one
    response, with status 400, 404 or 500.  An initiating POST whose
    connection to the server fails is answered 500 "Internal server
    error" and registers nothing; the transport constructed for it is
    dropped. *)
Theorem X27_at_most_one_response :
  forall (Payload : Type) (isInitializeRequest : Payload -> bool)
         (closeBehaviour : Transport -> CloseOutcome)
         (history : list (Event (Payload := Payload)))
         (req : Request Payload) (now : Z) (eng : Engine),
    let st := afterAll isInitializeRequest closeBehaviour history initialState in
    let answered (st' : State) :=
      written (res st') = [] \/
      exists code body,
        written (res st') = [(code, body)] /\
        (code = 400 \/ code = 404 \/ code = 500) /\
        headersSent (res st') = true in
    (fst (mcpPostHandler isInitializeRequest closeBehaviour req now eng
            (with_res freshResponse st)) = Ok tt /\
     answered (after isInitializeRequest closeBehaviour (Post req now eng) st)) /\
    answered (after isInitializeRequest closeBehaviour (Get req now eng) st) /\
    (fst (mcpDeleteHandler req eng (with_res freshResponse st)) = Ok tt /\
     answered (after isInitializeRequest closeBehaviour (Delete req eng) st)) /\
    (mcpSessionId req = None \/ mcpSessionId req = Some "" ->
     isInitializeRequest (body req) = true -> connectFails eng = true ->
     let st1 := after isInitializeRequest closeBehaviour (Post req now eng) st in
     written (res st1) =
       [(500, JsonRpcError JSONRPC_ERROR_INTERNAL "Internal server error")] /\
     sessions st1 = sessions st /\ closeCalls st1 = closeCalls st /\
     created st1 = S (created st)).
Proof.
  intros Payload isInit cb history req now eng st answered.
  pose proof (ServerFacts.reachable_wf isInit cb history) as Hwf. fold st in Hwf.
  set (st0 := with_res freshResponse st).
  assert (Hsend : forall code message,
             code = 400 \/ code = 404 \/ code = 500 ->
             fst (res_send code (JsonRpcError JSONRPC_ERROR_INVALID_REQUEST message) st0) = Ok tt /\
             answered (snd (res_send code (JsonRpcError JSONRPC_ERROR_INVALID_REQUEST message) st0))).
  { intros code message Hcode. split; [reflexivity|]. right. do 2 eexists.
    split; [reflexivity|]. split; [exact Hcode | reflexivity]. }
  assert (Hguard : forall t message st1,
             headersSent (res st1) = false -> written (res st1) = [] ->
             fst (tryCatch (engine_finish t eng) (fun _ => internalError message) st1) = Ok tt /\
             answered (snd (tryCatch (engine_finish t eng)
                              (fun _ => internalError message) st1))).
  { intros t message st1 Hh Hw.
    destruct (ServerAnswers.guarded_answer t eng message st1 Hh Hw) as (Hok & Hwr & Hhs).
    split; [exact Hok|]. unfold answered. rewrite Hwr, Hhs.
    destruct (throws eng), (commits eng); cbn; auto.
    right. do 2 eexists. split; [reflexivity|]. auto. }
  assert (Hpost : fst (mcpPostHandler isInit cb req now eng st0) = Ok tt /\
                  answered (snd (mcpPostHandler isInit cb req now eng st0))).
  { destruct (truthy (mcpSessionId req)) as [sid|] eqn:Ht.
    - destruct (JsMap.get sid (sessions st0)) as [s|] eqn:Hg.
      + destruct (ServerFacts.post_reuse isInit cb req now eng st0 sid s Ht Hg)
          as (c' & _ & _ & _ & _ & ->).
        now apply Hguard.
      + apply JsMapFacts.get_None in Hg.
        rewrite (ServerFacts.post_unknown_key isInit cb req now eng st0 sid Ht Hg).
        apply Hsend. auto.
    - destruct (isInit (body req)) eqn:Hi.
      + destruct (connectFails eng) eqn:Hconn.
        * rewrite (ServerAnswers.post_connect_fails isInit cb req now eng st0 Ht Hi Hconn).
          split; [reflexivity|]. right. do 2 eexists.
          split; [reflexivity|]. auto.
        * destruct (initialized eng) as [sid|] eqn:Hinit.
          -- destruct (ServerMore.post_initiate isInit cb req now eng st0 sid
                         Ht Hi Hconn Hinit Hwf) as (c' & calls' & _ & _ & _ & ->).
             now apply Hguard.
          -- rewrite (ServerAnswers.post_initiate_silent isInit cb req now eng st0
                        Ht Hi Hconn Hinit).
             now apply Hguard.
      + rewrite (ServerFacts.post_no_key isInit cb req now eng st0 Ht Hi).
        apply Hsend. auto. }
  split; [exact Hpost|]. split; [|split].
  - cbn [after]. fold st0.
    destruct (truthy (mcpSessionId req)) as [sid|] eqn:Ht.
    + destruct (JsMap.get sid (sessions st0)) as [s|] eqn:Hg.
      * destruct (ServerFacts.get_reuse cb req now eng st0 sid s Ht Hg)
          as (c' & _ & _ & _ & _ & ->).
        unfold handleRequest. rewrite ServerFacts.engine_finish_eq. left.
        cbn. now destruct (commits eng).
      * apply JsMapFacts.get_None in Hg.
        rewrite (ServerFacts.get_unknown_key cb req now eng st0 sid Ht Hg).
        apply Hsend. auto.
    + rewrite (ServerFacts.get_no_key cb req now eng st0 Ht). apply Hsend. auto.
  - cbn [after]. fold st0.
    destruct (truthy (mcpSessionId req)) as [sid|] eqn:Ht.
    + destruct (JsMap.get sid (sessions st0)) as [s|] eqn:Hg.
      * rewrite (ServerFacts.delete_reuse req eng st0 sid s Ht Hg).
        now apply Hguard.
      * apply JsMapFacts.get_None in Hg.
        rewrite (ServerFacts.delete_unknown_key req eng st0 sid Ht Hg).
        apply Hsend. auto.
    + rewrite (ServerFacts.delete_no_key req eng st0 Ht). apply Hsend. auto.
  - intros Hs Hi Hconn. apply ServerFacts.truthy_None in Hs. cbn [after]. fold st0.
    rewrite (ServerAnswers.post_connect_fails isInit cb req now eng st0 Hs Hi Hconn).
    repeat split.
Qed.

Lemma X27_at_most_one_response_witness :
  let st := afterAll Samples.isInitialize Samples.closesFine [] initialState in
  let req := Samples.request "POST" None "initialize" in
  let eng := {| connectFails := true; initialized := None; closes := false;
                commits := false; throws := false |} in
  let st1 := after Samples.isInitialize Samples.closesFine (Post req 3 eng) st in
  written (res st1) =
    [(500, JsonRpcError JSONRPC_ERROR_INTERNAL "Internal server error")] /\
  sessions st1 = sessions st /\ closeCalls st1 = closeCalls st /\
  created st1 = S (created st).
Proof.
  refine (proj2 (proj2 (proj2
            (X27_at_most_one_response string Samples.isInitialize Samples.closesFine []
               (Samples.request "POST" None "initialize") 3
               {| connectFails := true; initialized := None; closes := false;
                  commits := false; throws := false |}))) _ eq_refl eq_refl).
  left. reflexivity.
Defined.

(** X28.  A session is established without an eviction whenever there is
    room or the id is in use.  An initiating POST whose engine connects,
    announces the id [sid] and does not close calls no [close]: when [sid]
    is new and the cache holds fewer than [MAX_SESSIONS] sessions, the new
    session is added at the young end; when [sid] is the key of a session
    in the cache, the new session takes its place at the young end and the
    engine of the session it replaces is not closed. *)
Theorem X28_establishing_without_eviction :
  forall (Payload : Type) (isInitializeRequest : Payload -> bool)
         (closeBehaviour : Transport -> CloseOutcome)
         (history : list (Event (Payload := Payload)))
         (req : Request Payload) (now : Z) (eng : Engine) (sid : string),
    let st := afterAll isInitializeRequest closeBehaviour history initialState in
    mcpSessionId req = None \/ mcpSessionId req = Some "" ->
    isInitializeRequest (body req) = true ->
    connectFails eng = false -> initialized eng = Some sid -> closes eng = false ->
    let st1 := after isInitializeRequest closeBehaviour (Post req now eng) st in
    let info := {| transport := {| transportId := created st; sessionId := Some sid |};
                   lastActivity := now |} in
    (JsMap.has sid (sessions st) = false ->
     Z.of_nat (LRU.size (sessions st)) < MAX_SESSIONS ->
     LRU.entries (sessions st1) = LRU.entries (sessions st) ++ [(sid, info)] /\
     closeCalls st1 = closeCalls st) /\
    (forall before old after,
        LRU.entries (sessions st) = before ++ (sid, old) :: after ->
        LRU.entries (sessions st1) = before ++ after ++ [(sid, info)] /\
        closeCalls st1 = closeCalls st).
Proof.
  intros Payload isInit cb history req now eng sid st Hs Hi Hconn Hinit Hcl st1 info.
  pose proof (ServerFacts.reachable_wf isInit cb history) as Hwf. fold st in Hwf.
  apply ServerFacts.truthy_None in Hs.
  destruct (ServerMore.post_initiate isInit cb req now eng (with_res freshResponse st) sid
              Hs Hi Hconn Hinit Hwf) as (c' & calls' & Hset & _ & _ & Hpost).
  cbn [created with_res sessions closeCalls] in Hset, Hpost. fold info in Hset.
  assert (Hst1 : sessions st1 = c' /\ closeCalls st1 = calls').
  { unfold st1. cbn [after]. rewrite Hpost.
    match goal with
    | |- context [engine_finish ?t eng] =>
        change (engine_finish t eng) with (handleRequest t eng)
    end.
    rewrite ServerFacts.guarded_dispatch_eq, ServerFacts.engine_finish_eq, Hcl.
    cbn. auto. }
  destruct Hst1 as [-> ->]. split.
  - intros Hk Hroom.
    rewrite (LRUFacts.set_room (sessionOptions cb) sid info (sessions st) (closeCalls st)
               Hk Hroom) in Hset.
    injection Hset as <- <-. split; [|reflexivity].
    unfold LRU.entries. now rewrite JsMapFacts.set_absent, JsMapFacts.live_app.
  - intros before old after' El.
    assert (Hk : JsMap.has sid (sessions st) = true).
    { apply JsMapFacts.has_In. unfold LRU.entries in El. rewrite El, List.map_app.
      apply List.in_or_app. right. simpl. auto. }
    rewrite (LRUFacts.set_present (sessionOptions cb) sid info (sessions st) (closeCalls st)
               Hk) in Hset.
    injection Hset as <- <-. split; [|reflexivity].
    assert (Hn : ~ In sid (List.map fst (before ++ after'))).
    { unfold JsMap.wf, LRU.entries in *. rewrite El, List.map_app in Hwf. simpl in Hwf.
      apply NoDup_remove_2 in Hwf. now rewrite List.map_app. }
    assert (Hb : ~ In sid (List.map fst before)).
    { intros H. apply Hn. rewrite List.map_app. apply List.in_or_app. auto. }
    unfold LRU.entries in *.
    rewrite EntriesFacts.live_set, EntriesFacts.live_delete, El.
    assert (Hr : Entries.remove sid (before ++ (sid, old) :: after') = before ++ after').
    { clear - Hb. induction before as [|[k v] before IH]; simpl.
      - now rewrite String.eqb_refl.
      - destruct (String.eqb_spec k sid) as [->|Hne]; [exfalso; apply Hb; simpl; auto|].
        rewrite IH; [reflexivity|]. intros H. apply Hb. simpl. auto. }
    rewrite Hr, (EntriesFacts.update_absent sid info _ Hn).
    now rewrite <- List.app_assoc.
Qed.

Lemma X28_establishing_without_eviction_witness :
  let st :=
    afterAll Samples.isInitialize Samples.closesFine
      [Post (Samples.request "POST" None "initialize") 0 (Samples.establishes "s1")]
      initialState in
  let st1 :=
    after Samples.isInitialize Samples.closesFine
      (Post (Samples.request "POST" None "initialize") 4 (Samples.establishes "s1")) st in
  let info := {| transport := {| transportId := created st; sessionId := Some "s1" |};
                 lastActivity := 4 |} in
  (JsMap.has "s1" (sessions st) = false ->
   Z.of_nat (LRU.size (sessions st)) < MAX_SESSIONS ->
   LRU.entries (sessions st1) = LRU.entries (sessions st) ++ [("s1", info)] /\
   closeCalls st1 = closeCalls st) /\
  (forall before old after,
      LRU.entries (sessions st) = before ++ ("s1", old) :: after ->
      LRU.entries (sessions st1) = before ++ after ++ [("s1", info)] /\
      closeCalls st1 = closeCalls st).
Proof.
  apply (X28_establishing_without_eviction string Samples.isInitialize Samples.closesFine
           [Post (Samples.request "POST" None "initialize") 0 (Samples.establishes "s1")]
           (Samples.request "POST" None "initialize") 4 (Samples.establishes "s1") "s1");
    first [reflexivity | left; reflexivity].
Defined.

End ServerAnswersClaims.

(** * The ledger of the engines *)

Module ServerLedger.
Import Server.
Local Open Scope Z_scope.

Section Facts.
Context {Payload : Type}.
Variable isInitializeRequest : Payload -> bool.
Variable closeBehaviour : Transport -> CloseOutcome.

(** What [sessions.set] closes: nothing, or the session it evicts. *)
Lemma sessions_set_closes sid info (c : JsMap.t SessionInfo) calls c' calls' :
  JsMap.wf c ->
  LRU.set (sessionOptions closeBehaviour) sid info c calls = LRU.Normal (c', calls') ->
  exists closed : list (string * SessionInfo),
    calls' = calls ++ List.map (fun e => transport (snd e)) closed /\
    NoDup (List.map fst closed) /\
    forall k s, In (k, s) closed -> JsMap.get k c = Some s /\ JsMap.has k c' = false.
Proof.
  intros Hwf Hset. unfold LRU.set in Hset. destruct (JsMap.has sid c) eqn:Hk.
  - injection Hset as <- <-. exists []. simpl. rewrite List.app_nil_r.
    split; [reflexivity|]. split; [constructor | intros k s []].
  - destruct (Z.of_nat (JsMap.size c) >=? LRU.maxSize (sessionOptions closeBehaviour)).
    + destruct (JsMap.keys_next c) as [e|] eqn:He; [|discriminate].
      destruct (JsMapFacts.keys_next_live c e He) as (v & l & _ & _ & Hg).
      rewrite Hg in Hset. cbn [LRU.onEvict sessionOptions] in Hset.
      change (LRU.is_undefined v) with false in Hset. cbv iota in Hset.
      injection Hset as <- <-. exists [(e, v)]. split; [reflexivity|].
      split; [repeat constructor; simpl; tauto|].
      intros k s [[= <- <-]|[]]. split; [exact Hg|].
      rewrite JsMapFacts.has_set, (JsMapFacts.wf_has_delete e c Hwf), orb_false_r.
      apply String.eqb_neq. intros ->.
      apply JsMapFacts.get_Some_has in Hg. congruence.
    + injection Hset as <- <-. exists []. simpl. rewrite List.app_nil_r.
      split; [reflexivity|]. split; [constructor | intros k s []].
Qed.

Lemma internalError_calls message st :
  closeCalls (snd (internalError message st)) = closeCalls st /\
  created (snd (internalError message st)) = created st.
Proof.
  unfold internalError, bind, gets, ret, res_send, modify.
  destruct (headersSent (res st)); split; reflexivity.
Qed.

(** The calls of [close] an event makes: each is for a session that was
    in the cache and has left it, no session twice; and the count of the
    transports constructed does not go down. *)
Lemma after_calls (ev : Event (Payload := Payload)) st :
  JsMap.wf (sessions st) ->
  (created st <= created (after isInitializeRequest closeBehaviour ev st))%nat /\
  exists closed : list (string * SessionInfo),
    closeCalls (after isInitializeRequest closeBehaviour ev st) =
      closeCalls st ++ List.map (fun e => transport (snd e)) closed /\
    NoDup (List.map fst closed) /\
    forall k s, In (k, s) closed ->
      JsMap.get k (sessions st) = Some s /\
      JsMap.get k (sessions (after isInitializeRequest closeBehaviour ev st)) = None.
Proof.
  intros Hwf.
  assert (Hsame : forall st',
             (created st <= created st')%nat -> closeCalls st' = closeCalls st ->
             (created st <= created st')%nat /\
             exists closed : list (string * SessionInfo),
               closeCalls st' = closeCalls st ++ List.map (fun e => transport (snd e)) closed /\
               NoDup (List.map fst closed) /\
               forall k s, In (k, s) closed ->
                 JsMap.get k (sessions st) = Some s /\ JsMap.get k (sessions st') = None).
  { intros st' Hc Hcalls. split; [exact Hc|]. exists []. rewrite Hcalls. simpl.
    rewrite List.app_nil_r. split; [reflexivity|]. split; [constructor | intros k s []]. }
  assert (Hguard : forall t eng message st0,
             (created st <= created st0)%nat -> closeCalls st0 = closeCalls st ->
             let st' := snd (tryCatch (engine_finish t eng)
                               (fun _ => internalError message) st0) in
             (created st <= created st')%nat /\ closeCalls st' = closeCalls st).
  { intros t eng message st0 Hc Hcalls.
    change (engine_finish t eng) with (handleRequest t eng).
    rewrite ServerFacts.guarded_dispatch_eq. cbn. auto. }
  destruct ev as [req now eng|req now eng|req eng|now|t]; cbn [after].
  - (* POST *)
    destruct (truthy (mcpSessionId req)) as [sid|] eqn:Ht.
    + destruct (JsMap.get sid (sessions st)) as [s|] eqn:Hg.
      * destruct (ServerFacts.post_reuse isInitializeRequest closeBehaviour req now eng
                    (with_res freshResponse st) sid s Ht Hg)
          as (c' & _ & _ & _ & _ & ->).
        apply Hsame; apply Hguard; cbn; auto.
      * apply JsMapFacts.get_None in Hg.
        rewrite (ServerFacts.post_unknown_key isInitializeRequest closeBehaviour req now eng
                   (with_res freshResponse st) sid Ht Hg).
        apply Hsame; cbn; auto.
    + destruct (isInitializeRequest (body req)) eqn:Hi.
      * destruct (connectFails eng) eqn:Hconn.
        { rewrite (ServerAnswers.post_connect_fails isInitializeRequest closeBehaviour
                     req now eng (with_res freshResponse st) Ht Hi Hconn).
          destruct (internalError_calls "Internal server error"
                      (with_created (S (created (with_res freshResponse st)))
                         (with_res freshResponse st))) as [Hcalls Hcreated].
          apply Hsame; [rewrite Hcreated; cbn; lia | rewrite Hcalls; reflexivity]. }
        destruct (initialized eng) as [sid|] eqn:Hinit.
        -- destruct (ServerMore.post_initiate isInitializeRequest closeBehaviour req now eng
                       (with_res freshResponse st) sid Ht Hi Hconn Hinit Hwf)
             as (c' & calls' & Hset & Hwf' & _ & ->).
           cbn [sessions closeCalls with_res created] in Hset.
           destruct (sessions_set_closes _ _ _ _ _ _ Hwf Hset)
             as (closed & -> & Hnd & Hclosed).
           match goal with
           | |- context [engine_finish ?t eng] =>
               change (engine_finish t eng) with (handleRequest t eng)
           end.
           rewrite ServerFacts.guarded_dispatch_eq. cbn [snd created closeCalls sessions].
           split; [cbn; lia|]. exists closed. split; [reflexivity|]. split; [exact Hnd|].
           intros k s Hin. destruct (Hclosed k s Hin) as [Hg Hh]. split; [exact Hg|].
           match goal with
           | |- JsMap.get k ?c = None => destruct (JsMap.get k c) as [x|] eqn:Hk
           end; [|reflexivity].
           apply ServerMore.engine_finish_values in Hk; [|exact Hwf'].
           apply JsMapFacts.get_Some_has in Hk. cbn in Hk. congruence.
        -- rewrite (ServerAnswers.post_initiate_silent isInitializeRequest closeBehaviour
                      req now eng (with_res freshResponse st) Ht Hi Hconn Hinit).
           apply Hsame; apply Hguard; cbn; auto.
      * rewrite (ServerFacts.post_no_key isInitializeRequest closeBehaviour req now eng
                   (with_res freshResponse st) Ht Hi).
        apply Hsame; cbn; auto.
  - (* GET *)
    destruct (truthy (mcpSessionId req)) as [sid|] eqn:Ht.
    + destruct (JsMap.get sid (sessions st)) as [s|] eqn:Hg.
      * destruct (ServerFacts.get_reuse closeBehaviour req now eng
                    (with_res freshResponse st) sid s Ht Hg)
          as (c' & _ & _ & _ & _ & ->).
        unfold handleRequest. rewrite ServerFacts.engine_finish_eq.
        apply Hsame; cbn; auto.
      * apply JsMapFacts.get_None in Hg.
        rewrite (ServerFacts.get_unknown_key closeBehaviour req now eng
                   (with_res freshResponse st) sid Ht Hg).
        apply Hsame; cbn; auto.
    + rewrite (ServerFacts.get_no_key closeBehaviour req now eng
                 (with_res freshResponse st) Ht).
      apply Hsame; cbn; auto.
  - (* DELETE *)
    destruct (truthy (mcpSessionId req)) as [sid|] eqn:Ht.
    + destruct (JsMap.get sid (sessions st)) as [s|] eqn:Hg.
      * rewrite (ServerFacts.delete_reuse req eng (with_res freshResponse st) sid s Ht Hg).
        apply Hsame; apply Hguard; cbn; auto.
      * apply JsMapFacts.get_None in Hg.
        rewrite (ServerFacts.delete_unknown_key req eng (with_res freshResponse st) sid Ht Hg).
        apply Hsame; cbn; auto.
    + rewrite (ServerFacts.delete_no_key req eng (with_res freshResponse st) Ht).
      apply Hsame; cbn; auto.
  - (* the sweep *)
    destruct (ServerFacts.sweep_spec closeBehaviour now st Hwf) as (c' & -> & Hl).
    cbn [created closeCalls sessions]. split; [lia|].
    exists (List.filter (fun e => idle now (snd e)) (JsMap.live (sessions st))).
    split; [reflexivity|]. split.
    + unfold JsMap.wf in Hwf. clear - Hwf.
      induction (JsMap.live (sessions st)) as [|[k s] l IH]; simpl; [constructor|].
      inversion Hwf as [|? ? Hn Hl]; subst.
      destruct (idle now s); simpl; [|auto]. constructor; [|auto].
      intros Hin. apply Hn. apply List.in_map_iff in Hin.
      destruct Hin as (e & He & Hin). apply List.filter_In in Hin.
      apply List.in_map_iff. exists e. tauto.
    + intros k s Hin. apply List.filter_In in Hin. destruct Hin as [Hin Hidle].
      cbn [snd] in Hidle. split; [now apply JsMapFacts.wf_In_get|].
      destruct (JsMap.get k c') as [x|] eqn:Hk; [|reflexivity].
      apply JsMapFacts.get_In in Hk. rewrite Hl in Hk.
      apply List.filter_In in Hk. destruct Hk as [Hk Hx]. cbn [snd] in Hx.
      apply (JsMapFacts.wf_In_get _ _ _ Hwf) in Hk.
      apply (JsMapFacts.wf_In_get _ _ _ Hwf) in Hin.
      rewrite Hk in Hin. injection Hin as ->. rewrite Hidle in Hx. discriminate.
  - (* a closure *)
    apply Hsame;
      unfold transport_onclose, bind, ret, sessions_has, sessions_delete,
        LRU.has, LRU.delete;
      destruct (truthy (sessionId t)) as [sid|]; cbn; auto;
      destruct (JsMap.has sid (sessions st)); cbn; auto.
Qed.

(** Sessions under different keys of a ledger hold different transports. *)
Lemma closed_distinct st (closed : list (string * SessionInfo)) :
  ledger st -> NoDup (List.map fst closed) ->
  (forall k s, In (k, s) closed -> JsMap.get k (sessions st) = Some s) ->
  NoDup (List.map transportId (List.map (fun e => transport (snd e)) closed)).
Proof.
  intros (_ & Hinj & _ & _) Hnd Hin.
  induction closed as [|[k s] closed IH]; simpl; [constructor|].
  inversion Hnd as [|? ? Hn Hnd']; subst. constructor.
  - intros H. apply List.in_map_iff in H. destruct H as (t & Ht & H).
    apply List.in_map_iff in H. destruct H as ([k' s'] & <- & H). cbn [snd] in Ht.
    assert (k' = k).
    { apply (Hinj k' k s' s); [apply Hin; simpl; auto | apply Hin; simpl; auto | exact Ht]. }
    subst k'. apply Hn. apply List.in_map_iff. exists (k, s'). auto.
  - apply IH; [exact Hnd'|]. intros k' s' H. apply Hin. simpl. auto.
Qed.

(** Every event keeps the ledger. *)
Lemma after_ledger (ev : Event (Payload := Payload)) st :
  JsMap.wf (sessions st) -> ledger st ->
  ledger (after isInitializeRequest closeBehaviour ev st).
Proof.
  intros Hwf Hledger.
  pose proof Hledger as (Hbelow & Hinj & Hout & Honce).
  destruct (after_calls ev st Hwf) as (Hcreated & closed & Hcalls & Hnd & Hclosed).
  pose proof (ServerMore.after_values isInitializeRequest closeBehaviour ev st) as Hvalues.
  set (st' := after isInitializeRequest closeBehaviour ev st) in *.
  assert (Hfrom : forall k x, JsMap.get k (sessions st') = Some x ->
            (exists x0, JsMap.get k (sessions st) = Some x0 /\
                        transport x0 = transport x) \/
            (announces ev = Some k /\ transportId (transport x) = created st /\
             (created st < created st')%nat)).
  { intros k x Hk. destruct (Hvalues k x Hwf Hk) as [H|(Ha & Ht & Hc)]; [auto|].
    right. rewrite Ht. auto. }
  assert (Hbelow' : forall k s, JsMap.get k (sessions st') = Some s ->
                      (transportId (transport s) < created st')%nat).
  { intros k s Hk. destruct (Hfrom k s Hk) as [(x0 & Hg & <-)|(_ & -> & Hc)]; [|exact Hc].
    specialize (Hbelow k x0 Hg). lia. }
  split; [exact Hbelow'|]. split; [|split].
  - intros k1 k2 s1 s2 H1 H2 E.
    destruct (Hfrom k1 s1 H1) as [(x1 & Hg1 & E1)|(Ha1 & Ht1 & _)],
             (Hfrom k2 s2 H2) as [(x2 & Hg2 & E2)|(Ha2 & Ht2 & _)].
    + apply (Hinj k1 k2 x1 x2 Hg1 Hg2). now rewrite E1, E2.
    + specialize (Hbelow k1 x1 Hg1). rewrite E1 in Hbelow. lia.
    + specialize (Hbelow k2 x2 Hg2). rewrite E2 in Hbelow. lia.
    + congruence.
  - intros t Hin. rewrite Hcalls in Hin. apply List.in_app_or in Hin.
    destruct Hin as [Hin|Hin].
    + destruct (Hout t Hin) as [Ht Hnot]. split; [lia|].
      intros k s Hk.
      destruct (Hfrom k s Hk) as [(x0 & Hg & <-)|(_ & -> & _)]; [eauto | lia].
    + apply List.in_map_iff in Hin. destruct Hin as ([k0 s0] & <- & Hin). cbn [snd].
      destruct (Hclosed k0 s0 Hin) as [Hg0 Hgone].
      pose proof (Hbelow k0 s0 Hg0) as Hlt. split; [lia|].
      intros k s Hk.
      destruct (Hfrom k s Hk) as [(x0 & Hg & E)|(_ & -> & _)]; [|lia].
      intros E'. rewrite <- E in E'.
      pose proof (Hinj k k0 x0 s0 Hg Hg0 E'). subst k0. congruence.
  - rewrite Hcalls, List.map_app. apply List.NoDup_app.
    + exact Honce.
    + apply (closed_distinct st); [exact Hledger | exact Hnd|].
      intros k s Hin. now apply Hclosed.
    + intros n H1 H2.
      apply List.in_map_iff in H1. destruct H1 as (t & <- & H1).
      apply List.in_map_iff in H2. destruct H2 as (t2 & E & H2).
      apply List.in_map_iff in H2. destruct H2 as ([k0 s0] & <- & H2). cbn [snd] in E.
      destruct (Hclosed k0 s0 H2) as [Hg0 _].
      destruct (Hout t H1) as [_ Hnot]. exact (Hnot k0 s0 Hg0 E).
Qed.

Lemma reachable_ledger (evs : list (Event (Payload := Payload))) :
  ledger (afterAll isInitializeRequest closeBehaviour evs initialState).
Proof.
  unfold afterAll.
  assert (H : forall st, JsMap.wf (sessions st) -> ledger st ->
                ledger (List.fold_left
                  (fun s ev => after isInitializeRequest closeBehaviour ev s) evs st)).
  { induction evs as [|ev evs IH]; intros st Hwf Hl; simpl; [assumption|].
    apply IH.
    - now apply (ServerFacts.after_kept isInitializeRequest closeBehaviour _
                   ServerFacts.maintained_wf).
    - now apply after_ledger. }
  apply H; [constructor|].
  split; [intros k s; discriminate|]. split; [intros k1 k2 s1 s2; discriminate|].
  split; [intros t [] | constructor].
Qed.

End Facts.

End ServerLedger.

Section ServerLedgerClaims.
Import Server.
Local Open Scope Z_scope.

(** X29.  No engine is closed twice by this code.  In every state the
    server reaches from its start, through requests, sweeps and closures
    in any order, the calls of [close] made so far by the eviction hook and
    the sweep are for pairwise different transports; no transport of a
    session in the cache has been closed; and no transport is held by two
    sessions of the cache.  A shutdown in that state returns, and all the
    calls of [close] made up to its end are still for pairwise different
    transports, whether or not a [close] runs the [onclose] handler at
    once. *)
Theorem X29_no_engine_is_closed_twice :
  forall (Payload : Type) (isInitializeRequest : Payload -> bool)
         (closeBehaviour : Transport -> CloseOutcome)
         (closeSignals : Transport -> bool)
         (history : list (Event (Payload := Payload))),
    let st := afterAll isInitializeRequest closeBehaviour history initialState in
    NoDup (List.map transportId (closeCalls st)) /\
    (forall t k s, In t (closeCalls st) -> JsMap.get k (sessions st) = Some s ->
                   transportId (transport s) <> transportId t) /\
    (forall k1 k2 s1 s2,
        JsMap.get k1 (sessions st) = Some s1 -> JsMap.get k2 (sessions st) = Some s2 ->
        transportId (transport s1) = transportId (transport s2) -> k1 = k2) /\
    exists st',
      shutdown closeBehaviour closeSignals st = Some st' /\
      NoDup (List.map transportId (closeCalls st')).
Proof.
  intros Payload isInit cb closeSignals history st.
  pose proof (ServerLedger.reachable_ledger isInit cb history) as Hledger.
  pose proof (ServerFacts.reachable_wf isInit cb history) as Hwf.
  pose proof (ServerMore.reachable_keyed isInit cb history) as Hkeyed.
  fold st in Hledger, Hwf, Hkeyed.
  pose proof Hledger as (_ & Hinj & Hout & Honce).
  split; [exact Honce|]. split; [|split; [exact Hinj|]].
  - intros t k s Hin. now apply (proj2 (Hout t Hin)).
  - destruct (ServerMore.shutdown_spec cb closeSignals st Hwf Hkeyed)
      as (st' & Hs & Hcalls & _).
    exists st'. split; [exact Hs|]. rewrite Hcalls, List.map_app.
    apply List.NoDup_app.
    + exact Honce.
    + apply (ServerLedger.closed_distinct st); [exact Hledger | exact Hwf|].
      intros k s Hin. now apply JsMapFacts.wf_In_get.
    + intros n H1 H2.
      apply List.in_map_iff in H1. destruct H1 as (t & <- & H1).
      apply List.in_map_iff in H2. destruct H2 as (t2 & E & H2).
      apply List.in_map_iff in H2. destruct H2 as ([k0 s0] & <- & H2). cbn [snd] in E.
      apply (JsMapFacts.wf_In_get _ _ _ Hwf) in H2.
      exact (proj2 (Hout t H1) k0 s0 H2 E).
Qed.

End ServerLedgerClaims.

(** * utils/html.ts *)

Module HtmlFacts.
Import Html.
Local Open Scope string_scope.

Lemma occurs_app a s1 s2 : occurs a (s1 ++ s2) = occurs a s1 || occurs a s2.
Proof.
  induction s1 as [|b s1 IH]; simpl; [reflexivity|].
  rewrite IH. now destruct (Ascii.eqb b a).
Qed.

Lemma replaceAll_app c r s1 s2 :
  replaceAll c r (s1 ++ s2) = replaceAll c r s1 ++ replaceAll c r s2.
Proof.
  induction s1 as [|a s1 IH]; simpl; [reflexivity|].
  rewrite IH. destruct (Ascii.eqb a c); simpl; [|reflexivity].
  now rewrite CorsFacts.append_assoc.
Qed.

(** The four passes do not meet: what a pass writes no later pass
    rewrites. *)
Lemma escapeHtml_cons a s : escapeHtml (String a s) = entity a ++ escapeHtml s.
Proof.
  unfold escapeHtml, entity. cbn [replaceAll].
  destruct (Ascii.eqb_spec a "&") as [->|Hamp]; [reflexivity|].
  cbn [replaceAll].
  destruct (Ascii.eqb_spec a "<") as [->|Hlt]; [reflexivity|].
  cbn [replaceAll].
  destruct (Ascii.eqb_spec a ">") as [->|Hgt]; [reflexivity|].
  cbn [replaceAll].
  destruct (Ascii.eqb_spec a QUOTE) as [->|Hq]; reflexivity.
Qed.

Lemma escapeHtml_app s1 s2 : escapeHtml (s1 ++ s2) = escapeHtml s1 ++ escapeHtml s2.
Proof.
  induction s1 as [|a s1 IH]; [reflexivity|].
  cbn [append]. rewrite !escapeHtml_cons, IH. now rewrite CorsFacts.append_assoc.
Qed.

Lemma entity_plain a : special a = false -> entity a = String a "".
Proof.
  unfold special, entity.
  destruct (Ascii.eqb a "&"), (Ascii.eqb a "<"), (Ascii.eqb a ">"), (Ascii.eqb a QUOTE);
    simpl; intros; try discriminate; reflexivity.
Qed.

Lemma entity_special a :
  special a = true -> exists name, entity a = String "&" name.
Proof.
  unfold special, entity.
  destruct (Ascii.eqb a "&"), (Ascii.eqb a "<"), (Ascii.eqb a ">"), (Ascii.eqb a QUOTE);
    simpl; intros; try discriminate; eauto.
Qed.

Lemma length_escapeHtml s : String.length s <= String.length (escapeHtml s).
Proof.
  induction s as [|a s IH]; [simpl; lia|].
  rewrite escapeHtml_cons, CorsFacts.length_append. cbn [String.length].
  assert (1 <= String.length (entity a)).
  { unfold entity.
    destruct (Ascii.eqb a "&"), (Ascii.eqb a "<"), (Ascii.eqb a ">"), (Ascii.eqb a QUOTE);
      simpl; lia. }
  lia.
Qed.

Lemma escapeHtml_fixed s : escapeHtml s = s <-> plain s = true.
Proof.
  induction s as [|a s IH]; [split; reflexivity|].
  rewrite escapeHtml_cons. cbn [plain].
  destruct (special a) eqn:Hs; cbn [negb andb].
  - split; [|discriminate]. intros E.
    assert (HL : String.length (entity a ++ escapeHtml s) = String.length (String a s))
      by now rewrite E.
    rewrite CorsFacts.length_append in HL. cbn [String.length] in HL.
    pose proof (length_escapeHtml s) as Hle.
    assert (2 <= String.length (entity a)).
    { revert Hs. unfold special, entity.
      destruct (Ascii.eqb a "&"), (Ascii.eqb a "<"), (Ascii.eqb a ">"),
        (Ascii.eqb a QUOTE); simpl; intros; try discriminate; lia. }
    lia.
  - rewrite (entity_plain a Hs). cbn [append]. rewrite <- IH.
    split; [now intros [= ->] | now intros ->].
Qed.

Lemma escapeHtml_injective s1 : forall s2, escapeHtml s1 = escapeHtml s2 -> s1 = s2.
Proof.
  induction s1 as [|a s1 IH]; intros [|b s2].
  - reflexivity.
  - rewrite escapeHtml_cons. unfold entity.
    destruct (Ascii.eqb b "&"), (Ascii.eqb b "<"), (Ascii.eqb b ">"), (Ascii.eqb b QUOTE);
      discriminate.
  - rewrite escapeHtml_cons. unfold entity.
    destruct (Ascii.eqb a "&"), (Ascii.eqb a "<"), (Ascii.eqb a ">"), (Ascii.eqb a QUOTE);
      discriminate.
  - rewrite !escapeHtml_cons. unfold entity.
    destruct (Ascii.eqb_spec a "&") as [->|Ha1];
      [|destruct (Ascii.eqb_spec a "<") as [->|Ha2];
        [|destruct (Ascii.eqb_spec a ">") as [->|Ha3];
          [|destruct (Ascii.eqb_spec a QUOTE) as [->|Ha4]]]];
    (destruct (Ascii.eqb_spec b "&") as [->|Hb1];
      [|destruct (Ascii.eqb_spec b "<") as [->|Hb2];
        [|destruct (Ascii.eqb_spec b ">") as [->|Hb3];
          [|destruct (Ascii.eqb_spec b QUOTE) as [->|Hb4]]]]);
    cbn [append]; intros E; try discriminate;
    try (injection E as E; f_equal; now apply IH);
    try (injection E as E1 E; congruence);
    injection E as E1 E; subst; f_equal; now apply IH.
Qed.

End HtmlFacts.

Section HtmlClaims.
Local Open Scope string_scope.

(** X18.  [escapeHtml] rewrites each character on its own, [&] to
    [&amp;], [<] to [&lt;], [>] to [&gt;] and the double quote to
    [&quot;], and leaves every other character, the single quote among
    them, as it is: the four passes do not interfere, no entity is escaped
    a second time.  So the function distributes over concatenation, its
    result holds no [<], no [>] and no double quote, and it returns its
    argument unchanged exactly when the argument holds none of the four
    characters. *)
Theorem X18_escapeHtml_escapes_each_character :
  Html.escapeHtml "" = "" /\
  (forall a s, Html.escapeHtml (String a s) = Html.entity a ++ Html.escapeHtml s) /\
  (forall s1 s2,
      Html.escapeHtml (s1 ++ s2) = Html.escapeHtml s1 ++ Html.escapeHtml s2) /\
  (forall s,
      Html.occurs "<" (Html.escapeHtml s) = false /\
      Html.occurs ">" (Html.escapeHtml s) = false /\
      Html.occurs Html.QUOTE (Html.escapeHtml s) = false) /\
  (forall s, Html.escapeHtml s = s <-> Html.plain s = true) /\
  Html.escapeHtml "foo & bar" = "foo &amp; bar" /\
  Html.escapeHtml "<div>" = "&lt;div&gt;" /\
  Html.escapeHtml (String Html.QUOTE "x") = "&quot;x" /\
  Html.escapeHtml "it's" = "it's".
Proof.
  split; [reflexivity|]. split; [exact HtmlFacts.escapeHtml_cons|].
  split; [exact HtmlFacts.escapeHtml_app|].
  split; [|split; [exact HtmlFacts.escapeHtml_fixed | repeat split]].
  intros s. induction s as [|a s (IH1 & IH2 & IH3)]; [repeat split|].
  rewrite HtmlFacts.escapeHtml_cons, !HtmlFacts.occurs_app, IH1, IH2, IH3, !orb_false_r.
  unfold Html.entity.
  destruct (Ascii.eqb_spec a "&") as [->|Ha1]; [repeat split|].
  destruct (Ascii.eqb_spec a "<") as [->|Ha2]; [repeat split|].
  destruct (Ascii.eqb_spec a ">") as [->|Ha3]; [repeat split|].
  destruct (Ascii.eqb_spec a Html.QUOTE) as [->|Ha4]; [repeat split|].
  cbn [Html.occurs]. rewrite !orb_false_r.
  repeat split; apply Ascii.eqb_neq; assumption.
Qed.

(** X19.  [escapeHtml] loses nothing: two strings with the same escaped
    form are the same string, and the escaped form is at least as long as
    the string.  Escaping is not idempotent: escaping an escaped string
    changes it again unless the string held none of the four characters. *)
Theorem X19_escapeHtml_is_injective :
  (forall s1 s2, Html.escapeHtml s1 = Html.escapeHtml s2 -> s1 = s2) /\
  (forall s, String.length s <= String.length (Html.escapeHtml s)) /\
  (forall s,
      Html.escapeHtml (Html.escapeHtml s) = Html.escapeHtml s <-> Html.plain s = true).
Proof.
  split; [exact HtmlFacts.escapeHtml_injective|].
  split; [exact HtmlFacts.length_escapeHtml|].
  intros s. rewrite <- HtmlFacts.escapeHtml_fixed. split.
  - apply HtmlFacts.escapeHtml_injective.
  - intros E. now rewrite !E.
Qed.

End HtmlClaims.

(** * vibe/auth.ts, vibe/client-factory.ts, vibe/client.ts and tools/utils.ts *)

Module VibeFacts.
Local Open Scope string_scope.

(** A string is cut in one way at the first colon. *)
Lemma split_at_colon x : forall x' y y',
  Html.occurs ":" x = false -> Html.occurs ":" x' = false ->
  x ++ ":" ++ y = x' ++ ":" ++ y' -> x = x' /\ y = y'.
Proof.
  induction x as [|a x IH]; intros [|b x'] y y'; cbn [append Html.occurs].
  - intros _ _ [= ->]. auto.
  - intros _ Hb [= <- _]. discriminate.
  - intros Ha _ [= -> _]. discriminate.
  - intros Ha Hb [= <- E].
    apply orb_false_elim in Ha, Hb.
    destruct (IH x' y y' (proj2 Ha) (proj2 Hb) E) as [-> ->]. auto.
Qed.

Lemma truthy_orEmpty (value : option string) key :
  Server.truthy value = Some key -> ClientFactory.orEmpty value = key /\ key <> "".
Proof.
  intros H. apply ServerFacts.truthy_Some in H. destruct H as [-> Hne]. auto.
Qed.

(** Two unambiguous environments with the same hash have the same
    configuration. *)
Lemma same_hash_same_config env0 env config :
  ClientFactory.unambiguous env0 -> ClientFactory.unambiguous env ->
  ClientFactory.getConfigHash env0 = ClientFactory.getConfigHash env ->
  Auth.loadVibeConfig env0 = inl config ->
  Auth.loadVibeConfig env = inl config.
Proof.
  intros [Hk0 Hb0] [Hk Hb] Hh Hl. unfold ClientFactory.getConfigHash in Hh.
  destruct (split_at_colon _ _ _ _ Hk0 Hk Hh) as [Ek Eb].
  unfold Auth.loadVibeConfig in *.
  destruct (Server.truthy (Auth.VIBE_API_KEY env0)) as [key|] eqn:Ht; [|discriminate].
  destruct (truthy_orEmpty _ _ Ht) as [E0 Hne]. rewrite E0 in Ek.
  assert (Ht' : Server.truthy (Auth.VIBE_API_KEY env) = Some key).
  { apply ServerFacts.truthy_Some. split; [|exact Hne].
    destruct (Auth.VIBE_API_KEY env) as [k|]; cbn in Ek; congruence. }
  rewrite Ht'. injection Hl as <-. do 2 f_equal.
  destruct (Auth.VIBE_API_BASE_URL env0) as [b0|], (Auth.VIBE_API_BASE_URL env) as [b|];
    cbn in Eb; congruence.
Qed.

(** A hash cached for a configured environment is not the hash of an
    unambiguous environment without a key. *)
Lemma same_hash_configured env0 env config err :
  ClientFactory.unambiguous env0 -> ClientFactory.unambiguous env ->
  ClientFactory.getConfigHash env0 = ClientFactory.getConfigHash env ->
  Auth.loadVibeConfig env0 = inl config ->
  Auth.loadVibeConfig env = inr err -> False.
Proof.
  intros H0 H Hh Hl Herr.
  rewrite (same_hash_same_config env0 env config H0 H Hh Hl) in Herr. discriminate.
Qed.

Section FactoryFacts.
Variable Number : Type.
Implicit Types (m : ClientFactory.ModuleState Number) (env : Auth.Env).

Lemma cacheHit_Some m hash client :
  ClientFactory.cacheHit m hash = Some client <->
  ClientFactory.cachedClient m = Some client /\
  ClientFactory.cachedConfigHash m = Some hash.
Proof.
  unfold ClientFactory.cacheHit.
  destruct (ClientFactory.cachedClient m) as [a|], (ClientFactory.cachedConfigHash m) as [h|];
    try (split; [discriminate | intros [? ?]; discriminate]).
  destruct (String.eqb_spec h hash) as [->|Hne].
  - split; [intros [= ->]; auto | intros [[= ->] _]; reflexivity].
  - split; [discriminate | intros [_ [= ?]]; contradiction].
Qed.

(** A call in an unambiguous environment answers as a call without a
    cache would, and keeps the cache consistent. *)
Lemma getVibeClient_fresh env m :
  ClientFactory.consistent m -> ClientFactory.unambiguous env ->
  ClientFactory.consistent (snd (ClientFactory.getVibeClient env m)) /\
  match Auth.loadVibeConfig env, fst (ClientFactory.getVibeClient env m) with
  | inl config, ClientFactory.ClientOk client =>
      nth_error (ClientFactory.clients (snd (ClientFactory.getVibeClient env m))) client =
        Some (Client.new Number config)
  | inr err, ClientFactory.ClientError error => error = Auth.message err
  | _, _ => False
  end.
Proof.
  intros Hm Henv. unfold ClientFactory.getVibeClient.
  destruct (ClientFactory.cacheHit m (ClientFactory.getConfigHash env)) as [client|] eqn:Hhit.
  - apply cacheHit_Some in Hhit. destruct Hhit as [Hc Hh].
    destruct (Hm client _ Hc Hh) as (env0 & config & H0 & E & Hl & Hn).
    cbn [fst snd]. split; [exact Hm|].
    destruct (Auth.loadVibeConfig env) as [config'|err] eqn:Hl'.
    + rewrite (same_hash_same_config env0 env config H0 Henv (eq_sym E) Hl) in Hl'.
      injection Hl' as <-. exact Hn.
    + exact (same_hash_configured env0 env config err H0 Henv (eq_sym E) Hl Hl').
  - destruct (Auth.loadVibeConfig env) as [config|err] eqn:Hl; cbn [fst snd].
    + split.
      * intros client hash. cbn. intros [= <-] [= <-].
        exists env, config. repeat split; try assumption; try apply Henv.
        rewrite List.nth_error_app2, Nat.sub_diag by lia. reflexivity.
      * cbn [ClientFactory.clients].
        rewrite List.nth_error_app2, Nat.sub_diag by lia. reflexivity.
    + split; [intros client hash; cbn; discriminate | reflexivity].
Qed.

Lemma calls_consistent (envs : list Auth.Env) : forall m,
  ClientFactory.consistent m -> Forall ClientFactory.unambiguous envs ->
  ClientFactory.consistent (@ClientFactory.calls Number envs m).
Proof.
  unfold ClientFactory.calls.
  induction envs as [|env envs IH]; intros m Hm Hall; [exact Hm|].
  inversion Hall as [|? ? Henv Hall']; subst. cbn [List.fold_left].
  apply IH; [|exact Hall']. now apply getVibeClient_fresh.
Qed.

(** A second call in the same environment. *)
Lemma getVibeClient_again env m :
  ClientFactory.getVibeClient env (snd (ClientFactory.getVibeClient env m)) =
  ClientFactory.getVibeClient env m.
Proof.
  unfold ClientFactory.getVibeClient.
  destruct (ClientFactory.cacheHit m (ClientFactory.getConfigHash env)) as [client|] eqn:Hhit.
  - cbn [snd]. now rewrite Hhit.
  - destruct (Auth.loadVibeConfig env) as [config|err] eqn:Hl; cbn [snd].
    + unfold ClientFactory.cacheHit at 1. cbn. now rewrite String.eqb_refl.
    + reflexivity.
Qed.

End FactoryFacts.

(** The constructor's base URL. *)
Lemma strip_slashes url :
  exists n, url = Client.stripTrailingSlashes url ++ Client.slashes n.
Proof.
  induction url as [|a url (n & IH)]; [exists 0%nat; reflexivity|].
  cbn [Client.stripTrailingSlashes].
  destruct (Client.stripTrailingSlashes url) as [|c stripped] eqn:Hs.
  - cbn [append] in IH. destruct (Ascii.eqb_spec a "/") as [->|Hne].
    + exists (S n). cbn. now rewrite <- IH.
    + exists n. cbn. now rewrite <- IH.
  - exists n. cbn [append]. f_equal. exact IH.
Qed.

Lemma strip_no_slash url : forall stem, Client.stripTrailingSlashes url <> stem ++ "/".
Proof.
  induction url as [|a url IH]; intros stem; cbn [Client.stripTrailingSlashes].
  - destruct stem; discriminate.
  - destruct (Client.stripTrailingSlashes url) as [|c stripped] eqn:Hs.
    + destruct (Ascii.eqb_spec a "/") as [->|Hne].
      * destruct stem; discriminate.
      * destruct stem as [|b [|b' stem]]; cbn; intros [= ?]; congruence.
    + destruct stem as [|b stem]; cbn; [discriminate|].
      intros [= _ E]. exact (IH stem E).
Qed.

Lemma strip_fixed url :
  (forall stem, url <> stem ++ "/") -> Client.stripTrailingSlashes url = url.
Proof.
  induction url as [|a url IH]; intros Hn; [reflexivity|].
  cbn [Client.stripTrailingSlashes].
  assert (Hn' : url <> "" -> forall stem, url <> stem ++ "/").
  { intros _ stem ->. apply (Hn (String a stem)). reflexivity. }
  destruct url as [|c url'].
  - cbn. destruct (Ascii.eqb_spec a "/") as [->|Hne]; [|reflexivity].
    exfalso. apply (Hn ""). reflexivity.
  - rewrite IH by (apply Hn'; discriminate). reflexivity.
Qed.

End VibeFacts.

Section VibeClaims.
Local Open Scope string_scope.
Local Open Scope Z_scope.

(** X20.  The two readings of the API key agree: [isVibeConfigured] is
    true exactly when [loadVibeConfig] returns, which is exactly when
    [VIBE_API_KEY] is set to a string other than the empty one; otherwise
    [loadVibeConfig] throws the error with the code [NO_API_KEY].  The
    configuration loaded has that key and the base URL of the environment
    as it is set, the empty string included, and the default only when it
    is not set.  The ping tool answers with an error exactly when the key
    is not configured. *)
Theorem X20_configured_iff_config_loads :
  forall env : Auth.Env,
    (Auth.isVibeConfigured env = true <->
     exists config, Auth.loadVibeConfig env = inl config) /\
    (Auth.isVibeConfigured env = false <->
     Auth.VIBE_API_KEY env = None \/ Auth.VIBE_API_KEY env = Some "") /\
    (forall err, Auth.loadVibeConfig env = inr err -> Auth.code err = "NO_API_KEY") /\
    (forall config,
        Auth.loadVibeConfig env = inl config ->
        Auth.VIBE_API_KEY env = Some (Types.apiKey config) /\
        (forall url, Auth.VIBE_API_BASE_URL env = Some url -> Types.baseUrl config = url) /\
        (Auth.VIBE_API_BASE_URL env = None ->
         Types.baseUrl config = "https://clear-platform.vibe.co/rest/reporting/v1")) /\
    ToolUtils.isError (ToolUtils.ping env) = negb (Auth.isVibeConfigured env).
Proof.
  intros env. unfold Auth.isVibeConfigured, Auth.loadVibeConfig, ToolUtils.ping,
    Auth.isVibeConfigured.
  destruct (Server.truthy (Auth.VIBE_API_KEY env)) as [key|] eqn:Ht; cbn.
  - apply ServerFacts.truthy_Some in Ht. destruct Ht as [Hk Hne].
    split; [split; eauto|]. split; [|split; [discriminate|split; [|reflexivity]]].
    + split; [discriminate|]. intros [H|H]; rewrite Hk in H; [discriminate|].
      injection H as ->. contradiction.
    + intros config [= <-]. cbn. split; [exact Hk|].
      split; [now intros url -> | now intros ->].
  - apply ServerFacts.truthy_None in Ht.
    split; [split; [discriminate | intros [config H]; discriminate]|].
    split; [split; auto|]. split; [now intros err [= <-]|].
    split; [discriminate | reflexivity].
Qed.

(** X21.  [getVibeClient] caches: a call made right after another in the
    same environment returns what that call returned, the same client
    object or the same error, constructs nothing and leaves the cache as
    it is; so any number of calls in one environment construct at most one
    client.  [getVibeClientOrThrow] returns that client or throws that
    error message. *)
Theorem X21_client_is_cached :
  forall (Number : Type) (env : Auth.Env) (m : ClientFactory.ModuleState Number),
    let first := ClientFactory.getVibeClient env m in
    ClientFactory.getVibeClient env (snd first) = first /\
    (forall n,
        @ClientFactory.calls Number (List.repeat env (S n)) m = snd first) /\
    (List.length (ClientFactory.clients (snd first)) <=
     S (List.length (ClientFactory.clients m)))%nat /\
    ClientFactory.getVibeClientOrThrow env m =
      (match fst first with
       | ClientFactory.ClientOk client => inl client
       | ClientFactory.ClientError error => inr error
       end, snd first).
Proof.
  intros Number env m first. subst first.
  split; [apply VibeFacts.getVibeClient_again|]. split; [|split].
  - intros n. unfold ClientFactory.calls. cbn [List.repeat List.fold_left].
    induction n as [|n IH]; [reflexivity|].
    cbn [List.repeat List.fold_left]. now rewrite VibeFacts.getVibeClient_again.
  - unfold ClientFactory.getVibeClient.
    destruct (ClientFactory.cacheHit m (ClientFactory.getConfigHash env)); cbn; [lia|].
    destruct (Auth.loadVibeConfig env); cbn; [|lia].
    rewrite List.length_app. simpl. lia.
  - unfold ClientFactory.getVibeClientOrThrow.
    now destruct (ClientFactory.getVibeClient env m) as [[client|error] m'].
Qed.

(** X22.  The cache does not change what a caller gets, as long as no
    API key holds a colon and no base URL is set to the empty string:
    after any calls made in such environments, a call in such an
    environment returns a client constructed from the configuration of
    that environment when the key is configured, and the error message of
    [loadVibeConfig] when it is not.  The hash that guards the cache joins
    key and base URL with a colon, so without the condition a cached
    client can answer for another configuration: with key ["a"] and base
    URL [":b"] cached, a call with key ["a:"] and base URL ["b"] returns
    the client that holds the key ["a"]. *)
Theorem X22_cached_client_matches_environment :
  forall (Number : Type) (history : list Auth.Env) (env : Auth.Env),
    Forall ClientFactory.unambiguous history ->
    ClientFactory.unambiguous env ->
    let m := @ClientFactory.calls Number history (ClientFactory.loaded Number) in
    match Auth.loadVibeConfig env, fst (ClientFactory.getVibeClient env m) with
    | inl config, ClientFactory.ClientOk client =>
        nth_error (ClientFactory.clients (snd (ClientFactory.getVibeClient env m))) client =
          Some (Client.new Number config)
    | inr err, ClientFactory.ClientError error => error = Auth.message err
    | _, _ => False
    end /\
    let colon := {| Auth.VIBE_API_KEY := Some "a"; Auth.VIBE_API_BASE_URL := Some ":b" |} in
    let other := {| Auth.VIBE_API_KEY := Some "a:"; Auth.VIBE_API_BASE_URL := Some "b" |} in
    let stale := @ClientFactory.calls Number [colon] (ClientFactory.loaded Number) in
    fst (ClientFactory.getVibeClient other stale) = ClientFactory.ClientOk 0 /\
    option_map (Client.apiKey (Number := Number))
      (nth_error (ClientFactory.clients (snd (ClientFactory.getVibeClient other stale))) 0) =
      Some "a".
Proof.
  intros Number history env Hall Henv m. split; [|split; reflexivity].
  apply VibeFacts.getVibeClient_fresh; [|exact Henv].
  apply VibeFacts.calls_consistent; [|exact Hall].
  intros client hash. discriminate.
Qed.

Lemma X22_cached_client_matches_environment_witness :
  let m :=
    @ClientFactory.calls nat [VibeSamples.keyOnly; VibeSamples.unset]
      (ClientFactory.loaded nat) in
  match Auth.loadVibeConfig VibeSamples.custom,
        fst (ClientFactory.getVibeClient VibeSamples.custom m) with
  | inl config, ClientFactory.ClientOk client =>
      nth_error
        (ClientFactory.clients (snd (ClientFactory.getVibeClient VibeSamples.custom m)))
        client = Some (Client.new nat config)
  | inr err, ClientFactory.ClientError error => error = Auth.message err
  | _, _ => False
  end /\
  let colon := {| Auth.VIBE_API_KEY := Some "a"; Auth.VIBE_API_BASE_URL := Some ":b" |} in
  let other := {| Auth.VIBE_API_KEY := Some "a:"; Auth.VIBE_API_BASE_URL := Some "b" |} in
  let stale := @ClientFactory.calls nat [colon] (ClientFactory.loaded nat) in
  fst (ClientFactory.getVibeClient other stale) = ClientFactory.ClientOk 0 /\
  option_map (Client.apiKey (Number := nat))
    (nth_error (ClientFactory.clients (snd (ClientFactory.getVibeClient other stale))) 0) =
    Some "a".
Proof.
  apply (X22_cached_client_matches_environment nat
           [VibeSamples.keyOnly; VibeSamples.unset] VibeSamples.custom).
  - repeat constructor; discriminate.
  - split; [reflexivity | discriminate].
Defined.

(** X23.  A client is constructed with the key of its configuration, no
    rate-limit information, and the base URL of the configuration without
    the slashes at its end: the configured URL is the client's URL
    followed by slashes only, the client's URL does not end in a slash,
    and a URL that does not end in a slash is taken as it is. *)
Theorem X23_base_url_without_trailing_slashes :
  forall (Number : Type) (config : Types.VibeConfig),
    let client := Client.new Number config in
    Client.apiKey client = Types.apiKey config /\
    Client.getRateLimitInfo client = None /\
    (exists n, Types.baseUrl config = Client.baseUrl client ++ Client.slashes n) /\
    Cors.endsWith (Client.baseUrl client) "/" = false /\
    (Cors.endsWith (Types.baseUrl config) "/" = false ->
     Client.baseUrl client = Types.baseUrl config) /\
    Client.baseUrl
      (Client.new Number
         {| Types.apiKey := "k"; Types.baseUrl := "https://api.vibe.co/v1///" |}) =
      "https://api.vibe.co/v1".
Proof.
  intros Number config client. subst client. cbn.
  split; [reflexivity|]. split; [reflexivity|].
  split; [apply VibeFacts.strip_slashes|]. split; [|split; [|reflexivity]].
  - destruct (Cors.endsWith (Client.stripTrailingSlashes (Types.baseUrl config)) "/") eqn:E;
      [|reflexivity].
    apply CorsFacts.endsWith_slash in E. destruct E as (stem & E).
    exfalso. exact (VibeFacts.strip_no_slash _ stem E).
  - intros He. apply VibeFacts.strip_fixed. intros stem E.
    assert (Cors.endsWith (Types.baseUrl config) "/" = true)
      by (apply CorsFacts.endsWith_slash; eauto).
    congruence.
Qed.

(** X24.  How [mapHttpError] sorts a response by its status.  The error
    keeps the status and the message found in the body.  The code is
    [FORBIDDEN] exactly for 403, [NOT_FOUND] exactly for 404,
    [RATE_LIMITED] exactly for 429, [VALIDATION_ERROR] for every other
    status from 400 to 499, 401 among them, and [SERVER_ERROR] for every
    status outside that range; no status gives [UNAUTHORIZED].  The error
    is retryable exactly for 429 and for the statuses outside 400 to
    499. *)
Theorem X24_http_status_classification :
  forall (Data : Type) (read : Data -> string -> Client.Property)
         (response : Client.Response Data),
    let error := Client.mapHttpError read response in
    let status := Client.status response in
    Types.statusCode error = Some status /\
    Types.apiMessage error = Client.apiMessageOf read response /\
    (Types.code error = Types.FORBIDDEN <-> status = 403) /\
    (Types.code error = Types.NOT_FOUND <-> status = 404) /\
    (Types.code error = Types.RATE_LIMITED <-> status = 429) /\
    (Types.code error = Types.VALIDATION_ERROR <->
     400 <= status < 500 /\ status <> 403 /\ status <> 404 /\ status <> 429) /\
    (Types.code error = Types.SERVER_ERROR <-> status < 400 \/ 500 <= status) /\
    Types.code error <> Types.UNAUTHORIZED /\
    (Types.retryable error = true <-> status = 429 \/ status < 400 \/ 500 <= status).
Proof.
  intros Data read response error status. subst error status.
  unfold Client.mapHttpError.
  destruct (Z.eqb_spec (Client.status response) 400);
    [|destruct (Z.eqb_spec (Client.status response) 403);
      [|destruct (Z.eqb_spec (Client.status response) 404);
        [|destruct (Z.eqb_spec (Client.status response) 422);
          [|destruct (Z.eqb_spec (Client.status response) 429);
            [|destruct (Z.geb_spec (Client.status response) 400);
              destruct (Z.ltb_spec (Client.status response) 500)]]]]];
    cbn [Types.statusCode Types.apiMessage Types.code Types.retryable andb];
    repeat match goal with
           | |- _ /\ _ => split
           | |- _ <-> _ => split; intros
           end;
    first [reflexivity | discriminate | lia | exfalso; lia].
Qed.

(** X25.  What a tool shows for a response that is not ok, composed of
    [mapHttpError] and [formatError] with the resource type the tool
    passes.  The result is an error with one text.  For 403 and for 429
    the text is the fixed advice of [ERROR_MESSAGES], and for 404 it names
    the resource type; in these three cases nothing of the API's own
    message is shown.  For every other status the text is the code
    followed by the message of the client error. *)
Theorem X25_tool_text_of_http_error :
  forall (Data : Type) (read : Data -> string -> Client.Property)
         (response : Client.Response Data) (resourceType : string),
    resourceType <> "" ->
    let error := Client.mapHttpError read response in
    let status := Client.status response in
    let out := ToolUtils.formatError error (Some resourceType) in
    ToolUtils.isError out = true /\
    (status = 403 ->
     ToolUtils.content out =
       ["Vibe API Error (FORBIDDEN): Your API key is invalid or missing. Set VIBE_API_KEY with a valid key from Vibe account > Developer Tool > API Keys."]) /\
    (status = 429 ->
     ToolUtils.content out =
       ["Vibe API Error (RATE_LIMITED): You have exceeded Vibe's rate limit (15 requests/hour for report creation). Please wait before trying again."]) /\
    (status = 404 ->
     ToolUtils.content out =
       ["Vibe API Error (NOT_FOUND): The requested " ++ resourceType ++ " was not found."]) /\
    (status <> 403 -> status <> 404 -> status <> 429 ->
     ToolUtils.content out =
       ["Vibe API Error (" ++ Types.codeString (Types.code error) ++ "): " ++
        Types.message error]).
Proof.
  intros Data read response resourceType Hne error status out.
  subst out error status.
  assert (Ht : Server.truthy (Some resourceType) = Some resourceType)
    by (apply ServerFacts.truthy_Some; auto).
  unfold ToolUtils.formatError. rewrite Ht. clear Ht.
  unfold Client.mapHttpError.
  destruct (Z.eqb_spec (Client.status response) 400);
    [|destruct (Z.eqb_spec (Client.status response) 403);
      [|destruct (Z.eqb_spec (Client.status response) 404);
        [|destruct (Z.eqb_spec (Client.status response) 422);
          [|destruct (Z.eqb_spec (Client.status response) 429);
            [|destruct ((Client.status response >=? 400) && (Client.status response <? 500))]]]]];
    cbn; (split; [reflexivity|]);
    repeat (split; [intros; first [lia | reflexivity]|]);
    intros; first [lia | reflexivity].
Qed.

Lemma X25_tool_text_of_http_error_witness :
  let response :=
    VibeSamples.respond 404 VibeSamples.noHeaders (Some [("message", "Report not found")]) in
  let error := Client.mapHttpError VibeSamples.readField response in
  let status := Client.status response in
  let out := ToolUtils.formatError error (Some "report") in
  ToolUtils.isError out = true /\
  (status = 403 ->
   ToolUtils.content out =
     ["Vibe API Error (FORBIDDEN): Your API key is invalid or missing. Set VIBE_API_KEY with a valid key from Vibe account > Developer Tool > API Keys."]) /\
  (status = 429 ->
   ToolUtils.content out =
     ["Vibe API Error (RATE_LIMITED): You have exceeded Vibe's rate limit (15 requests/hour for report creation). Please wait before trying again."]) /\
  (status = 404 ->
   ToolUtils.content out =
     ["Vibe API Error (NOT_FOUND): The requested " ++ "report" ++ " was not found."]) /\
  (status <> 403 -> status <> 404 -> status <> 429 ->
   ToolUtils.content out =
     ["Vibe API Error (" ++ Types.codeString (Types.code error) ++ "): " ++
      Types.message error]).
Proof.
  apply (X25_tool_text_of_http_error (list (string * string)) VibeSamples.readField
           (VibeSamples.respond 404 VibeSamples.noHeaders
              (Some [("message", "Report not found")])) "report").
  discriminate.
Defined.

(** X26.  Once the URL is built, [request] resolves to a result whatever
    happens: a response that is ok and has a JSON body is the one case of
    success, and every other response and every throw of the [try] block
    is a failure.  A failure is retryable exactly when the request was
    aborted, which is the timeout, or when the response is not ok with
    status 429 or a status outside 400 to 499; a network error or a body
    that is not JSON is not.  The rate-limit information of the client is
    replaced as a whole by every response, ok or not, that bears the three
    headers [x-rate-limit], [x-rate-limit-left] and
    [x-rate-limit-reset-at], with [retryAfter] present exactly when its
    header is; a response that lacks one of the three, and a throw, leave
    the information of an earlier response in place. *)
Theorem X26_request_results :
  forall (Number Data : Type) (parseInt : string -> Number)
         (read : Data -> string -> Client.Property)
         (fetched : Client.Fetched Data) (client : Client.VibeClient Number),
    let out := Client.request parseInt read fetched client in
    (forall data,
        fst out = Types.Success data <->
        exists response,
          fetched = Client.Responds response /\
          Client.ok response = true /\ Client.json response = Some data) /\
    (forall error,
        fst out = Types.Failure error ->
        (Types.retryable error = true <->
         (exists message, fetched = Client.Throws (Client.ErrorObject "AbortError" message)) \/
         (exists response,
             fetched = Client.Responds response /\ Client.ok response = false /\
             (Client.status response = 429 \/ Client.status response < 400 \/
              500 <= Client.status response)))) /\
    Client.apiKey (snd out) = Client.apiKey client /\
    Client.baseUrl (snd out) = Client.baseUrl client /\
    (forall response limit remaining resetAt,
        fetched = Client.Responds response ->
        Client.header response "x-rate-limit" = Some limit ->
        Client.header response "x-rate-limit-left" = Some remaining ->
        Client.header response "x-rate-limit-reset-at" = Some resetAt ->
        Client.getRateLimitInfo (snd out) =
          Some {| Types.limit := parseInt limit;
                  Types.remaining := parseInt remaining;
                  Types.resetAt := resetAt;
                  Types.retryAfter :=
                    option_map parseInt
                      (Client.header response "x-rate-limit-retry-after") |}) /\
    ((forall response,
         fetched = Client.Responds response ->
         Client.header response "x-rate-limit" = None \/
         Client.header response "x-rate-limit-left" = None \/
         Client.header response "x-rate-limit-reset-at" = None) ->
     Client.getRateLimitInfo (snd out) = Client.getRateLimitInfo client).
Proof.
  intros Number Data parseInt read fetched client out. subst out.
  unfold Client.request, Client.getRateLimitInfo.
  destruct fetched as [response|err].
  - assert (Hkeep :
      Client.apiKey (Client.parseRateLimitHeaders parseInt response client) =
        Client.apiKey client /\
      Client.baseUrl (Client.parseRateLimitHeaders parseInt response client) =
        Client.baseUrl client).
    { unfold Client.parseRateLimitHeaders.
      destruct (Client.header response "x-rate-limit"),
        (Client.header response "x-rate-limit-left"),
        (Client.header response "x-rate-limit-reset-at"); cbn; auto. }
    split; [|split; [|split; [|split; [|split]]]].
    + intros data. destruct (Client.ok response) eqn:Hok; cbn [negb fst].
      * destruct (Client.json response) as [d|] eqn:Hj; cbn [fst].
        -- split.
           ++ intros [= ->]. exists response. auto.
           ++ intros (r & [= <-] & _ & Hd). congruence.
        -- split; [discriminate|]. intros (r & [= <-] & _ & Hd). congruence.
      * split; [discriminate|]. intros (r & [= <-] & Ho & _). congruence.
    + intros error. destruct (Client.ok response) eqn:Hok; cbn [negb fst].
      * destruct (Client.json response) as [d|]; cbn [fst]; [discriminate|].
        intros [= <-]. cbn. split; [discriminate|].
        intros [(message & H)|(r & [= <-] & Ho & _)]; [discriminate | congruence].
      * intros [= <-].
        destruct (X24_http_status_classification Data read response)
          as (_ & _ & _ & _ & _ & _ & _ & _ & Hr).
        cbv zeta in Hr. rewrite Hr. split.
        -- intros H. right. exists response. auto.
        -- intros [(message & H)|(r & [= <-] & _ & H)]; [discriminate | exact H].
    + destruct (negb (Client.ok response)); [apply Hkeep|].
      destruct (Client.json response); apply Hkeep.
    + destruct (negb (Client.ok response)); [apply Hkeep|].
      destruct (Client.json response); apply Hkeep.
    + intros r limit remaining resetAt [= <-] H1 H2 H3.
      assert (E : Client.rateLimitInfo (Client.parseRateLimitHeaders parseInt response client) =
                  Some {| Types.limit := parseInt limit;
                          Types.remaining := parseInt remaining;
                          Types.resetAt := resetAt;
                          Types.retryAfter :=
                            option_map parseInt
                              (Client.header response "x-rate-limit-retry-after") |}).
      { unfold Client.parseRateLimitHeaders. rewrite H1, H2, H3. cbn.
        now destruct (Client.header response "x-rate-limit-retry-after"). }
      destruct (negb (Client.ok response)); [exact E|].
      destruct (Client.json response); exact E.
    + intros Hmiss.
      assert (E : Client.parseRateLimitHeaders parseInt response client = client).
      { unfold Client.parseRateLimitHeaders.
        destruct (Hmiss response eq_refl) as [->|[->| ->]]; [reflexivity| |].
        - now destruct (Client.header response "x-rate-limit").
        - now destruct (Client.header response "x-rate-limit"),
            (Client.header response "x-rate-limit-left"). }
      rewrite E. destruct (negb (Client.ok response)); [reflexivity|].
      now destruct (Client.json response).
  - cbn [fst snd]. split; [|split; [|split; [|split; [|split]]]]; auto.
    + intros data. split; [discriminate | intros (r & H & _); discriminate].
    + intros error [= <-]. unfold Client.mapNetworkError.
      destruct err as [name message|]; cbn.
      * destruct (String.eqb_spec name "AbortError") as [->|Hn]; cbn.
        -- split; [eauto | reflexivity].
        -- split; [discriminate|].
           intros [(m & [= ? _])|(r & H & _)]; [contradiction | discriminate].
      * split; [discriminate|].
        intros [(m & H)|(r & H & _)]; discriminate.
    + intros r limit remaining resetAt H. discriminate.
Qed.

End VibeClaims.
